(** * Real-time drone mapping: notification service and client reconciler

    A shallow embedding of

    - [notification-service/server.js]: the tile registry ([tilesMetadata]),
      the broadcast set ([clients]), the connection handler, [broadcast],
      [readTileMetadata], [processNewTile], the watcher callbacks and the
      REST handler [GET /api/tiles/:id], the start-up scan of
      [initializeWatcher], [GET /api/tiles] and [GET /health];
    - [hooks/useTileWebSocket.ts]: the message handler ([ws.onmessage]), the
      animation queue ([pendingTilesRef], [processingRef]),
      [processNextTile] with its two timers, [ws.onopen], [ws.onclose] with
      its reconnect timer, and the value the hook returns;
    - [components/map-container/DroneLayer.tsx]: the effect that turns the
      revealed tiles into map layers, and the fade-in of a layer;
    - [components/map-container/DroneIcon.tsx]: the scan-radius interval.

    JavaScript [Map]s and object literals are insertion-ordered association
    lists, the [Set] of clients is an insertion-ordered duplicate-free list,
    JavaScript numbers are IEEE-754 binary64 values ([PrimFloat.float]).
    Effects are explicit: every handler is a function from state to state,
    socket writes are appended to a log, [Date.now()] and the file system
    are arguments of the handler that reads them. *)

From Stdlib Require Import Floats.PrimFloat.
From Stdlib Require Import String Ascii List ZArith Bool Arith Lia.
From Stdlib Require Import Permutation DecimalString FinFun Sorted.
Import ListNotations.

Set Warnings "-inexact-float,-register-all".
Set Implicit Arguments.

Local Open Scope string_scope.
Local Open Scope list_scope.

(* ===================================================================== *)
(** ** JavaScript [Map] with string keys (insertion ordered)             *)
(* ===================================================================== *)

Module JsMap.

Section WithValue.
Variable V : Type.

Definition t := list (string * V).

Definition empty : t := [].

(** [m.get(k)] *)
Fixpoint get (k : string) (m : t) : option V :=
  match m with
  | [] => None
  | (k', v) :: m' => if String.eqb k k' then Some v else get k m'
  end.

(** [m.has(k)] *)
Definition has (k : string) (m : t) : bool :=
  match get k m with Some _ => true | None => false end.

(** [m.set(k, v)]: an existing key keeps its position and gets the new
    value, a new key is appended. *)
Fixpoint set (k : string) (v : V) (m : t) : t :=
  match m with
  | [] => [(k, v)]
  | (k', v') :: m' =>
      if String.eqb k k' then (k, v) :: m' else (k', v') :: set k v m'
  end.

(** [Array.from(m.keys())], [Array.from(m.values())], [m.size] *)
Definition keys (m : t) : list string := map fst m.
Definition values (m : t) : list V := map snd m.
Definition size (m : t) : nat := length m.

(** [new Map(entries)] *)
Definition of_entries (es : list (string * V)) : t :=
  fold_left (fun m e => set (fst e) (snd e) m) es empty.

End WithValue.

Arguments empty {V}.

End JsMap.

(* ===================================================================== *)
(** ** JSON values and JavaScript truthiness                             *)
(* ===================================================================== *)

Module Json.

Inductive value : Type :=
| JNull
| JBool (b : bool)
| JNum (x : float)
| JStr (s : string)
| JArr (xs : list value)
| JObj (fields : list (string * value)).

(** An object as the program holds it: own properties in insertion
    order. *)
Definition object := JsMap.t value.

(** [!!v] *)
Definition truthy (v : value) : bool :=
  match v with
  | JNull => false
  | JBool b => b
  | JNum x => negb (PrimFloat.eqb x 0 || PrimFloat.is_nan x)
  | JStr s => negb (String.eqb s "")
  | JArr _ => true
  | JObj _ => true
  end.

Definition index_key (i : nat) : string :=
  DecimalString.NilZero.string_of_uint (Nat.to_uint i).

Fixpoint indexed {A} (f : A -> value) (i : nat) (xs : list A)
  : list (string * value) :=
  match xs with
  | [] => []
  | x :: xs' => (index_key i, f x) :: indexed f (S i) xs'
  end.

(** The own enumerable properties that an object spread [{...v}] copies:
    the fields of an object, the indices of an array or of a string,
    nothing for the other primitives. *)
Definition own_props (v : value) : object :=
  match v with
  | JObj fields => JsMap.of_entries fields
  | JArr xs => indexed (fun x => x) 0 xs
  | JStr s => indexed (fun c => JStr (String c EmptyString)) 0 (list_ascii_of_string s)
  | JNull | JBool _ | JNum _ => JsMap.empty
  end.

End Json.

(* ===================================================================== *)
(** ** String and path helpers used by [processNewTile]                  *)
(* ===================================================================== *)

Module Path.

(** [s.endsWith(suffix)]: some tail of [s] is [suffix]. *)
Fixpoint endsWith (s suffix : string) : bool :=
  String.eqb s suffix ||
  match s with
  | EmptyString => false
  | String _ s' => endsWith s' suffix
  end.

(** [s.replace(pat, rep)] with a string pattern: only the first
    occurrence is replaced. *)
Definition replace (s pat rep : string) : string :=
  match String.index 0 pat s with
  | Some n =>
      String.substring 0 n s ++ rep ++
      String.substring (n + String.length pat)
                       (String.length s - (n + String.length pat)) s
  | None => s
  end.

Definition has_slash (p : string) : bool :=
  match String.index 0 "/" p with Some _ => true | None => false end.

(** [path.basename(p)] for a POSIX path without trailing separator: the
    text after the last ['/']. *)
Fixpoint basename (p : string) : string :=
  match p with
  | EmptyString => EmptyString
  | String c p' =>
      if has_slash p' then basename p'
      else if Ascii.eqb c "/" then p' else p
  end.

Fixpoint before_last_slash (p : string) : string :=
  match p with
  | EmptyString => EmptyString
  | String c p' =>
      if has_slash p' then String c (before_last_slash p') else EmptyString
  end.

(** [path.dirname(p)] for such a path. *)
Definition dirname (p : string) : string :=
  if has_slash p then
    let d := before_last_slash p in
    if String.eqb d "" then "/" else d
  else ".".

(** [path.join(dir, name)] for a normalized [dir] and a plain file
    name. *)
Definition join (dir name : string) : string :=
  if String.eqb dir "." then name
  else if String.eqb dir "/" then "/" ++ name
  else dir ++ "/" ++ name.

End Path.

(* ===================================================================== *)
(** ** The notification service ([server.js])                            *)
(* ===================================================================== *)

Module Server.

Import Json.

(** [ws.readyState] *)
Inductive ReadyState := CONNECTING | OPEN | CLOSING | CLOSED.

Definition is_open (r : ReadyState) : bool :=
  match r with OPEN => true | _ => false end.

(** A socket object is known by its identity. *)
Definition WebSocket := nat.

(** The two messages the service writes to a socket. *)
Inductive Message :=
| MInitial (tiles : list object) (titilerUrl : string)
| MNewTile (tile : object).

Definition is_initial (m : Message) : bool :=
  match m with MInitial _ _ => true | MNewTile _ => false end.

Definition is_new_tile (m : Message) : bool :=
  match m with MNewTile _ => true | MInitial _ _ => false end.

(** Configuration read from the environment at start-up. *)
Record Config := {
  TILES_DIR : string;
  TITILER_URL : string;
  TITILER_PUBLIC_URL : string
}.

Definition default_config : Config := {|
  TILES_DIR := "/data/tiles";
  TITILER_URL := "http://titiler:8000";
  TITILER_PUBLIC_URL := "http://localhost:8000"
|}.

(** What the service sees of the disk when a handler runs:
    [fs.existsSync] and [fs.readFileSync] ([None] when it throws). *)
Record FileSystem := {
  existsSync : string -> bool;
  readFileSync : string -> option string
}.

(** State of the service: the [clients] set, the [tilesMetadata] map, the
    ready state of every socket, and the log of all socket writes in the
    order they were made. *)
Record State := {
  clients : list WebSocket;
  tilesMetadata : JsMap.t object;
  readyState : WebSocket -> ReadyState;
  sent : list (WebSocket * Message)
}.

Definition init : State := {|
  clients := [];
  tilesMetadata := JsMap.empty;
  readyState := fun _ => CONNECTING;
  sent := []
|}.

(** [Set.prototype.has / add / delete] on the insertion-ordered set. *)
Definition set_has (ws : WebSocket) (l : list WebSocket) : bool :=
  existsb (Nat.eqb ws) l.

Definition set_add (ws : WebSocket) (l : list WebSocket) : list WebSocket :=
  if set_has ws l then l else l ++ [ws].

Definition set_delete (ws : WebSocket) (l : list WebSocket) : list WebSocket :=
  filter (fun c => negb (Nat.eqb ws c)) l.

(** [ws.send(JSON.stringify(m))] *)
Definition send (ws : WebSocket) (m : Message) (s : State) : State :=
  {| clients := clients s;
     tilesMetadata := tilesMetadata s;
     readyState := readyState s;
     sent := sent s ++ [(ws, m)] |}.

(** The messages written to one socket, oldest first. *)
Definition outbox (ws : WebSocket) (s : State) : list Message :=
  map snd (filter (fun p => Nat.eqb (fst p) ws) (sent s)).

Section WithEnvironment.

Variable cfg : Config.
(** [JSON.parse]; [None] when it throws. *)
Variable JSON_parse : string -> option value.

(** [wss.on('connection', ws => ...)] *)
Definition on_connection (ws : WebSocket) (s : State) : State :=
  let s1 := {| clients := set_add ws (clients s);
               tilesMetadata := tilesMetadata s;
               readyState := readyState s;
               sent := sent s |} in
  let currentTiles := JsMap.values (tilesMetadata s1) in
  send ws (MInitial currentTiles (TITILER_PUBLIC_URL cfg)) s1.

(** [ws.on('close', ...)] and [ws.on('error', ...)] *)
Definition on_close (ws : WebSocket) (s : State) : State :=
  {| clients := set_delete ws (clients s);
     tilesMetadata := tilesMetadata s;
     readyState := readyState s;
     sent := sent s |}.

Definition on_error (ws : WebSocket) (s : State) : State :=
  {| clients := set_delete ws (clients s);
     tilesMetadata := tilesMetadata s;
     readyState := readyState s;
     sent := sent s |}.

(** [broadcast(message)] *)
Definition broadcast (message : Message) (s : State) : State :=
  fold_left
    (fun st client =>
       if is_open (readyState st client) then send client message st else st)
    (clients s) s.

(** [readTileMetadata(jsonPath)]: [null] when reading or parsing
    throws. *)
Definition readTileMetadata (fs : FileSystem) (jsonPath : string) : value :=
  match readFileSync fs jsonPath with
  | Some content =>
      match JSON_parse content with
      | Some v => v
      | None => JNull
      end
  | None => JNull
  end.

(** The names [processNewTile] derives from the path it is given. *)
Definition tileIdOf (filePath : string) : string :=
  Path.replace (Path.basename filePath) ".json" "".

Definition tifFilenameOf (filePath : string) : string :=
  (tileIdOf filePath ++ ".tif")%string.

Definition tifPathOf (filePath : string) : string :=
  Path.join (Path.dirname filePath) (tifFilenameOf filePath).

(** The enriched record [{...metadata, id, tileUrl, tilejsonUrl,
    timestamp}]. *)
Definition tileDataOf (metadata : value) (tileId tifFilename : string)
           (now : float) : object :=
  JsMap.set "timestamp" (JNum now)
    (JsMap.set "tilejsonUrl"
       (JStr (TITILER_PUBLIC_URL cfg ++ "/cog/tilejson.json?url=/data/" ++ tifFilename))
       (JsMap.set "tileUrl"
          (JStr (TITILER_PUBLIC_URL cfg ++
                 "/cog/tiles/WebMercatorQuad/{z}/{x}/{y}?url=/data/" ++ tifFilename))
          (JsMap.set "id" (JStr tileId) (own_props metadata)))).

(** [processNewTile(filePath)], with the disk and [Date.now()] at the
    time of the call. *)
Definition processNewTile (fs : FileSystem) (now : float)
           (filePath : string) (s : State) : State :=
  let filename := Path.basename filePath in
  if negb (Path.endsWith filename ".json") then s
  else
    let tileId := Path.replace filename ".json" "" in
    let tifFilename := (tileId ++ ".tif")%string in
    let tifPath := Path.join (Path.dirname filePath) tifFilename in
    if negb (existsSync fs tifPath) then s
    else
      let metadata := readTileMetadata fs filePath in
      if negb (truthy metadata) then s
      else
        let tileData := tileDataOf metadata tileId tifFilename now in
        let s1 := {| clients := clients s;
                     tilesMetadata := JsMap.set tileId tileData (tilesMetadata s);
                     readyState := readyState s;
                     sent := sent s |} in
        broadcast (MNewTile tileData) s1.

(** The watcher callbacks of [initializeWatcher]. *)
Inductive WatchEvent :=
| WAdd (filePath : string)
| WChange (filePath : string)
| WError.

Definition on_watch (ev : WatchEvent) (fs : FileSystem) (now : float)
           (s : State) : State :=
  match ev with
  | WAdd filePath => processNewTile fs now filePath s
  | WChange filePath => processNewTile fs now filePath s
  | WError => s
  end.

(** [GET /api/tiles/:id] *)
Record Response := { status : nat; body : object }.

Definition get_tile_by_id (id : string) (s : State) : State * Response :=
  match JsMap.get id (tilesMetadata s) with
  | Some tile => (s, {| status := 200; body := tile |})
  | None =>
      (s, {| status := 404;
             body := [("error", JStr "Tile not found")] |})
  end.

(** Everything that can happen to the service, one event-loop turn
    each. [SocketState] is the network changing a socket's
    [readyState]. *)
Inductive Event :=
| Connection (ws : WebSocket)
| Close (ws : WebSocket)
| SocketError (ws : WebSocket)
| SocketState (ws : WebSocket) (r : ReadyState)
| Watch (ev : WatchEvent) (fs : FileSystem) (now : float)
| GetTile (id : string).

Definition set_ready (ws : WebSocket) (r : ReadyState) (s : State) : State :=
  {| clients := clients s;
     tilesMetadata := tilesMetadata s;
     readyState := fun w => if Nat.eqb w ws then r else readyState s w;
     sent := sent s |}.

Definition step (s : State) (e : Event) : State :=
  match e with
  | Connection ws => on_connection ws (set_ready ws OPEN s)
  | Close ws => on_close ws s
  | SocketError ws => on_error ws s
  | SocketState ws r => set_ready ws r s
  | Watch ev fs now => on_watch ev fs now s
  | GetTile id => fst (get_tile_by_id id s)
  end.

Definition run (evs : list Event) (s : State) : State :=
  fold_left step evs s.

Definition is_connection_of (ws : WebSocket) (e : Event) : bool :=
  match e with Connection w => Nat.eqb w ws | _ => false end.

(** *** Notions used to state the properties *)

(** The sockets a broadcast writes to, in iteration order. *)
Definition receivers (s : State) : list WebSocket :=
  filter (fun c => is_open (readyState s c)) (clients s).

(** The conditions under which [processNewTile] registers. *)
Definition accepts (fs : FileSystem) (filePath : string) : bool :=
  Path.endsWith (Path.basename filePath) ".json"
  && existsSync fs (tifPathOf filePath)
  && truthy (readTileMetadata fs filePath).

Definition recordOf (fs : FileSystem) (now : float) (filePath : string) : object :=
  tileDataOf (readTileMetadata fs filePath) (tileIdOf filePath)
             (tifFilenameOf filePath) now.

(** The registry invariant: every record is stored under its own id,
    and neither the registry nor the client set holds a duplicate. *)
Definition keyed_by_id (m : JsMap.t object) : Prop :=
  Forall (fun e => JsMap.get "id" (snd e) = Some (JStr (fst e))) m.

Definition Inv (s : State) : Prop :=
  NoDup (clients s)
  /\ NoDup (JsMap.keys (tilesMetadata s))
  /\ keyed_by_id (tilesMetadata s).

End WithEnvironment.

End Server.

(* ===================================================================== *)
(** ** The client hook ([useTileWebSocket.ts], types from [types/tile]) *)
(* ===================================================================== *)

Module Client.

Record TileBounds := {
  min_lon : float;
  min_lat : float;
  max_lon : float;
  max_lat : float
}.

(** [bbox: [number, number, number, number]] *)
Definition BBox := (float * float * float * float)%type.

Definition bbox_at (b : BBox) (i : nat) : float :=
  let '(b0, b1, b2, b3) := b in
  match i with
  | 0 => b0
  | 1 => b1
  | 2 => b2
  | _ => b3
  end.

Record TileMetadata := {
  id : string;
  filename : string;
  row : Z;
  col : Z;
  bounds : TileBounds;
  bbox : BBox;
  width : Z;
  height : Z;
  tileUrl : string;
  tilejsonUrl : string;
  timestamp : float
}.

Inductive MessageType := initial | new_tile.

(** [WebSocketMessage]: the optional members are [None] when absent. *)
Record WebSocketMessage := {
  msg_type : MessageType;
  msg_tiles : option (list TileMetadata);
  msg_tile : option TileMetadata;
  msg_titilerUrl : option string
}.

Record Position := { lon : float; lat : float }.

Record DroneState := {
  position : option Position;
  isScanning : bool;
  targetTile : option TileMetadata
}.

(** The callbacks the hook hands to [setTimeout]: the end of a scan, the
    end of the settle delay after it, and the reconnection attempt. *)
Inductive Callback :=
| ScanComplete (tile : TileMetadata)
| Settle
| Reconnect.

Record Timer := { due : nat; callback : Callback }.

(** The hook's state and refs, the pending timers, the clock in
    milliseconds, and a history of every [setDroneState] call with the
    time it was made. *)
Record State := {
  tiles : JsMap.t TileMetadata;
  visibleTiles : JsMap.t TileMetadata;
  isConnected : bool;
  titilerUrl : string;
  droneState : DroneState;
  pendingTiles : list TileMetadata;
  processing : bool;
  timers : list Timer;
  now : nat;
  droneLog : list (nat * DroneState)
}.

(** The center of a tile: [bbox] is read as [lat, lon, lat, lon]. *)
Definition centerLon (tile : TileMetadata) : float :=
  ((bbox_at (bbox tile) 1 + bbox_at (bbox tile) 3) / 2)%float.

Definition centerLat (tile : TileMetadata) : float :=
  ((bbox_at (bbox tile) 0 + bbox_at (bbox tile) 2) / 2)%float.

Definition center (tile : TileMetadata) : Position :=
  {| lon := centerLon tile; lat := centerLat tile |}.

(** The comparator of the snapshot sort and the stable sort it drives. *)
Definition compareTiles (a b : TileMetadata) : Z :=
  if negb (Z.eqb (row a) (row b)) then row a - row b else col a - col b.

Fixpoint insert_tile (x : TileMetadata) (l : list TileMetadata)
  : list TileMetadata :=
  match l with
  | [] => [x]
  | y :: l' =>
      if (compareTiles x y <=? 0)%Z then x :: y :: l' else y :: insert_tile x l'
  end.

Definition sort_tiles (l : list TileMetadata) : list TileMetadata :=
  fold_right insert_tile [] l.

(** [new Map(sorted.map(tile => [tile.id, tile]))] *)
Definition map_of_tiles (l : list TileMetadata) : JsMap.t TileMetadata :=
  JsMap.of_entries (map (fun tile => (id tile, tile)) l).

Section WithEnvironment.

(** [VITE_SCANNING_DURATION] and [VITE_TITILER_URL], or their
    defaults 2000 and "http://localhost:8000". *)
Variable SCANNING_DURATION : nat.
Variable DEFAULT_TITILER_URL : string.

Definition init : State := {|
  tiles := JsMap.empty;
  visibleTiles := JsMap.empty;
  isConnected := false;
  titilerUrl := DEFAULT_TITILER_URL;
  droneState := {| position := None; isScanning := false; targetTile := None |};
  pendingTiles := [];
  processing := false;
  timers := [];
  now := 0;
  droneLog := []
|}.

Definition setTiles (f : JsMap.t TileMetadata -> JsMap.t TileMetadata)
           (s : State) : State :=
  {| tiles := f (tiles s); visibleTiles := visibleTiles s;
     isConnected := isConnected s; titilerUrl := titilerUrl s;
     droneState := droneState s; pendingTiles := pendingTiles s;
     processing := processing s; timers := timers s; now := now s;
     droneLog := droneLog s |}.

Definition setVisibleTiles (f : JsMap.t TileMetadata -> JsMap.t TileMetadata)
           (s : State) : State :=
  {| tiles := tiles s; visibleTiles := f (visibleTiles s);
     isConnected := isConnected s; titilerUrl := titilerUrl s;
     droneState := droneState s; pendingTiles := pendingTiles s;
     processing := processing s; timers := timers s; now := now s;
     droneLog := droneLog s |}.

Definition setIsConnected (b : bool) (s : State) : State :=
  {| tiles := tiles s; visibleTiles := visibleTiles s;
     isConnected := b; titilerUrl := titilerUrl s;
     droneState := droneState s; pendingTiles := pendingTiles s;
     processing := processing s; timers := timers s; now := now s;
     droneLog := droneLog s |}.

Definition setTitilerUrl (u : string) (s : State) : State :=
  {| tiles := tiles s; visibleTiles := visibleTiles s;
     isConnected := isConnected s; titilerUrl := u;
     droneState := droneState s; pendingTiles := pendingTiles s;
     processing := processing s; timers := timers s; now := now s;
     droneLog := droneLog s |}.

Definition setDroneState (f : DroneState -> DroneState) (s : State) : State :=
  {| tiles := tiles s; visibleTiles := visibleTiles s;
     isConnected := isConnected s; titilerUrl := titilerUrl s;
     droneState := f (droneState s); pendingTiles := pendingTiles s;
     processing := processing s; timers := timers s; now := now s;
     droneLog := droneLog s ++ [(now s, f (droneState s))] |}.

Definition setPending (q : list TileMetadata) (s : State) : State :=
  {| tiles := tiles s; visibleTiles := visibleTiles s;
     isConnected := isConnected s; titilerUrl := titilerUrl s;
     droneState := droneState s; pendingTiles := q;
     processing := processing s; timers := timers s; now := now s;
     droneLog := droneLog s |}.

Definition setProcessing (b : bool) (s : State) : State :=
  {| tiles := tiles s; visibleTiles := visibleTiles s;
     isConnected := isConnected s; titilerUrl := titilerUrl s;
     droneState := droneState s; pendingTiles := pendingTiles s;
     processing := b; timers := timers s; now := now s;
     droneLog := droneLog s |}.

Definition setTimers (ts : list Timer) (s : State) : State :=
  {| tiles := tiles s; visibleTiles := visibleTiles s;
     isConnected := isConnected s; titilerUrl := titilerUrl s;
     droneState := droneState s; pendingTiles := pendingTiles s;
     processing := processing s; timers := ts; now := now s;
     droneLog := droneLog s |}.

Definition setNow (n : nat) (s : State) : State :=
  {| tiles := tiles s; visibleTiles := visibleTiles s;
     isConnected := isConnected s; titilerUrl := titilerUrl s;
     droneState := droneState s; pendingTiles := pendingTiles s;
     processing := processing s; timers := timers s; now := n;
     droneLog := droneLog s |}.

(** [setTimeout(cb, delay)] *)
Definition setTimeout (cb : Callback) (delay : nat) (s : State) : State :=
  setTimers (timers s ++ [{| due := now s + delay; callback := cb |}]) s.

(** [processNextTile()] up to its first [setTimeout]. *)
Definition processNextTile (s : State) : State :=
  if processing s || Nat.eqb (length (pendingTiles s)) 0 then s
  else
    match pendingTiles s with
    | [] => s
    | tile :: rest =>
        let s1 := setPending rest (setProcessing true s) in
        let s2 := setDroneState
                    (fun _ => {| position := Some (center tile);
                                 isScanning := true;
                                 targetTile := Some tile |}) s1 in
        setTimeout (ScanComplete tile) SCANNING_DURATION s2
    end.

(** The callback that runs [SCANNING_DURATION] after a scan began. *)
Definition scanComplete (tile : TileMetadata) (s : State) : State :=
  let s1 := setVisibleTiles (JsMap.set (id tile) tile) s in
  let s2 := setDroneState
              (fun prev => {| position := position prev;
                              isScanning := false;
                              targetTile := targetTile prev |}) s1 in
  setTimeout Settle 300 s2.

(** The callback that runs 300 ms later. *)
Definition settle (s : State) : State :=
  processNextTile (setProcessing false s).

(** [ws.onmessage] on a parsed message. *)
Definition onmessage (message : WebSocketMessage) (s : State) : State :=
  match msg_type message with
  | initial =>
      let s1 := match msg_titilerUrl message with
                | Some u => if negb (String.eqb u "") then setTitilerUrl u s else s
                | None => s
                end in
      match msg_tiles message with
      | Some ts =>
          if Nat.ltb 0 (length ts) then
            let sorted := sort_tiles ts in
            let s2 := setTiles (fun _ => map_of_tiles sorted) s1 in
            let s3 := setVisibleTiles (fun _ => map_of_tiles sorted) s2 in
            match last (map Some sorted) None with
            | Some lastTile =>
                setDroneState
                  (fun _ => {| position := Some (center lastTile);
                               isScanning := false;
                               targetTile := Some lastTile |}) s3
            | None => s3
            end
          else s1
      | None => s1
      end
  | new_tile =>
      match msg_tile message with
      | Some t =>
          let s1 := setTiles (JsMap.set (id t) t) s in
          let s2 := setPending (pendingTiles s1 ++ [t]) s1 in
          processNextTile s2
      | None => s
      end
  end.

(** [ws.onopen] and [ws.onclose] *)
Definition onopen (s : State) : State := setIsConnected true s.

Definition onclose (s : State) : State :=
  setTimeout Reconnect 2000 (setIsConnected false s).

(** The timer that fires next: the earliest due, the oldest among
    equals. *)
Fixpoint next_timer (ts : list Timer) : option (Timer * list Timer) :=
  match ts with
  | [] => None
  | t :: rest =>
      match next_timer rest with
      | None => Some (t, [])
      | Some (m, rest') =>
          if Nat.leb (due t) (due m) then Some (t, rest) else Some (m, t :: rest')
      end
  end.

(** [connect()] only builds a socket and installs the handlers above;
    it changes none of the fields of [State]. *)
Definition run_callback (cb : Callback) (s : State) : State :=
  match cb with
  | ScanComplete tile => scanComplete tile s
  | Settle => settle s
  | Reconnect => s
  end.

(** One turn of the UI thread. A message or a close arrives [dt] ms
    after the previous turn; a timer runs no earlier than it is due,
    [late] ms after that. *)
Inductive Event :=
| Opened
| Received (dt : nat) (message : WebSocketMessage)
| Closed (dt : nat)
| TimerFires (late : nat).

Definition step (s : State) (e : Event) : State :=
  match e with
  | Opened => onopen s
  | Received dt message => onmessage message (setNow (now s + dt) s)
  | Closed dt => onclose (setNow (now s + dt) s)
  | TimerFires late =>
      match next_timer (timers s) with
      | None => s
      | Some (t, rest) =>
          run_callback (callback t)
            (setNow (Nat.max (now s) (due t) + late) (setTimers rest s))
      end
  end.

Definition run (evs : list Event) (s : State) : State :=
  fold_left step evs s.

End WithEnvironment.

(** The two message shapes. *)
Definition snapshot (ts : option (list TileMetadata)) (u : option string)
  : WebSocketMessage :=
  {| msg_type := initial; msg_tiles := ts; msg_tile := None;
     msg_titilerUrl := u |}.

Definition change (t : TileMetadata) : WebSocketMessage :=
  {| msg_type := new_tile; msg_tiles := None; msg_tile := Some t;
     msg_titilerUrl := None |}.

End Client.

(* ===================================================================== *)
(** ** The animation queue seen from outside                             *)
(* ===================================================================== *)

Module Queue.

Import Client.

(** A schedule of the UI thread: tiles arrive as ['new_tile'] messages
    and timers fire, in any interleaving. *)
Inductive Turn :=
| Arrive (dt : nat) (tile : TileMetadata)
| Fire (late : nat).

Definition event_of (t : Turn) : Event :=
  match t with
  | Arrive dt tile => Received dt (change tile)
  | Fire late => TimerFires late
  end.

Definition arrivals (sch : list Turn) : list TileMetadata :=
  flat_map (fun t => match t with Arrive _ tile => [tile] | Fire _ => [] end) sch.

(** The two drone states of a tile's cycle. *)
Definition scanning (t : TileMetadata) : DroneState :=
  {| position := Some (center t); isScanning := true; targetTile := Some t |}.

Definition parked (t : TileMetadata) : DroneState :=
  {| position := Some (center t); isScanning := false; targetTile := Some t |}.

Definition cycle (t : TileMetadata) : list DroneState := [scanning t; parked t].

(** The times at which a scan began, and lists of times that are at
    least [d] apart. *)
Definition scan_starts (log : list (nat * DroneState)) : list nat :=
  map fst (filter (fun e => isScanning (snd e)) log).

Fixpoint spaced (d : nat) (l : list nat) : Prop :=
  match l with
  | a :: (b :: _) as tl => a + d <= b /\ spaced d tl
  | _ => True
  end.

Section WithEnvironment.

Variable SCANNING_DURATION : nat.

Local Abbreviation step := (step SCANNING_DURATION).

Definition play (sch : list Turn) (s : State) : State :=
  run SCANNING_DURATION (map event_of sch) s.

(** Let every pending timer fire, on time, until none is left. *)
Fixpoint drain (fuel : nat) (s : State) : State :=
  match fuel with
  | 0 => s
  | S fuel' =>
      match timers s with
      | [] => s
      | _ :: _ => drain fuel' (step s (TimerFires 0))
      end
  end.

Definition settle_all (s : State) : State :=
  drain (2 * S (length (pendingTiles s))) s.

Definition full_cycle : nat := SCANNING_DURATION + 300.

(** Where the queue is in a tile's cycle. *)
Inductive phase (starts : list nat) (s : State) : Prop :=
| Idle :
    processing s = false -> timers s = [] -> pendingTiles s = [] ->
    isScanning (droneState s) = false ->
    Forall (fun T => T + full_cycle <= now s) starts ->
    phase starts s
| Scanning (t : TileMetadata) (d : nat) :
    processing s = true ->
    timers s = [{| due := d; callback := ScanComplete t |}] ->
    droneState s = scanning t ->
    Forall (fun T => T + SCANNING_DURATION <= d) starts ->
    phase starts s
| Settling (d : nat) :
    processing s = true ->
    timers s = [{| due := d; callback := Settle |}] ->
    isScanning (droneState s) = false ->
    Forall (fun T => T + full_cycle <= d) starts ->
    phase starts s.

(** The drone states still to come from what is scanning and queued. *)
Definition future (s : State) : list DroneState :=
  match timers s with
  | [tm] => match callback tm with
            | ScanComplete t => [parked t]
            | _ => []
            end
  | _ => []
  end ++ flat_map cycle (pendingTiles s).

Record Inv (arrived : list TileMetadata) (s : State) : Prop := {
  inv_spaced : spaced full_cycle (scan_starts (droneLog s));
  inv_log : map snd (droneLog s) ++ future s = flat_map cycle arrived;
  inv_phase : phase (scan_starts (droneLog s)) s
}.

(** The timer firings still needed to empty the queue. *)
Definition work (s : State) : nat :=
  2 * length (pendingTiles s) +
  match timers s with
  | [tm] => match callback tm with
            | ScanComplete _ => 2
            | Settle => 1
            | Reconnect => 0
            end
  | _ => 0
  end.

End WithEnvironment.

End Queue.

(* ===================================================================== *)
(** ** Concrete tiles, disks and sidecars                                *)
(* ===================================================================== *)

Module Examples.

Import Json Server Client.

Definition tile_at (r c : Z) (name : string) : TileMetadata := {|
  id := name;
  filename := name ++ ".tif";
  row := r;
  col := c;
  bounds := {| min_lon := 17.08; min_lat := 32.99;
               max_lon := 17.18; max_lat := 33.10 |};
  bbox := (32.99, 17.08, 33.10, 17.18)%float;
  width := 1097;
  height := 1104;
  tileUrl := "http://localhost:8000/cog/tiles/{z}/{x}/{y}";
  tilejsonUrl := "http://localhost:8000/cog/tilejson.json";
  timestamp := 0
|}.

Definition tile_A := tile_at 0 0 "tile_0_0".
Definition tile_B := tile_at 0 1 "tile_0_1".
Definition tile_C := tile_at 0 2 "tile_0_2".

Definition url0 := "http://localhost:8000".

(** *** One tile on a small disk *)

Definition sidecar_path : string := "/data/tiles/tile_0_0.json".
Definition raster_path : string := "/data/tiles/tile_0_0.tif".
Definition sidecar_text : string := "tile_0_0 metadata".

Definition sidecar_value : value :=
  JObj [("filename", JStr "tile_0_0.tif");
        ("row", JNum 0);
        ("col", JNum 0);
        ("bbox", JArr [JNum 32.99; JNum 17.08; JNum 33.10; JNum 17.18]);
        ("width", JNum 1097);
        ("height", JNum 1104)].

(** A parser that knows the one well-formed sidecar text of the
    examples and throws on anything else. *)
Definition parse_known (content : string) : option value :=
  if String.eqb content sidecar_text then Some sidecar_value else None.

(** A disk that holds the sidecar with the given text and, when
    [with_raster], the raster next to it. *)
Definition disk (with_raster : bool) (text : string) : FileSystem := {|
  existsSync := fun p =>
    String.eqb p sidecar_path || (with_raster && String.eqb p raster_path);
  readFileSync := fun p =>
    if String.eqb p sidecar_path then Some text else None
|}.

End Examples.

(* ===================================================================== *)
(** ** The rest of [server.js]: start-up scan and read-only endpoints    *)
(* ===================================================================== *)

Module ServerApi.

Import Json Server.

Section WithEnvironment.

Variable cfg : Config.
Variable JSON_parse : string -> option value.

(** The scan at the head of [initializeWatcher]. [files] is what
    [fs.readdirSync(TILES_DIR)] returns and [now_at file] what
    [Date.now()] reads while [file] is processed; the disk does not change
    during the scan, which is synchronous. *)
Definition startupScan (fs : FileSystem) (files : list string)
           (now_at : string -> float) (s : State) : State :=
  if existsSync fs (TILES_DIR cfg) then
    fold_left
      (fun st file =>
         processNewTile cfg JSON_parse fs (now_at file)
                        (Path.join (TILES_DIR cfg) file) st)
      (filter (fun f => Path.endsWith f ".json") files) s
  else s.

(** [GET /api/tiles] *)
Record TilesResponse := {
  count : nat;
  tiles : list object;
  titilerUrl : string
}.

Definition get_tiles (s : State) : State * TilesResponse :=
  let tiles := JsMap.values (tilesMetadata s) in
  (s, {| count := length tiles; tiles := tiles; titilerUrl := TITILER_URL cfg |}).

(** [GET /health]; [uptime] is what [process.uptime()] returns. *)
Record HealthResponse := {
  health_status : string;
  tilesCount : nat;
  uptime : float
}.

Definition get_health (uptime : float) (s : State) : State * HealthResponse :=
  (s, {| health_status := "ok";
         tilesCount := JsMap.size (tilesMetadata s);
         uptime := uptime |}).

(** The records that a list of events registers, in order: one for every
    watcher event that [processNewTile] accepts. *)
Definition registration_of (e : Event) : list object :=
  match e with
  | Watch (WAdd filePath) fs now | Watch (WChange filePath) fs now =>
      if accepts JSON_parse fs filePath
      then [recordOf cfg JSON_parse fs now filePath]
      else []
  | _ => []
  end.

Definition registrations (evs : list Event) : list object :=
  flat_map registration_of evs.

(** An event that neither takes [ws] out of the client set, nor makes
    it other than [OPEN], nor connects it again. *)
Definition keeps_open (ws : WebSocket) (e : Event) : bool :=
  match e with
  | Connection w => negb (Nat.eqb w ws)
  | Close w => negb (Nat.eqb w ws)
  | SocketError w => negb (Nat.eqb w ws)
  | SocketState w r => negb (Nat.eqb w ws) || is_open r
  | Watch _ _ _ => true
  | GetTile _ => true
  end.

(** What every stored record looks like. *)
Definition enriched (k : string) (tile : object) : Prop :=
  JsMap.get "id" tile = Some (JStr k)
  /\ JsMap.get "tileUrl" tile
     = Some (JStr (TITILER_PUBLIC_URL cfg ++
                   "/cog/tiles/WebMercatorQuad/{z}/{x}/{y}?url=/data/" ++
                   k ++ ".tif"))
  /\ JsMap.get "tilejsonUrl" tile
     = Some (JStr (TITILER_PUBLIC_URL cfg ++
                   "/cog/tilejson.json?url=/data/" ++ k ++ ".tif"))
  /\ exists now, JsMap.get "timestamp" tile = Some (JNum now).

Definition all_enriched (m : JsMap.t object) : Prop :=
  Forall (fun e => enriched (fst e) (snd e)) m.

End WithEnvironment.

End ServerApi.

(* ===================================================================== *)
(** ** What the hook returns, and the components that consume it         *)
(* ===================================================================== *)

Module HookView.

Import Client.

(** The object [useTileWebSocket] returns on a render. *)
Record Result := {
  r_tiles : list TileMetadata;
  r_visibleTiles : list TileMetadata;
  r_isConnected : bool;
  r_titilerUrl : string;
  r_droneState : DroneState;
  tileCount : nat;
  visibleTileCount : nat
}.

Definition result (s : State) : Result := {|
  r_tiles := JsMap.values (tiles s);
  r_visibleTiles := JsMap.values (visibleTiles s);
  r_isConnected := isConnected s;
  r_titilerUrl := titilerUrl s;
  r_droneState := droneState s;
  tileCount := JsMap.size (tiles s);
  visibleTileCount := JsMap.size (visibleTiles s)
|}.

(** An event that is not a snapshot carrying tiles. *)
Definition no_snapshot (e : Event) : bool :=
  match e with
  | Received _ message =>
      match msg_type message, msg_tiles message with
      | initial, Some (_ :: _) => false
      | _, _ => true
      end
  | _ => true
  end.

(** The tile an event brings, if any. *)
Definition arrival_of (e : Event) : list TileMetadata :=
  match e with
  | Received _ message =>
      match msg_type message, msg_tile message with
      | new_tile, Some t => [t]
      | _, _ => []
      end
  | _ => []
  end.

(** The position of a tile in the grid, compared row first. *)
Definition grid_le (a b : TileMetadata) : Prop :=
  (row a < row b \/ (row a = row b /\ col a <= col b))%Z.

(** What waits for its reveal: the queue and the scans under way. *)
Definition scans_under_way (ts : list Timer) : list TileMetadata :=
  flat_map (fun tm => match callback tm with
                      | ScanComplete t => [t]
                      | _ => []
                      end) ts.

Definition awaiting (s : State) : list TileMetadata :=
  scans_under_way (timers s) ++ pendingTiles s.

(** The tiles a revealed tile can only come from are known. *)
Record Known (s : State) : Prop := {
  known_tiles_nodup : NoDup (JsMap.keys (tiles s));
  known_visible_nodup : NoDup (JsMap.keys (visibleTiles s));
  known_visible : incl (JsMap.keys (visibleTiles s)) (JsMap.keys (tiles s));
  known_awaiting : incl (map id (awaiting s)) (JsMap.keys (tiles s))
}.

(** Every arrived id is revealed or awaits its reveal, and nothing is
    known that did not arrive. *)
Definition accounted (arrived : list TileMetadata) (s : State) : Prop :=
  incl (map id arrived)
       (JsMap.keys (visibleTiles s) ++ map id (awaiting s))
  /\ incl (JsMap.keys (tiles s)) (map id arrived).

End HookView.

Module DroneLayer.

Import Client.

(** The options of a [TileLayer] that depend on the tile. [opacity] is
    the value given at construction; the fade-in interval that follows
    only raises it. *)
Record TileLayer := {
  extent : BBox;
  url : string;
  opacity : float;
  zIndex : Z
}.

(** [layersRef.current], [processedCountRef.current] and the layers
    handed to [map.addLayer], oldest first. *)
Record State := {
  layers : JsMap.t TileLayer;
  processedCount : nat;
  added : list TileLayer
}.

Definition init : State :=
  {| layers := JsMap.empty; processedCount := 0; added := [] |}.

(** The array the effect hands to [transformExtent]:
    [[minLon, minLat, maxLon, maxLat]]. *)
Definition lonLatExtent (tile : TileMetadata) : BBox :=
  (bbox_at (bbox tile) 1, bbox_at (bbox tile) 0,
   bbox_at (bbox tile) 3, bbox_at (bbox tile) 2).

Definition zIndexOf (tile : TileMetadata) : Z :=
  (10 + row tile * 10 + col tile)%Z.

(** A tile of the 10 x 10 grid the tiles are cut from: row and column
    between 0 and 9. *)
Definition in_grid (tile : TileMetadata) : Prop :=
  (0 <= row tile <= 9 /\ 0 <= col tile <= 9)%Z.

Section WithEnvironment.

(** [transformExtent(_, 'EPSG:4326', 'EPSG:3857')] of OpenLayers. *)
Variable transformExtent : BBox -> BBox.

Definition layerOf (titilerUrl : string) (tile : TileMetadata) : TileLayer := {|
  extent := transformExtent (lonLatExtent tile);
  url := titilerUrl ++ "/cog/tiles/{z}/{x}/{y}?url=/data/" ++ filename tile;
  opacity := 0;
  zIndex := zIndexOf tile
|}.

(** The body of [newTiles.forEach]. *)
Definition addTile (titilerUrl : string) (st : State) (tile : TileMetadata)
  : State :=
  if JsMap.has (id tile) (layers st) then st
  else
    let tileLayer := layerOf titilerUrl tile in
    {| layers := JsMap.set (id tile) tileLayer (layers st);
       processedCount := processedCount st;
       added := added st ++ [tileLayer] |}.

(** The effect that adds new tiles to the map; [has_map] is whether the
    map context is set. *)
Definition effect (has_map : bool) (titilerUrl : string)
           (tiles : list TileMetadata) (st : State) : State :=
  if negb has_map then st
  else
    let newTiles := skipn (processedCount st) tiles in
    let st' := fold_left (addTile titilerUrl) newTiles st in
    {| layers := layers st';
       processedCount := length tiles;
       added := added st' |}.

(** The hook and the layer component side by side: after every turn of
    the hook the component renders with the hook's [visibleTiles] and
    [titilerUrl] and its effect runs. *)
Definition render (scan : nat) (p : Client.State * State) (e : Event)
  : Client.State * State :=
  let s' := Client.step scan (fst p) e in
  (s', effect true (titilerUrl s') (JsMap.values (visibleTiles s')) (snd p)).

Definition render_all (scan : nat) (evs : list Event)
           (p : Client.State * State) : Client.State * State :=
  fold_left (render scan) evs p.

End WithEnvironment.

(** The layers follow the revealed tiles: same ids in the same order,
    one layer handed to the map for each, and all of them counted as
    processed. *)
Record mirrors (s : Client.State) (st : State) : Prop := {
  mirrors_keys : JsMap.keys (layers st) = JsMap.keys (visibleTiles s);
  mirrors_count : processedCount st = JsMap.size (visibleTiles s);
  mirrors_added : length (added st) = JsMap.size (visibleTiles s);
  mirrors_keyed : Forall (fun e => fst e = id (snd e)) (visibleTiles s);
  mirrors_nodup : NoDup (JsMap.keys (visibleTiles s))
}.

End DroneLayer.

Module DroneIcon.

(** The updater of the scan-radius interval:
    [prev => prev >= 80 ? 10 : prev + 3]. *)
Definition nextRadius (prev : Z) : Z :=
  if (prev >=? 80)%Z then 10%Z else (prev + 3)%Z.

(** The radius after [n] ticks of the interval, from the initial 10. *)
Fixpoint radiusAfter (n : nat) : Z :=
  match n with
  | 0 => 10%Z
  | S n' => nextRadius (radiusAfter n')
  end.

(** The [zIndex] of the vector layer that carries the drone. *)
Definition droneZIndex : Z := 1000.

End DroneIcon.

(* ===================================================================== *)
(** ** Sessions with connection loss, and the fade-in of a layer         *)
(* ===================================================================== *)

Module Session.

Import Client Queue.

(** A session of the hook: tiles arrive, timers fire, the socket closes
    and opens again, and a new connection is answered with a snapshot
    that holds no tiles. *)
Inductive Turn :=
| TileArrives (dt : nat) (tile : TileMetadata)
| TimerRuns (late : nat)
| SocketCloses (dt : nat)
| SocketOpens
| EmptySnapshot (dt : nat) (u : option string).

Definition session_event (t : Turn) : Event :=
  match t with
  | TileArrives dt tile => Received dt (change tile)
  | TimerRuns late => TimerFires late
  | SocketCloses dt => Closed dt
  | SocketOpens => Opened
  | EmptySnapshot dt u => Received dt (snapshot (Some []) u)
  end.

Definition tiles_of (sch : list Turn) : list TileMetadata :=
  flat_map (fun t => match t with TileArrives _ tile => [tile] | _ => [] end) sch.

(** The timers of the scanning animation, as opposed to the reconnect
    timer of [ws.onclose]. *)
Definition is_animation (tm : Timer) : bool :=
  match callback tm with
  | Reconnect => false
  | _ => true
  end.

Definition is_reconnect (tm : Timer) : bool := negb (is_animation tm).

(** The state as the animation sees it: without the reconnect timers. *)
Definition animation (s : State) : State :=
  setTimers (filter is_animation (timers s)) s.

Definition reconnects (s : State) : nat :=
  length (filter is_reconnect (timers s)).

(** The timer firings still needed before no timer is pending. *)
Definition effort (s : State) : nat := work (animation s) + reconnects s.

(** Position and target of the drone belong together: the position is
    the center of the target tile, and without a target there is no
    position and no scan. *)
Definition paired (d : DroneState) : Prop :=
  match targetTile d with
  | Some t => position d = Some (center t)
  | None => position d = None /\ isScanning d = false
  end.

Definition well_paired (s : State) : Prop :=
  paired (droneState s) /\ Forall (fun e => paired (snd e)) (droneLog s).

(** Where the animation is, in any state of the hook. *)
Inductive stage (s : State) : Prop :=
| Resting :
    processing s = false ->
    filter is_animation (timers s) = [] ->
    pendingTiles s = [] ->
    isScanning (droneState s) = false ->
    stage s
| Busy (t : TileMetadata) (d : nat) :
    processing s = true ->
    filter is_animation (timers s) = [{| due := d; callback := ScanComplete t |}] ->
    (isScanning (droneState s) = true -> targetTile (droneState s) = Some t) ->
    stage s
| Pausing (d : nat) :
    processing s = true ->
    filter is_animation (timers s) = [{| due := d; callback := Settle |}] ->
    isScanning (droneState s) = false ->
    stage s.

Section WithEnvironment.

Variable SCANNING_DURATION : nat.

Definition play_session (sch : list Turn) (s : State) : State :=
  run SCANNING_DURATION (map session_event sch) s.

(** Let every pending timer fire, on time, reconnect timers included. *)
Definition quiesce (s : State) : State :=
  drain SCANNING_DURATION
    (length (timers s) + 2 * S (length (pendingTiles s))) s.

End WithEnvironment.

End Session.

Module FadeIn.

(** The closure of one layer's fade-in: the variable [opacity], whether
    the interval is still set, and the values handed to
    [tileLayer.setOpacity], oldest first. *)
Record State := {
  opacity : float;
  running : bool;
  shown : list float
}.

Definition start : State := {| opacity := 0; running := true; shown := [] |}.

(** One run of the interval's callback; a cleared interval runs no
    more. *)
Definition tick (s : State) : State :=
  if running s then
    let opacity1 := (opacity s + 0.1)%float in
    if (1.0 <=? opacity1)%float then
      {| opacity := 1.0; running := false; shown := shown s ++ [1.0%float] |}
    else
      {| opacity := opacity1; running := true; shown := shown s ++ [opacity1] |}
  else s.

Definition after (n : nat) : State := Nat.iter n tick start.

End FadeIn.

Module ScanExamples.

Import Json Server Examples.

(** The disk of [Examples.disk] with the tiles directory itself. *)
Definition tiles_disk : FileSystem := {|
  existsSync := fun p =>
    String.eqb p "/data/tiles" || existsSync (disk true sidecar_text) p;
  readFileSync := readFileSync (disk true sidecar_text)
|}.

Definition listing : list string := ["tile_0_0.json"; "tile_0_0.tif"].

(** The tile east of [tile_A], with the bounding box of its own. *)
Definition tile_east : Client.TileMetadata := {|
  Client.id := "tile_0_1";
  Client.filename := "tile_0_1.tif";
  Client.row := 0;
  Client.col := 1;
  Client.bounds := {| Client.min_lon := 17.18; Client.min_lat := 32.99;
                      Client.max_lon := 17.28; Client.max_lat := 33.10 |};
  Client.bbox := (32.99, 17.18, 33.10, 17.28)%float;
  Client.width := 1097;
  Client.height := 1104;
  Client.tileUrl := "http://localhost:8000/cog/tiles/{z}/{x}/{y}";
  Client.tilejsonUrl := "http://localhost:8000/cog/tilejson.json";
  Client.timestamp := 0
|}.

End ScanExamples.

(* ===================================================================== *)
(** * Properties                                                         *)
(* ===================================================================== *)

(** ** Facts about the insertion-ordered map *)

Module JsMapFacts.

Import JsMap.

Section WithValue.
Variable V : Type.

Lemma get_set_eq k v (m : t V) : get k (set k v m) = Some v.
Proof.
  induction m as [|[k' v'] m IH]; simpl.
  - now rewrite String.eqb_refl.
  - destruct (String.eqb k k') eqn:E; simpl.
    + now rewrite String.eqb_refl.
    + now rewrite E.
Qed.

Lemma get_set_ne k k' v (m : t V) : k <> k' -> get k' (set k v m) = get k' m.
Proof.
  intros Hne. induction m as [|[k0 v0] m IH]; simpl.
  - destruct (String.eqb k' k) eqn:E; [|reflexivity].
    apply String.eqb_eq in E. congruence.
  - destruct (String.eqb k k0) eqn:E; simpl.
    + apply String.eqb_eq in E. subst k0.
      destruct (String.eqb k' k) eqn:E'; [|reflexivity].
      apply String.eqb_eq in E'. congruence.
    + now rewrite IH.
Qed.

Lemma get_None_keys k (m : t V) : get k m = None <-> ~ In k (keys m).
Proof.
  induction m as [|[k' v'] m IH]; simpl.
  - tauto.
  - destruct (String.eqb k k') eqn:E.
    + apply String.eqb_eq in E. subst. split; [discriminate | tauto].
    + apply String.eqb_neq in E. rewrite IH. split.
      * intros H [H1|H1]; [congruence | tauto].
      * tauto.
Qed.

Lemma get_Some_In k v (m : t V) : get k m = Some v -> In (k, v) m.
Proof.
  induction m as [|[k' v'] m IH]; simpl; [discriminate|].
  destruct (String.eqb k k') eqn:E.
  - apply String.eqb_eq in E. intros [= ->]. subst. now left.
  - intros H. right. now apply IH.
Qed.

(** Overwriting a present key changes neither the keys nor their order. *)
Lemma keys_set_present k v (m : t V) :
  In k (keys m) -> keys (set k v m) = keys m.
Proof.
  induction m as [|[k' v'] m IH]; simpl; [tauto|].
  intros H. destruct (String.eqb k k') eqn:E; simpl.
  - apply String.eqb_eq in E. now subst.
  - apply String.eqb_neq in E. f_equal. apply IH.
    destruct H as [H|H]; [congruence | exact H].
Qed.

(** A new key goes to the end. *)
Lemma set_absent k v (m : t V) :
  ~ In k (keys m) -> set k v m = m ++ [(k, v)].
Proof.
  induction m as [|[k' v'] m IH]; simpl; [reflexivity|].
  intros H. destruct (String.eqb k k') eqn:E.
  - apply String.eqb_eq in E. subst. tauto.
  - f_equal. apply IH. tauto.
Qed.

Lemma size_set_present k v (m : t V) :
  In k (keys m) -> size (set k v m) = size m.
Proof.
  intros H. unfold size.
  rewrite <- (length_map fst (set k v m)), <- (length_map fst m).
  fold (keys (set k v m)) (keys m). now rewrite keys_set_present.
Qed.

Lemma size_set_absent k v (m : t V) :
  ~ In k (keys m) -> size (set k v m) = S (size m).
Proof.
  intros H. rewrite set_absent by exact H. unfold size.
  rewrite length_app. simpl. lia.
Qed.

Lemma In_keys_set k k' v (m : t V) :
  In k' (keys (set k v m)) <-> k' = k \/ In k' (keys m).
Proof.
  induction m as [|[k0 v0] m IH]; simpl.
  - intuition congruence.
  - destruct (String.eqb k k0) eqn:E; simpl.
    + apply String.eqb_eq in E. subst. intuition congruence.
    + rewrite IH. intuition congruence.
Qed.

Lemma NoDup_keys_set k v (m : t V) : NoDup (keys m) -> NoDup (keys (set k v m)).
Proof.
  induction m as [|[k0 v0] m IH]; simpl; intros H.
  - constructor; [simpl; tauto | constructor].
  - inversion H as [|? ? Hn Hd]; subst.
    destruct (String.eqb k k0) eqn:E; simpl.
    + apply String.eqb_eq in E. subst. now constructor.
    + apply String.eqb_neq in E. constructor; [|now apply IH].
      fold (keys (set k v m)). rewrite In_keys_set. intuition congruence.
Qed.

(** Every value stored by [set] is the new one or an old one. *)
Lemma In_set_inv k v e (m : t V) :
  In e (set k v m) -> e = (k, v) \/ In e m.
Proof.
  induction m as [|[k0 v0] m IH]; simpl.
  - intuition.
  - destruct (String.eqb k k0); simpl; intuition.
Qed.

Lemma NoDup_keys_of_entries (es : list (string * V)) : NoDup (keys (of_entries es)).
Proof.
  unfold of_entries.
  assert (G : forall m, NoDup (keys m) ->
            NoDup (keys (fold_left (fun m e => set (fst e) (snd e) m) es m))).
  { induction es as [|e es IH]; simpl; intros m Hm; [exact Hm|].
    apply IH. now apply NoDup_keys_set. }
  apply G. constructor.
Qed.

Lemma In_of_entries_inv (es : list (string * V)) e : In e (of_entries es) -> In e es.
Proof.
  unfold of_entries.
  assert (G : forall m, In e (fold_left (fun m e => set (fst e) (snd e) m) es m) ->
            In e m \/ In e es).
  { induction es as [|e0 es IH]; simpl; intros m H; [now left|].
    apply IH in H. destruct H as [H|H]; [|tauto].
    apply In_set_inv in H. destruct H as [H|H]; [|tauto].
    right. left. destruct e0; simpl in H. congruence. }
  intros H. apply G in H. destruct H as [[]|H]. exact H.
Qed.

Lemma keys_of_entries (es : list (string * V)) k :
  In k (keys (of_entries es)) <-> In k (map fst es).
Proof.
  unfold of_entries.
  assert (G : forall m, In k (keys (fold_left (fun m e => set (fst e) (snd e) m) es m)) <->
            In k (keys m) \/ In k (map fst es)).
  { induction es as [|e0 es IH]; simpl; intros m; [tauto|].
    rewrite IH, In_keys_set. intuition congruence. }
  rewrite G. simpl. tauto.
Qed.

(** With pairwise distinct keys, [new Map(entries)] keeps the entries as
    they are. *)
Lemma of_entries_NoDup (es : list (string * V)) : NoDup (map fst es) -> of_entries es = es.
Proof.
  unfold of_entries.
  assert (G : forall m, NoDup (keys m ++ map fst es) ->
            fold_left (fun m e => set (fst e) (snd e) m) es m = m ++ es).
  { induction es as [|[k v] es IH]; simpl; intros m H.
    - now rewrite app_nil_r.
    - rewrite set_absent.
      + rewrite IH.
        * now rewrite <- app_assoc.
        * unfold keys in *. rewrite map_app. simpl. now rewrite <- app_assoc.
      + apply NoDup_remove_2 in H. intros Hin. apply H.
        apply in_or_app. now left. }
  intros H. apply (G []). exact H.
Qed.

End WithValue.

End JsMapFacts.

(** ** Facts about the path helpers *)

Module PathFacts.

Import Path.

Example basename_ex : basename "/data/tiles/tile_0_0.json" = "tile_0_0.json".
Proof. reflexivity. Qed.

Example dirname_ex : dirname "/data/tiles/tile_0_0.json" = "/data/tiles".
Proof. reflexivity. Qed.

Example endsWith_ex :
  endsWith "tile_0_0.json" ".json" = true /\
  endsWith "tile_0_0.tif" ".json" = false.
Proof. split; reflexivity. Qed.

Example replace_ex :
  replace "tile_0_0.json" ".json" "" = "tile_0_0" /\
  replace "a.json.json" ".json" "" = "a.json".
Proof. split; reflexivity. Qed.

(** A raster file name is never taken for a sidecar. *)
Lemma tif_not_json (id : string) : endsWith (id ++ ".tif") ".json" = false.
Proof.
  induction id as [|c id IH].
  - reflexivity.
  - cbn [append endsWith]. rewrite IH, orb_false_r.
    apply String.eqb_neq. intros H. injection H as _ H.
    do 4 (destruct id as [|? id]; [discriminate H | injection H as _ H]).
    destruct id; discriminate H.
Qed.

End PathFacts.

(** ** The client: center of a tile *)

Module CenterFacts.

Import Client Examples.

(** Two floats that [PrimFloat.eqb] tells apart are different. *)
Lemma eqb_false_neq (x y : float) :
  PrimFloat.eqb x x = true -> PrimFloat.eqb x y = false -> x <> y.
Proof. intros Hx Hxy H. subst y. congruence. Qed.

(** C7. The center the client derives from a tile's [bbox] reads the
    array as [lat, lon, lat, lon]: for every tile, with [bbox] equal to
    [[b0, b1, b2, b3]], the longitude is [(b1 + b3) / 2] and the latitude
    [(b0 + b2) / 2], and that is the point [processNextTile] flies the
    drone to when it takes the tile from the queue. For the literal
    [bbox = [32.99, 17.08, 33.10, 17.18]] the center is [lon = 17.13],
    [lat = 33.045]; there neither coordinate is the mean of elements 0 and
    2 taken for the longitude (or 1 and 3 for the latitude), nor the mean
    of two neighbouring elements. *)
Theorem axis_normalization_center :
  forall (scan : nat) (s : State) (tile : TileMetadata) (b0 b1 b2 b3 : float),
    bbox tile = (b0, b1, b2, b3) ->
    centerLon tile = ((b1 + b3) / 2)%float
    /\ centerLat tile = ((b0 + b2) / 2)%float
    /\ center tile = {| lon := (b1 + b3) / 2; lat := (b0 + b2) / 2 |}
    /\ (forall rest,
          processing s = false ->
          pendingTiles s = tile :: rest ->
          droneState (processNextTile scan s)
          = {| position := Some {| lon := (b1 + b3) / 2; lat := (b0 + b2) / 2 |};
               isScanning := true;
               targetTile := Some tile |})
    /\ (processing s = false ->
        pendingTiles s = [] ->
        position (droneState (onmessage scan (change tile) s))
        = Some {| lon := (b1 + b3) / 2; lat := (b0 + b2) / 2 |})
    /\ ((b0, b1, b2, b3) = (32.99, 17.08, 33.10, 17.18)%float ->
        center tile = {| lon := 17.13; lat := 33.045 |}
        /\ centerLon tile = ((17.08 + 17.18) / 2)%float
        /\ centerLat tile = ((32.99 + 33.10) / 2)%float
        /\ centerLon tile <> ((32.99 + 33.10) / 2)%float
        /\ centerLat tile <> ((17.08 + 17.18) / 2)%float
        /\ centerLon tile <> ((32.99 + 17.08) / 2)%float
        /\ centerLat tile <> ((33.10 + 17.18) / 2)%float
        /\ (processing s = false ->
            pendingTiles s = [] ->
            position (droneState (onmessage scan (change tile) s))
            = Some {| lon := 17.13; lat := 33.045 |})).
Proof.
  intros scan s tile b0 b1 b2 b3 Hb.
  assert (Hlon : centerLon tile = ((b1 + b3) / 2)%float).
  { unfold centerLon. rewrite Hb. reflexivity. }
  assert (Hlat : centerLat tile = ((b0 + b2) / 2)%float).
  { unfold centerLat. rewrite Hb. reflexivity. }
  assert (Hc : center tile = {| lon := (b1 + b3) / 2; lat := (b0 + b2) / 2 |}).
  { unfold center. now rewrite Hlon, Hlat. }
  assert (Hfly : processing s = false -> pendingTiles s = [] ->
                 position (droneState (onmessage scan (change tile) s))
                 = Some (center tile)).
  { intros Hp Hq. destruct s as [tl vt ic tu ds pq pr tms nw lg].
    cbn [processing pendingTiles] in Hp, Hq. subst pr pq.
    cbv beta iota zeta delta
      [onmessage processNextTile change setPending setTiles setProcessing
       setDroneState setTimeout setTimers msg_type msg_tile
       tiles visibleTiles isConnected titilerUrl droneState pendingTiles
       processing timers now droneLog orb position].
    cbn [app length Nat.eqb]. reflexivity. }
  split; [exact Hlon|]. split; [exact Hlat|]. split; [exact Hc|].
  split.
  { intros rest Hp Hq. destruct s as [tl vt ic tu ds pq pr tms nw lg].
    cbn [processing pendingTiles] in Hp, Hq. subst pr pq.
    cbv beta iota zeta delta
      [processNextTile setPending setProcessing
       setDroneState setTimeout setTimers
       tiles visibleTiles isConnected titilerUrl droneState pendingTiles
       processing timers now droneLog orb].
    cbn [length Nat.eqb]. now rewrite Hc. }
  split.
  { intros Hp Hq. now rewrite (Hfly Hp Hq), Hc. }
  intros Hlit. injection Hlit as -> -> -> ->.
  assert (Hc' : center tile = {| lon := 17.13; lat := 33.045 |}).
  { rewrite Hc. reflexivity. }
  split; [exact Hc'|].
  rewrite Hlon, Hlat.
  repeat split; try (apply eqb_false_neq; reflexivity).
  intros Hp Hq. now rewrite (Hfly Hp Hq), Hc'.
Qed.

Lemma axis_normalization_center_witness :
  center tile_A = {| lon := 17.13; lat := 33.045 |}
  /\ position (droneState
                 (onmessage 2000 (change tile_A) (init "http://localhost:8000")))
     = Some {| lon := 17.13; lat := 33.045 |}
  /\ center ScanExamples.tile_east
     = {| lon := (17.18 + 17.28) / 2; lat := (32.99 + 33.10) / 2 |}.
Proof.
  destruct (@axis_normalization_center 2000 (init "http://localhost:8000")
              tile_A _ _ _ _ eq_refl) as (_ & _ & _ & _ & _ & H).
  destruct (H eq_refl) as (H1 & _ & _ & _ & _ & _ & _ & H2).
  destruct (@axis_normalization_center 2000 (init "http://localhost:8000")
              ScanExamples.tile_east _ _ _ _ eq_refl) as (_ & _ & H3 & _).
  split; [exact H1|]. split; [apply H2; reflexivity | exact H3].
Defined.

End CenterFacts.

(** ** The client: receiving a snapshot *)

Module SnapshotFacts.

Import Client Examples.

Lemma insert_tile_perm x l : Permutation (insert_tile x l) (x :: l).
Proof.
  induction l as [|y l IH]; simpl; [reflexivity|].
  destruct (compareTiles x y <=? 0)%Z; [reflexivity|].
  rewrite IH. apply perm_swap.
Qed.

Lemma sort_tiles_perm l : Permutation (sort_tiles l) l.
Proof.
  induction l as [|x l IH]; simpl; [reflexivity|].
  rewrite insert_tile_perm. now constructor.
Qed.

Lemma sort_tiles_nonempty l : l <> [] -> sort_tiles l <> [].
Proof.
  intros H E. apply H. apply Permutation_nil.
  rewrite <- E. apply sort_tiles_perm.
Qed.

Lemma last_map_Some (l : list TileMetadata) :
  l <> [] -> exists t, last (map Some l) None = Some t.
Proof.
  induction l as [|x l IH]; [congruence|]. intros _.
  destruct l as [|y l]; [now exists x|].
  destruct IH as [t Ht]; [discriminate|]. exists t. exact Ht.
Qed.

Lemma values_map_of_tiles_In l t :
  In t (JsMap.values (map_of_tiles l)) -> In t l.
Proof.
  unfold JsMap.values, map_of_tiles. intros H.
  apply in_map_iff in H. destruct H as [[k v] [E H]]. simpl in E. subst v.
  apply JsMapFacts.In_of_entries_inv in H.
  apply in_map_iff in H. destruct H as [t' [E H]]. now inversion E; subst.
Qed.

Lemma keys_map_of_tiles_In l t :
  In t l -> In (id t) (JsMap.keys (map_of_tiles l)).
Proof.
  intros H. unfold map_of_tiles. apply JsMapFacts.keys_of_entries.
  rewrite map_map. simpl. now apply in_map.
Qed.

Lemma map_of_tiles_NoDup l :
  NoDup (map id l) -> JsMap.values (map_of_tiles l) = l.
Proof.
  intros H. unfold map_of_tiles. rewrite JsMapFacts.of_entries_NoDup.
  - unfold JsMap.values. rewrite map_map. simpl. apply map_id.
  - rewrite map_map. exact H.
Qed.

Lemma last_of_map_Some (l : list TileMetadata) (d : TileMetadata) :
  l <> [] -> last (map Some l) None = Some (last l d).
Proof.
  induction l as [|x l IH]; [congruence|]. intros _.
  destruct l as [|y l]; [reflexivity|].
  change (last (map Some (x :: y :: l)) None)
    with (last (map Some (y :: l)) None).
  change (last (x :: y :: l) d) with (last (y :: l) d).
  apply IH. discriminate.
Qed.

(** What the ['initial'] branch does to every field when the array is
    not empty. *)
Lemma onmessage_snapshot_nonempty scan s ts u :
  ts <> [] ->
  let s' := onmessage scan (snapshot (Some ts) u) s in
  tiles s' = map_of_tiles (sort_tiles ts)
  /\ visibleTiles s' = map_of_tiles (sort_tiles ts)
  /\ (exists lastTile,
         last (map Some (sort_tiles ts)) None = Some lastTile
         /\ droneState s' = {| position := Some (center lastTile);
                               isScanning := false;
                               targetTile := Some lastTile |})
  /\ pendingTiles s' = pendingTiles s
  /\ processing s' = processing s
  /\ timers s' = timers s.
Proof.
  intros Hne s'. subst s'. unfold onmessage. cbn [msg_type snapshot msg_tiles msg_titilerUrl].
  assert (L : Nat.ltb 0 (length ts) = true).
  { destruct ts; [congruence | reflexivity]. }
  rewrite L.
  destruct (last_map_Some (sort_tiles_nonempty Hne)) as [t Ht]. rewrite Ht.
  repeat split; try (exists t; split; [reflexivity|]);
    destruct u as [u|]; try destruct (negb (String.eqb u "")); reflexivity.
Qed.

(** What the ['initial'] branch does when the array is empty or
    absent: at most the TiTiler URL changes. *)
Lemma onmessage_snapshot_without_tiles scan s ts u :
  ts = None \/ ts = Some [] ->
  onmessage scan (snapshot ts u) s =
  match u with
  | Some v => if negb (String.eqb v "") then setTitilerUrl v s else s
  | None => s
  end.
Proof. intros [-> | ->]; reflexivity. Qed.

(** C5, as the code has it. When the ['initial'] message carries a
    non-empty [tiles] array, the known-tiles map and the revealed-tiles
    map are both replaced by the map built from the snapshot's tiles
    (sorted by row, then column, keyed by id): nothing but snapshot tiles
    is left, every snapshot id is present, and with distinct ids the
    values are the sorted snapshot itself. The tiles are revealed at once
    and the drone is parked, not scanning, on the last of them: its
    target is the last tile of the sorted array, a tile of the snapshot,
    and its position that tile's center. The pending queue, the
    processing flag and the timers are left as they were. A snapshot
    whose array is empty or absent replaces neither map. *)
Theorem snapshot_replaces_when_nonempty :
  forall (scan : nat) (s : State) (ts : list TileMetadata) (u : option string),
    ts <> [] ->
    let s' := onmessage scan (snapshot (Some ts) u) s in
    tiles s' = map_of_tiles (sort_tiles ts)
    /\ visibleTiles s' = tiles s'
    /\ (forall t, In t (JsMap.values (tiles s')) -> In t ts)
    /\ (forall t, In t ts -> In (id t) (JsMap.keys (tiles s')))
    /\ (NoDup (map id ts) ->
        JsMap.values (tiles s') = sort_tiles ts
        /\ Permutation (JsMap.values (tiles s')) ts)
    /\ isScanning (droneState s') = false
    /\ (forall d,
          droneState s'
          = {| position := Some (center (last (sort_tiles ts) d));
               isScanning := false;
               targetTile := Some (last (sort_tiles ts) d) |}
          /\ In (last (sort_tiles ts) d) ts)
    /\ pendingTiles s' = pendingTiles s
    /\ processing s' = processing s
    /\ timers s' = timers s
    /\ tiles (onmessage scan (snapshot (Some []) u) s) = tiles s
    /\ visibleTiles (onmessage scan (snapshot (Some []) u) s) = visibleTiles s
    /\ tiles (onmessage scan (snapshot None u) s) = tiles s
    /\ visibleTiles (onmessage scan (snapshot None u) s) = visibleTiles s.
Proof.
  intros scan s ts u Hne s'.
  destruct (onmessage_snapshot_nonempty scan s u Hne)
    as (Ht & Hv & (lt & Hlast & Hd) & Hp & Hpr & Htm).
  fold s' in Ht, Hv, Hd, Hp, Hpr, Htm.
  split; [exact Ht|]. split; [congruence|].
  split.
  { intros t H. rewrite Ht in H. apply values_map_of_tiles_In in H.
    eapply Permutation_in; [apply sort_tiles_perm | exact H]. }
  split.
  { intros t H. rewrite Ht. apply keys_map_of_tiles_In.
    eapply Permutation_in; [symmetry; apply sort_tiles_perm | exact H]. }
  split.
  { intros Hnd.
    assert (E : JsMap.values (tiles s') = sort_tiles ts).
    { rewrite Ht. apply map_of_tiles_NoDup.
      eapply Permutation_NoDup; [|exact Hnd].
      apply Permutation_map. symmetry. apply sort_tiles_perm. }
    split; [exact E|]. rewrite E. apply sort_tiles_perm. }
  split; [now rewrite Hd|].
  split.
  { intros d.
    rewrite (last_of_map_Some d (sort_tiles_nonempty Hne)) in Hlast.
    injection Hlast as <-. split; [exact Hd|].
    eapply Permutation_in; [apply sort_tiles_perm|].
    destruct (exists_last (sort_tiles_nonempty Hne)) as (l' & a & E).
    rewrite E, last_last. apply in_or_app. right. now left. }
  repeat (split; [assumption|]).
  repeat split;
    (rewrite onmessage_snapshot_without_tiles by tauto;
     destruct u as [v|]; [destruct (negb (String.eqb v ""))|]; reflexivity).
Qed.

Lemma snapshot_replaces_when_nonempty_witness :
  let s' := onmessage 2000 (snapshot (Some [tile_B; tile_A]) (Some url0))
              (init "http://titiler") in
  tiles s' = [("tile_0_0", tile_A); ("tile_0_1", tile_B)]
  /\ visibleTiles s' = tiles s'
  /\ isScanning (droneState s') = false
  /\ droneState s' = {| position := Some (center tile_B);
                        isScanning := false;
                        targetTile := Some tile_B |}.
Proof.
  assert (Hne : [tile_B; tile_A] <> []) by discriminate.
  destruct (@snapshot_replaces_when_nonempty 2000 (init "http://titiler")
              [tile_B; tile_A] (Some url0) Hne)
    as (H1 & H2 & _ & _ & _ & H3 & H4 & _).
  split; [|split; [|split]].
  - etransitivity; [exact H1 | reflexivity].
  - exact H2.
  - exact H3.
  - destruct (H4 tile_A) as [H5 _].
    etransitivity; [exact H5 | reflexivity].
Defined.

(** C5 as stated fails twice. An empty snapshot does not replace the
    known tiles: the tile received before is still there. And a tile
    that waits in the animation queue stays queued when a snapshot
    already contains it: it is revealed by the snapshot and is scanned
    again once the running scan has settled. *)
Lemma snapshot_supersedes_counterexample :
  (let s0 := run 2000 [Received 0 (snapshot (Some [tile_A]) None)] (init url0) in
   let s1 := onmessage 2000 (snapshot (Some []) None) s0 in
   tiles s1 = [("tile_0_0", tile_A)]
   /\ tiles s1 <> map_of_tiles []
   /\ visibleTiles s1 <> map_of_tiles [])
  /\
  (let s0 := run 2000 [Received 0 (change tile_A); Received 0 (change tile_B)]
               (init url0) in
   let s1 := onmessage 2000 (snapshot (Some [tile_A; tile_B]) None) s0 in
   let s2 := run 2000 [TimerFires 0; TimerFires 0] s1 in
   pendingTiles s0 = [tile_B]
   /\ pendingTiles s1 = [tile_B]
   /\ JsMap.has "tile_0_1" (visibleTiles s1) = true
   /\ isScanning (droneState s2) = true
   /\ targetTile (droneState s2) = Some tile_B).
Proof.
  split.
  - cbv zeta. repeat split; try reflexivity; discriminate.
  - cbv zeta. repeat split; reflexivity.
Qed.

(** C10. An ['initial'] message whose [tiles] array is empty or absent
    leaves the known tiles, the revealed tiles, the drone state, the
    pending queue, the processing flag and the timers unchanged; of the
    hook's state only the TiTiler URL can change, and it does when the
    message brings a non-empty one. *)
Theorem initial_without_tiles_is_frame :
  forall (scan : nat) (s : State) (ts : option (list TileMetadata))
         (t : option TileMetadata) (u : option string),
    ts = None \/ ts = Some [] ->
    let s' := onmessage scan
                {| msg_type := initial; msg_tiles := ts; msg_tile := t;
                   msg_titilerUrl := u |} s in
    tiles s' = tiles s
    /\ visibleTiles s' = visibleTiles s
    /\ droneState s' = droneState s
    /\ droneLog s' = droneLog s
    /\ pendingTiles s' = pendingTiles s
    /\ processing s' = processing s
    /\ timers s' = timers s
    /\ isConnected s' = isConnected s
    /\ titilerUrl s' = match u with
                       | Some v => if String.eqb v "" then titilerUrl s else v
                       | None => titilerUrl s
                       end.
Proof.
  intros scan s ts t u [-> | ->] s'; subst s'; unfold onmessage;
    cbn [msg_type msg_tiles msg_titilerUrl length Nat.ltb Nat.leb];
    (destruct u as [v|]; [destruct (String.eqb v "")|]);
    cbn; repeat split; reflexivity.
Qed.

Lemma initial_without_tiles_is_frame_witness :
  let s := run 2000 [Received 0 (change tile_A); Received 0 (change tile_B)]
             (init url0) in
  let s' := onmessage 2000 (snapshot (Some []) (Some "http://other")) s in
  tiles s' = tiles s
  /\ pendingTiles s' = [tile_B]
  /\ isScanning (droneState s') = true
  /\ titilerUrl s' = "http://other".
Proof.
  cbv zeta.
  destruct (@initial_without_tiles_is_frame 2000
              (run 2000 [Received 0 (change tile_A); Received 0 (change tile_B)]
                 (init url0))
              (Some []) None (Some "http://other") (or_intror eq_refl))
    as (H1 & _ & H3 & _ & H5 & _ & _ & _ & H9).
  unfold snapshot.
  split; [exact H1|]. split; [rewrite H5; reflexivity|].
  split; [rewrite H3; reflexivity|].
  rewrite H9. reflexivity.
Defined.

End SnapshotFacts.

(** ** The service: broadcast and registration *)

Module ServerFacts.

Import Json Server.

Section WithEnvironment.

Variable cfg : Config.
Variable JSON_parse : string -> option value.

Local Abbreviation processNewTile := (processNewTile cfg JSON_parse).
Local Abbreviation readTileMetadata := (readTileMetadata JSON_parse).
Local Abbreviation tileDataOf := (tileDataOf cfg).
Local Abbreviation step := (step cfg JSON_parse).
Local Abbreviation run := (run cfg JSON_parse).
Local Abbreviation accepts := (accepts JSON_parse).
Local Abbreviation recordOf := (recordOf cfg JSON_parse).

Lemma broadcast_fold m (l : list WebSocket) (st : State) :
  let st' := fold_left
               (fun st client =>
                  if is_open (readyState st client) then send client m st else st)
               l st in
  clients st' = clients st
  /\ tilesMetadata st' = tilesMetadata st
  /\ readyState st' = readyState st
  /\ sent st' = sent st ++
                map (fun c => (c, m)) (filter (fun c => is_open (readyState st c)) l).
Proof.
  revert st. induction l as [|c l IH]; intros st; simpl.
  - now rewrite app_nil_r.
  - destruct (is_open (readyState st c)) eqn:E.
    + destruct (IH (send c m st)) as (H1 & H2 & H3 & H4).
      repeat split; try assumption.
      rewrite H4. simpl. now rewrite <- app_assoc.
    + apply IH.
Qed.

Lemma broadcast_spec m (s : State) :
  clients (broadcast m s) = clients s
  /\ tilesMetadata (broadcast m s) = tilesMetadata s
  /\ readyState (broadcast m s) = readyState s
  /\ sent (broadcast m s) = sent s ++ map (fun c => (c, m)) (receivers s).
Proof. apply broadcast_fold. Qed.

Lemma processNewTile_rejects fs now filePath s :
  accepts fs filePath = false -> processNewTile fs now filePath s = s.
Proof.
  unfold accepts, Server.processNewTile, tifPathOf, tifFilenameOf, tileIdOf.
  destruct (Path.endsWith _ _); simpl; [|reflexivity].
  destruct (existsSync _ _); simpl; [|reflexivity].
  intros ->. reflexivity.
Qed.

Lemma processNewTile_accepts fs now filePath s :
  accepts fs filePath = true ->
  let s' := processNewTile fs now filePath s in
  let tile := recordOf fs now filePath in
  clients s' = clients s
  /\ readyState s' = readyState s
  /\ tilesMetadata s' = JsMap.set (tileIdOf filePath) tile (tilesMetadata s)
  /\ sent s' = sent s ++ map (fun c => (c, MNewTile tile)) (receivers s).
Proof.
  unfold accepts, Server.processNewTile, recordOf, tifPathOf, tifFilenameOf, tileIdOf.
  intros H. apply andb_prop in H. destruct H as [H H3].
  apply andb_prop in H. destruct H as [H1 H2].
  rewrite H1, H2, H3. cbn [negb].
  match goal with |- context [broadcast ?m ?st] =>
    destruct (broadcast_spec m st) as (B1 & B2 & B3 & B4) end.
  cbv zeta. rewrite B1, B2, B3, B4. repeat split; reflexivity.
Qed.

(** Reading the log socket by socket. *)
Lemma outbox_app ws (s : State) l :
  map snd (filter (fun p : WebSocket * Message => Nat.eqb (fst p) ws) (sent s ++ l))
  = outbox ws s ++ map snd (filter (fun p => Nat.eqb (fst p) ws) l).
Proof. unfold outbox. now rewrite filter_app, map_app. Qed.

Lemma delivered_once ws (m : Message) (l : list WebSocket) :
  NoDup l ->
  map snd (filter (fun p : WebSocket * Message => Nat.eqb (fst p) ws)
             (map (fun c => (c, m)) l))
  = if set_has ws l then [m] else [].
Proof.
  unfold set_has. induction l as [|c l IH]; intros H; [reflexivity|].
  inversion H as [|? ? Hn Hd]; subst. simpl.
  destruct (Nat.eqb c ws) eqn:E.
  - apply Nat.eqb_eq in E. subst c. rewrite Nat.eqb_refl. simpl.
    rewrite IH by assumption.
    destruct (existsb (Nat.eqb ws) l) eqn:X; [|reflexivity].
    apply existsb_exists in X. destruct X as [x [Hx Ex]].
    apply Nat.eqb_eq in Ex. subst x. contradiction.
  - rewrite Nat.eqb_sym, E. simpl. now apply IH.
Qed.

Lemma set_has_In ws l : set_has ws l = true <-> In ws l.
Proof.
  unfold set_has. rewrite existsb_exists. split.
  - intros [x [H E]]. apply Nat.eqb_eq in E. now subst.
  - intros H. exists ws. split; [exact H | apply Nat.eqb_refl].
Qed.

Lemma set_has_receivers ws s :
  set_has ws (receivers s) = set_has ws (clients s) && is_open (readyState s ws).
Proof.
  apply eq_true_iff_eq. rewrite andb_true_iff, !set_has_In.
  unfold receivers. rewrite filter_In. tauto.
Qed.

Lemma NoDup_set_add ws l : NoDup l -> NoDup (set_add ws l).
Proof.
  intros H. unfold set_add. destruct (set_has ws l) eqn:E; [exact H|].
  apply NoDup_app; [exact H | constructor; [simpl; tauto | constructor] |].
  intros x Hx [<-|[]].
  apply set_has_In in Hx. congruence.
Qed.

Lemma In_set_add ws w l : In w (set_add ws l) <-> w = ws \/ In w l.
Proof.
  unfold set_add. destruct (set_has ws l) eqn:E.
  - apply set_has_In in E. intuition congruence.
  - rewrite in_app_iff. simpl. intuition congruence.
Qed.

Lemma In_set_delete ws w l : In w (set_delete ws l) -> In w l.
Proof. unfold set_delete. rewrite filter_In. tauto. Qed.

(** *** What holds in every state the service can reach *)

Lemma tileDataOf_id metadata tileId tifFilename now :
  JsMap.get "id" (tileDataOf metadata tileId tifFilename now) = Some (JStr tileId).
Proof.
  unfold Server.tileDataOf.
  rewrite !JsMapFacts.get_set_ne by discriminate.
  apply JsMapFacts.get_set_eq.
Qed.

Lemma registry_inv_init : Inv init.
Proof. repeat split; constructor. Qed.

Lemma get_tile_by_id_state id s : fst (get_tile_by_id id s) = s.
Proof. unfold get_tile_by_id. now destruct (JsMap.get id (tilesMetadata s)). Qed.

Lemma registry_inv_processNewTile fs now filePath s :
  Inv s -> Inv (processNewTile fs now filePath s).
Proof.
  intros (H1 & H2 & H3).
  destruct (accepts fs filePath) eqn:A.
  - destruct (processNewTile_accepts fs now filePath s A) as (C1 & _ & C3 & _).
    unfold Inv. rewrite C1, C3. split; [exact H1|]. split.
    + now apply JsMapFacts.NoDup_keys_set.
    + unfold keyed_by_id in *. rewrite Forall_forall in *. intros e He.
      apply JsMapFacts.In_set_inv in He. destruct He as [-> | He].
      * apply tileDataOf_id.
      * now apply H3.
  - rewrite processNewTile_rejects by exact A. now repeat split.
Qed.

Lemma registry_inv_step s e : Inv s -> Inv (step s e).
Proof.
  intros H. destruct e as [ws|ws|ws|ws r|ev fs now|id]; simpl.
  - destruct H as (H1 & H2 & H3). repeat split; simpl; try assumption.
    now apply NoDup_set_add.
  - destruct H as (H1 & H2 & H3). repeat split; simpl; try assumption.
    now apply NoDup_filter.
  - destruct H as (H1 & H2 & H3). repeat split; simpl; try assumption.
    now apply NoDup_filter.
  - exact H.
  - destruct ev; simpl; try exact H; now apply registry_inv_processNewTile.
  - now rewrite get_tile_by_id_state.
Qed.

Lemma registry_inv_run evs s : Inv s -> Inv (run evs s).
Proof.
  revert s. induction evs as [|e evs IH]; intros s H; simpl; [exact H|].
  apply IH. now apply registry_inv_step.
Qed.

(** *** What one socket sees of the other events *)

Lemma filter_other ws (m : Message) (l : list WebSocket) :
  ~ In ws l ->
  filter (fun p : WebSocket * Message => Nat.eqb (fst p) ws)
         (map (fun c => (c, m)) l) = [].
Proof.
  induction l as [|c l IH]; intros H; [reflexivity|]. simpl.
  destruct (Nat.eqb c ws) eqn:E.
  - apply Nat.eqb_eq in E. subst. simpl in H. tauto.
  - apply IH. simpl in H. tauto.
Qed.

Lemma filter_same_message ws (m : Message) (l : list WebSocket) (P : Message -> Prop) :
  P m ->
  Forall P (map snd (filter (fun p : WebSocket * Message => Nat.eqb (fst p) ws)
                       (map (fun c => (c, m)) l))).
Proof.
  intros Hm. induction l as [|c l IH]; simpl; [constructor|].
  destruct (Nat.eqb c ws); simpl; [constructor|]; assumption.
Qed.

Lemma step_clients_other ws s e :
  is_connection_of ws e = false ->
  ~ In ws (clients s) -> ~ In ws (clients (step s e)).
Proof.
  intros He Hn. destruct e as [w|w|w|w r|ev fs now|id]; simpl in *.
  - rewrite In_set_add. apply Nat.eqb_neq in He. intuition congruence.
  - intros H. now apply In_set_delete in H.
  - intros H. now apply In_set_delete in H.
  - exact Hn.
  - assert (G : forall p, ~ In ws (clients (processNewTile fs now p s))).
    { intros p. destruct (accepts fs p) eqn:A.
      - destruct (processNewTile_accepts fs now p s A) as (C1 & _). now rewrite C1.
      - now rewrite processNewTile_rejects. }
    destruct ev; simpl; auto.
  - now rewrite get_tile_by_id_state.
Qed.

Lemma step_outbox_other ws s e :
  is_connection_of ws e = false ->
  exists rest,
    outbox ws (step s e) = outbox ws s ++ rest
    /\ Forall (fun m => is_new_tile m = true) rest
    /\ (~ In ws (clients s) -> rest = []).
Proof.
  intros He.
  assert (Same : forall s', sent s' = sent s ->
            exists rest, outbox ws s' = outbox ws s ++ rest
                         /\ Forall (fun m => is_new_tile m = true) rest
                         /\ (~ In ws (clients s) -> rest = [])).
  { intros s' E. exists []. unfold outbox. rewrite E, app_nil_r. auto. }
  destruct e as [w|w|w|w r|ev fs now|id]; simpl in *;
    try (apply Same; reflexivity).
  - exists []. unfold outbox. simpl. rewrite filter_app. simpl. rewrite He.
    simpl. rewrite !app_nil_r. auto.
  - assert (G : forall p, exists rest,
               outbox ws (processNewTile fs now p s) = outbox ws s ++ rest
               /\ Forall (fun m => is_new_tile m = true) rest
               /\ (~ In ws (clients s) -> rest = [])).
    { intros p. destruct (accepts fs p) eqn:A.
      - destruct (processNewTile_accepts fs now p s A) as (_ & _ & _ & C4).
        eexists. unfold outbox at 1. rewrite C4, outbox_app.
        split; [reflexivity|]. split.
        + now apply filter_same_message.
        + intros Hn. rewrite filter_other; [reflexivity|].
          unfold receivers. rewrite filter_In. tauto.
      - rewrite processNewTile_rejects by exact A. now apply Same. }
    destruct ev; simpl; auto.
  - apply Same. now rewrite get_tile_by_id_state.
Qed.

Lemma run_silent ws evs s :
  existsb (is_connection_of ws) evs = false ->
  ~ In ws (clients s) ->
  outbox ws (run evs s) = outbox ws s.
Proof.
  revert s. induction evs as [|e evs IH]; intros s He Hn; [reflexivity|].
  simpl in He. apply orb_false_elim in He. destruct He as [He1 He2]. simpl.
  rewrite IH; [|exact He2 | now apply step_clients_other].
  destruct (step_outbox_other ws s e He1) as (rest & E & _ & R).
  rewrite E, (R Hn). apply app_nil_r.
Qed.

Lemma run_outbox_other ws evs s :
  existsb (is_connection_of ws) evs = false ->
  exists rest,
    outbox ws (run evs s) = outbox ws s ++ rest
    /\ Forall (fun m => is_new_tile m = true) rest.
Proof.
  revert s. induction evs as [|e evs IH]; intros s He.
  - exists []. split; [now rewrite app_nil_r | constructor].
  - simpl in He. apply orb_false_elim in He. destruct He as [He1 He2]. simpl.
    destruct (step_outbox_other ws s e He1) as (r1 & E1 & F1 & _).
    destruct (IH (step s e) He2) as (r2 & E2 & F2).
    exists (r1 ++ r2). rewrite E2, E1, app_assoc. split; [reflexivity|].
    apply Forall_app. now split.
Qed.

Lemma In_get (V : Type) k (v : V) (m : JsMap.t V) :
  NoDup (JsMap.keys m) -> In (k, v) m -> JsMap.get k m = Some v.
Proof.
  induction m as [|[k0 v0] m IH]; simpl; [tauto|].
  intros Hnd [H|H].
  - inversion H; subst. now rewrite String.eqb_refl.
  - inversion Hnd as [|? ? Hn Hd]; subst.
    destruct (String.eqb k k0) eqn:E.
    + apply String.eqb_eq in E. subst k0. exfalso. apply Hn.
      change k with (fst (k, v)). now apply in_map.
    + now apply IH.
Qed.

(** *** Snapshot on connection *)

Lemma ids_of_values (m : JsMap.t object) :
  keyed_by_id m ->
  map (JsMap.get "id") (JsMap.values m)
  = map (fun k => Some (JStr k)) (JsMap.keys m).
Proof.
  unfold keyed_by_id, JsMap.values, JsMap.keys.
  induction 1 as [|e m He _ IH]; simpl; [reflexivity|].
  f_equal; [exact He | exact IH].
Qed.

Lemma outbox_on_connection ws r s :
  outbox ws (on_connection cfg ws (set_ready ws r s))
  = outbox ws s ++ [MInitial (JsMap.values (tilesMetadata s)) (TITILER_PUBLIC_URL cfg)].
Proof.
  unfold outbox, on_connection, send. cbn [sent set_ready tilesMetadata].
  rewrite filter_app, map_app. cbn [filter fst]. now rewrite Nat.eqb_refl.
Qed.

(** C3. A socket that connects when the registry holds N records is
    written exactly one ['initial'] message: it is the first message the
    socket ever gets, every later one is a ['new_tile'], and its [tiles]
    array is the registry's values at that moment: N records, one per
    registered id, none twice, with the public TiTiler URL next to
    them. *)
Theorem snapshot_completeness :
  forall (before after : list Event) (ws : WebSocket),
    existsb (is_connection_of ws) before = false ->
    existsb (is_connection_of ws) after = false ->
    let s0 := run before init in
    let registered := JsMap.values (tilesMetadata s0) in
    exists changes,
      outbox ws s0 = []
      /\ outbox ws (run (before ++ Connection ws :: after) init)
         = MInitial registered (TITILER_PUBLIC_URL cfg) :: changes
      /\ Forall (fun m => is_new_tile m = true) changes
      /\ length registered = JsMap.size (tilesMetadata s0)
      /\ NoDup (map (JsMap.get "id") registered)
      /\ (forall tile, In tile registered <->
                       exists k, JsMap.get k (tilesMetadata s0) = Some tile).
Proof.
  intros before after ws Hb Ha s0 registered.
  assert (Hs0 : outbox ws s0 = []).
  { subst s0. rewrite run_silent; [reflexivity | exact Hb | simpl; tauto]. }
  destruct (registry_inv_run before registry_inv_init) as (_ & Hk & Hid). fold s0 in Hk, Hid.
  unfold Server.run at 1. rewrite fold_left_app. simpl.
  change (fold_left (Server.step cfg JSON_parse) before init) with s0.
  destruct (run_outbox_other ws after (on_connection cfg ws (set_ready ws OPEN s0)) Ha)
    as (changes & E & F).
  exists changes. split; [exact Hs0|]. split.
  { unfold Server.run in E. rewrite E, outbox_on_connection, Hs0. reflexivity. }
  split; [exact F|]. split.
  { unfold registered, JsMap.values, JsMap.size. apply length_map. }
  split.
  { unfold registered. rewrite ids_of_values by exact Hid.
    apply Injective_map_NoDup; [|exact Hk].
    intros x y H. now inversion H. }
  intros tile. unfold registered, JsMap.values. rewrite in_map_iff. split.
  - intros [[k v] [E' Hin]]. simpl in E'. subst v. exists k.
    now apply In_get.
  - intros [k Hg]. exists (k, tile). split; [reflexivity|].
    now apply JsMapFacts.get_Some_In.
Qed.

(** *** Broadcast on registration *)

(** C4. When [processNewTile] registers a tile, the record is stored
    under the tile id, and every socket that is in the [clients] set and
    whose [readyState] is [OPEN] is written exactly one ['new_tile']
    message carrying that record; a socket outside the set, or not open,
    is written nothing. *)
Theorem no_missed_events :
  forall (history : list Event) (fs : FileSystem) (now : float)
         (filePath : string),
    accepts fs filePath = true ->
    let s := run history init in
    let s' := processNewTile fs now filePath s in
    let tile := recordOf fs now filePath in
    JsMap.get (tileIdOf filePath) (tilesMetadata s') = Some tile
    /\ forall ws,
         outbox ws s' =
         outbox ws s ++
         (if set_has ws (clients s) && is_open (readyState s ws)
          then [MNewTile tile] else []).
Proof.
  intros history fs now filePath A s s' tile.
  destruct (processNewTile_accepts fs now filePath s A) as (_ & _ & C3 & C4).
  fold s' tile in C3, C4. split.
  - rewrite C3. apply JsMapFacts.get_set_eq.
  - intros ws. unfold outbox at 1. rewrite C4, outbox_app. f_equal.
    rewrite delivered_once.
    + now rewrite set_has_receivers.
    + apply NoDup_filter. apply (registry_inv_run history registry_inv_init).
Qed.

(** *** Registering an id again *)

(** C1, as the code has it. When [processNewTile] runs for a sidecar
    whose tile id is already in the registry (raster present, sidecar
    readable), the registry keeps its size, its keys and their order and
    every other record, but the record stored under that id is replaced
    by a freshly built one whose timestamp is the time of this call, and
    one more ['new_tile'] message goes to every open client of the
    set. *)
Theorem reregistration_overwrites :
  forall (s : State) (fs : FileSystem) (now : float) (filePath : string)
         (old : object),
    JsMap.get (tileIdOf filePath) (tilesMetadata s) = Some old ->
    accepts fs filePath = true ->
    let s' := processNewTile fs now filePath s in
    let tile := recordOf fs now filePath in
    JsMap.size (tilesMetadata s') = JsMap.size (tilesMetadata s)
    /\ JsMap.keys (tilesMetadata s') = JsMap.keys (tilesMetadata s)
    /\ JsMap.get (tileIdOf filePath) (tilesMetadata s') = Some tile
    /\ JsMap.get "timestamp" tile = Some (JNum now)
    /\ (forall k, k <> tileIdOf filePath ->
                  JsMap.get k (tilesMetadata s') = JsMap.get k (tilesMetadata s))
    /\ sent s' = sent s ++ map (fun c => (c, MNewTile tile)) (receivers s).
Proof.
  intros s fs now filePath old Hold A s' tile.
  destruct (processNewTile_accepts fs now filePath s A) as (_ & _ & C3 & C4).
  fold s' tile in C3, C4.
  assert (Hin : In (tileIdOf filePath) (JsMap.keys (tilesMetadata s))).
  { apply JsMapFacts.get_Some_In in Hold.
    change (tileIdOf filePath) with (fst (tileIdOf filePath, old)).
    now apply in_map. }
  rewrite C3. repeat split.
  - now apply JsMapFacts.size_set_present.
  - now apply JsMapFacts.keys_set_present.
  - apply JsMapFacts.get_set_eq.
  - apply JsMapFacts.get_set_eq.
  - intros k Hk. apply JsMapFacts.get_set_ne. congruence.
  - exact C4.
Qed.

(** *** The pairing gate *)

(** C2, as the code has it. A sidecar event whose raster is not on disk
    changes nothing. An event for a path whose file name does not end in
    [.json], such as the raster's own arrival, changes nothing either. The
    next event for the sidecar path, once the raster is on disk and the
    sidecar is readable, registers the tile: one new entry at the end of
    the registry and one broadcast. *)
Theorem pairing_gate_waits_for_sidecar_event :
  forall (s : State) (fs0 fs1 : FileSystem) (t0 t1 t2 : float)
         (sidecar raster : string),
    Path.endsWith (Path.basename raster) ".json" = false ->
    existsSync fs0 (tifPathOf sidecar) = false ->
    accepts fs1 sidecar = true ->
    JsMap.get (tileIdOf sidecar) (tilesMetadata s) = None ->
    let s1 := on_watch cfg JSON_parse (WAdd sidecar) fs0 t0 s in
    let s2 := on_watch cfg JSON_parse (WAdd raster) fs1 t1 s1 in
    let s3 := on_watch cfg JSON_parse (WChange sidecar) fs1 t2 s2 in
    let tile := recordOf fs1 t2 sidecar in
    s1 = s
    /\ s2 = s
    /\ tilesMetadata s3 = tilesMetadata s ++ [(tileIdOf sidecar, tile)]
    /\ JsMap.size (tilesMetadata s3) = S (JsMap.size (tilesMetadata s))
    /\ sent s3 = sent s ++ map (fun c => (c, MNewTile tile)) (receivers s)
    /\ on_watch cfg JSON_parse (WAdd sidecar) fs1 t2 s2 = s3.
Proof.
  intros s fs0 fs1 t0 t1 t2 sidecar raster Hr H0 A Hnew s1 s2 s3 tile.
  assert (E1 : s1 = s).
  { subst s1. simpl. apply processNewTile_rejects. unfold accepts.
    now rewrite H0, andb_false_r. }
  assert (E2 : s2 = s).
  { subst s2. rewrite E1. simpl. apply processNewTile_rejects. unfold accepts.
    now rewrite Hr. }
  split; [exact E1|]. split; [exact E2|].
  subst s3. rewrite E2. simpl.
  destruct (processNewTile_accepts fs1 t2 sidecar s A) as (_ & _ & C3 & C4).
  fold tile in C3, C4. apply JsMapFacts.get_None_keys in Hnew.
  rewrite C3. repeat split.
  - now apply JsMapFacts.set_absent.
  - now apply JsMapFacts.size_set_absent.
  - exact C4.
Qed.

(** *** Unreadable sidecars *)

(** C8. When the sidecar cannot be read or its content does not parse,
    [readTileMetadata] returns [null] and [processNewTile] returns with
    the state untouched: no registration, no broadcast. The same holds
    for the watcher callbacks that call it. *)
Theorem malformed_sidecar_is_dropped :
  forall (s : State) (fs : FileSystem) (now : float) (filePath : string),
    (readFileSync fs filePath = None \/
     exists content, readFileSync fs filePath = Some content
                     /\ JSON_parse content = None) ->
    readTileMetadata fs filePath = JNull
    /\ processNewTile fs now filePath s = s
    /\ on_watch cfg JSON_parse (WAdd filePath) fs now s = s
    /\ on_watch cfg JSON_parse (WChange filePath) fs now s = s.
Proof.
  intros s fs now filePath H.
  assert (R : readTileMetadata fs filePath = JNull).
  { unfold Server.readTileMetadata.
    destruct H as [-> | (content & -> & ->)]; reflexivity. }
  assert (P : processNewTile fs now filePath s = s).
  { apply processNewTile_rejects. unfold accepts. rewrite R.
    apply andb_false_r. }
  repeat split; assumption.
Qed.

(** *** Fetching one tile *)

(** C9. [GET /api/tiles/:id] answers with the stored record when the id
    is in the registry and with status 404 and the body
    [{ error: 'Tile not found' }] when it is not; the two answers cannot
    be confused, there is an answer in both cases, and the state of the
    service is the same afterwards. *)
Theorem tile_lookup_not_found_is_distinct :
  forall (s : State) (id : string),
    fst (get_tile_by_id id s) = s
    /\ step s (GetTile id) = s
    /\ (forall tile,
           JsMap.get id (tilesMetadata s) = Some tile ->
           snd (get_tile_by_id id s) = {| status := 200; body := tile |})
    /\ (JsMap.get id (tilesMetadata s) = None ->
        snd (get_tile_by_id id s)
        = {| status := 404; body := [("error", JStr "Tile not found")] |})
    /\ (status (snd (get_tile_by_id id s)) = 404 <->
        JsMap.get id (tilesMetadata s) = None).
Proof.
  intros s id. unfold get_tile_by_id. simpl. unfold get_tile_by_id.
  destruct (JsMap.get id (tilesMetadata s)) as [tile|]; simpl.
  - repeat split; try discriminate. now intros ? [= ->].
  - repeat split; discriminate.
Qed.

End WithEnvironment.

Import Examples.

Local Abbreviation run0 := (run default_config parse_known).
Local Abbreviation step0 := (step default_config parse_known).

Lemma snapshot_completeness_witness :
  exists changes,
    outbox 7 (run0 ([Connection 1;
                     Watch (WAdd sidecar_path) (disk true sidecar_text) 1000]
                    ++ Connection 7
                    :: [Watch (WChange sidecar_path) (disk true sidecar_text) 2000])
                init)
    = MInitial
        (JsMap.values
           (tilesMetadata
              (run0 [Connection 1;
                     Watch (WAdd sidecar_path) (disk true sidecar_text) 1000]
                 init)))
        "http://localhost:8000"
      :: changes.
Proof.
  destruct (@snapshot_completeness default_config parse_known
              [Connection 1;
               Watch (WAdd sidecar_path) (disk true sidecar_text) 1000]
              [Watch (WChange sidecar_path) (disk true sidecar_text) 2000]
              7 eq_refl eq_refl)
    as (changes & _ & H & _).
  exists changes. exact H.
Defined.

Lemma no_missed_events_witness :
  let s := run0 [Connection 1; Connection 2; SocketState 2 CLOSING] init in
  let s' := processNewTile default_config parse_known
              (disk true sidecar_text) 1000 sidecar_path s in
  let tile := recordOf default_config parse_known
                (disk true sidecar_text) 1000 sidecar_path in
  outbox 1 s' = outbox 1 s ++ [MNewTile tile]
  /\ outbox 2 s' = outbox 2 s
  /\ outbox 3 s' = outbox 3 s.
Proof.
  cbv zeta.
  destruct (@no_missed_events default_config parse_known
              [Connection 1; Connection 2; SocketState 2 CLOSING]
              (disk true sidecar_text) 1000 sidecar_path eq_refl)
    as (_ & H).
  split; [|split].
  - exact (H 1).
  - rewrite (H 2). apply app_nil_r.
  - rewrite (H 3). apply app_nil_r.
Defined.

Lemma reregistration_overwrites_witness :
  let s := run0 [Connection 1;
                 Watch (WAdd sidecar_path) (disk true sidecar_text) 1000] init in
  let s' := processNewTile default_config parse_known
              (disk true sidecar_text) 2000 sidecar_path s in
  JsMap.size (tilesMetadata s') = 1
  /\ JsMap.keys (tilesMetadata s') = ["tile_0_0"]
  /\ length (sent s') = 3.
Proof.
  cbv zeta.
  destruct (@reregistration_overwrites default_config parse_known
              (run0 [Connection 1;
                     Watch (WAdd sidecar_path) (disk true sidecar_text) 1000] init)
              (disk true sidecar_text) 2000 sidecar_path
              (recordOf default_config parse_known
                 (disk true sidecar_text) 1000 sidecar_path)
              eq_refl eq_refl)
    as (H1 & H2 & _ & _ & _ & H6).
  split; [|split].
  - rewrite H1. reflexivity.
  - rewrite H2. reflexivity.
  - rewrite H6. reflexivity.
Defined.

(** C1 as stated fails. The sidecar of a registered tile is seen again
    (a ['change'] event one second later): the registry still has one
    entry, but the stored record is another one, with the later
    timestamp, and the connected client is sent a second ['new_tile']. *)
Lemma registration_not_idempotent_counterexample :
  let s1 := run0 [Connection 1;
                  Watch (WAdd sidecar_path) (disk true sidecar_text) 1000] init in
  let s2 := step0 s1 (Watch (WChange sidecar_path) (disk true sidecar_text) 2000) in
  JsMap.size (tilesMetadata s1) = 1
  /\ JsMap.size (tilesMetadata s2) = 1
  /\ tilesMetadata s2 <> tilesMetadata s1
  /\ (exists r1 r2,
         JsMap.get "tile_0_0" (tilesMetadata s1) = Some r1
         /\ JsMap.get "tile_0_0" (tilesMetadata s2) = Some r2
         /\ JsMap.get "timestamp" r1 = Some (JNum 1000)
         /\ JsMap.get "timestamp" r2 = Some (JNum 2000))
  /\ length (filter is_new_tile (outbox 1 s1)) = 1
  /\ length (filter is_new_tile (outbox 1 s2)) = 2.
Proof.
  cbv zeta. split; [reflexivity|]. split; [reflexivity|]. split.
  { intros H.
    apply (f_equal
             (fun m => match JsMap.get "tile_0_0" m with
                       | Some r => match JsMap.get "timestamp" r with
                                   | Some (JNum x) => PrimFloat.eqb x 1000
                                   | _ => false
                                   end
                       | None => false
                       end)) in H.
    vm_compute in H. discriminate H. }
  split.
  { do 2 eexists. repeat split; reflexivity. }
  split; reflexivity.
Qed.

Lemma pairing_gate_waits_for_sidecar_event_witness :
  let s := run0 [Connection 1] init in
  let s1 := on_watch default_config parse_known (WAdd sidecar_path)
              (disk false sidecar_text) 1000 s in
  let s2 := on_watch default_config parse_known (WAdd raster_path)
              (disk true sidecar_text) 2000 s1 in
  let s3 := on_watch default_config parse_known (WChange sidecar_path)
              (disk true sidecar_text) 3000 s2 in
  s1 = s /\ s2 = s /\ JsMap.size (tilesMetadata s3) = 1.
Proof.
  cbv zeta.
  destruct (@pairing_gate_waits_for_sidecar_event default_config parse_known
              (run0 [Connection 1] init)
              (disk false sidecar_text) (disk true sidecar_text)
              1000 2000 3000 sidecar_path raster_path
              eq_refl eq_refl eq_refl eq_refl)
    as (H1 & H2 & _ & H4 & _).
  split; [exact H1|]. split; [exact H2|]. rewrite H4. reflexivity.
Defined.

(** C2 as stated fails in its second half. The sidecar is seen while
    the raster is missing, then the raster arrives and the watcher
    reports it: the raster is on disk, and still nothing is registered
    and nothing is broadcast, because the raster's own event is not a
    [.json] event and no event for the sidecar follows. *)
Lemma pairing_gate_counterexample :
  let s := run0 [Connection 1;
                 Watch (WAdd sidecar_path) (disk false sidecar_text) 1000;
                 Watch (WAdd raster_path) (disk true sidecar_text) 2000] init in
  existsSync (disk true sidecar_text)
             (tifPathOf sidecar_path) = true
  /\ tifPathOf sidecar_path = raster_path
  /\ accepts parse_known (disk true sidecar_text) sidecar_path = true
  /\ tilesMetadata s = []
  /\ filter is_new_tile (outbox 1 s) = [].
Proof. cbv zeta. repeat split; reflexivity. Qed.

Lemma malformed_sidecar_is_dropped_witness :
  let s := run0 [Connection 1] init in
  readTileMetadata parse_known (disk true "{ not json") sidecar_path = JNull
  /\ processNewTile default_config parse_known (disk true "{ not json") 1000
       sidecar_path s = s.
Proof.
  cbv zeta.
  destruct (@malformed_sidecar_is_dropped default_config parse_known
              (run0 [Connection 1] init) (disk true "{ not json") 1000
              sidecar_path
              (or_intror (ex_intro _ "{ not json" (conj eq_refl eq_refl))))
    as (H1 & H2 & _).
  split; [exact H1 | exact H2].
Defined.

Lemma tile_lookup_not_found_is_distinct_witness :
  let s := run0 [Watch (WAdd sidecar_path) (disk true sidecar_text) 1000] init in
  status (snd (get_tile_by_id "tile_0_0" s)) = 200
  /\ snd (get_tile_by_id "tile_9_9" s)
     = {| status := 404; body := [("error", JStr "Tile not found")] |}
  /\ fst (get_tile_by_id "tile_9_9" s) = s.
Proof.
  cbv zeta.
  destruct (@tile_lookup_not_found_is_distinct default_config parse_known
              (run0 [Watch (WAdd sidecar_path) (disk true sidecar_text) 1000] init)
              "tile_0_0") as (_ & _ & H3 & _).
  destruct (@tile_lookup_not_found_is_distinct default_config parse_known
              (run0 [Watch (WAdd sidecar_path) (disk true sidecar_text) 1000] init)
              "tile_9_9") as (H1 & _ & _ & H4 & _).
  split; [|split].
  - rewrite (H3 _ eq_refl). reflexivity.
  - exact (H4 eq_refl).
  - exact H1.
Defined.

End ServerFacts.

(** ** The client: the animation queue *)

Module QueueFacts.

Import Client Queue.

Section WithEnvironment.

Variable SCANNING_DURATION : nat.
Variable DEFAULT_TITILER_URL : string.

Local Abbreviation step := (step SCANNING_DURATION).
Local Abbreviation init := (init DEFAULT_TITILER_URL).
Local Abbreviation play := (play SCANNING_DURATION).
Local Abbreviation drain := (drain SCANNING_DURATION).
Local Abbreviation settle_all := (settle_all SCANNING_DURATION).
Local Abbreviation full_cycle := (full_cycle SCANNING_DURATION).
Local Abbreviation phase := (phase SCANNING_DURATION).
Local Abbreviation Inv := (Inv SCANNING_DURATION).

Lemma spaced_snoc d l x :
  spaced d l -> Forall (fun T => T + d <= x) l -> spaced d (l ++ [x]).
Proof.
  induction l as [|a l IH]; intros Hs Hf; [exact I|].
  inversion Hf as [|? ? Ha Hl]; subst.
  destruct l as [|b l]; simpl.
  - split; [exact Ha | exact I].
  - destruct Hs as [Hab Hs]. split; [exact Hab|]. now apply IH.
Qed.

Lemma scan_starts_snoc log n d :
  scan_starts (log ++ [(n, d)])
  = scan_starts log ++ (if isScanning d then [n] else []).
Proof.
  unfold scan_starts. rewrite filter_app, map_app. simpl.
  now destruct (isScanning d).
Qed.

Lemma queue_inv_init : Inv [] init.
Proof.
  split; simpl; try exact I; try reflexivity.
  apply Idle; simpl; auto.
Qed.

(** Handlers are evaluated by value on a state whose fields are
    explicit, so that no intermediate state is copied. *)
Ltac project_state :=
  cbv beta iota zeta delta
    [future work setPending setTiles setNow setProcessing setDroneState
     setTimeout setTimers setVisibleTiles
     tiles visibleTiles isConnected titilerUrl droneState pendingTiles
     processing timers now droneLog callback due] in *.

Ltac step_state :=
  cbv beta iota zeta delta
    [Client.step onmessage processNextTile scanComplete settle run_callback
     next_timer change setPending setTiles setNow setProcessing setDroneState
     setTimeout setTimers setVisibleTiles
     tiles visibleTiles isConnected titilerUrl droneState pendingTiles
     processing timers now droneLog callback due
     msg_type msg_tile msg_tiles msg_titilerUrl orb negb
     position isScanning targetTile scanning];
  cbn [app length Nat.eqb Nat.leb orb negb].

Ltac weaken_starts Hf :=
  eapply Forall_impl; [|exact Hf]; unfold full_cycle; cbn beta;
  intros ? ?; lia.

(** A tile arrives. *)
Lemma queue_inv_arrive arrived s dt t :
  Inv arrived s ->
  Inv (arrived ++ [t]) (step s (Received dt (change t))).
Proof.
  intros [Hsp Hlog Hph].
  assert (Hcyc : flat_map cycle (arrived ++ [t]) = flat_map cycle arrived ++ cycle t).
  { rewrite flat_map_app. reflexivity. }
  destruct s as [tl vt ic tu ds pq pr tms nw lg].
  destruct Hph as [Hp Ht Hq Hd Hf | u d Hp Ht Hd Hf | d Hp Ht Hd Hf];
    project_state; subst; step_state.
  - cbn [app flat_map] in Hlog. rewrite app_nil_r in Hlog.
    split; project_state.
    + rewrite scan_starts_snoc. cbn [isScanning]. apply spaced_snoc; [exact Hsp|].
      weaken_starts Hf.
    + rewrite Hcyc, map_app, <- Hlog, <- app_assoc. reflexivity.
    + rewrite scan_starts_snoc. cbn [isScanning].
      apply Scanning with (t := t) (d := nw + dt + SCANNING_DURATION);
        try reflexivity.
      apply Forall_app. split; [weaken_starts Hf|].
      constructor; [cbn beta; lia | constructor].
  - cbn [app] in Hlog.
    split; project_state.
    + exact Hsp.
    + rewrite Hcyc, flat_map_app, <- Hlog.
      cbn [app flat_map]. rewrite app_nil_r, <- app_assoc. reflexivity.
    + now apply Scanning with (t := u) (d := d).
  - cbn [app] in Hlog.
    split; project_state.
    + exact Hsp.
    + rewrite Hcyc, flat_map_app, <- Hlog.
      cbn [app flat_map]. rewrite app_nil_r, <- !app_assoc. reflexivity.
    + now apply Settling with (d := d).
Qed.

(** A timer fires. *)
Lemma queue_inv_fire arrived s late :
  Inv arrived s -> Inv arrived (step s (TimerFires late)).
Proof.
  intros [Hsp Hlog Hph].
  destruct s as [tl vt ic tu ds pq pr tms nw lg].
  destruct Hph as [Hp Ht Hq Hd Hf | u d Hp Ht Hd Hf | d Hp Ht Hd Hf];
    project_state; subst; step_state.
  - split; project_state; try assumption. now apply Idle.
  - cbn [app] in Hlog.
    split; project_state.
    + now rewrite scan_starts_snoc, app_nil_r.
    + rewrite map_app, <- Hlog, <- !app_assoc. reflexivity.
    + rewrite scan_starts_snoc, app_nil_r.
      apply Settling with (d := Nat.max nw d + late + 300); try reflexivity.
      weaken_starts Hf.
  - cbn [app] in Hlog.
    destruct pq as [|t rest]; step_state.
    + split; project_state; try assumption.
      apply Idle; project_state; try reflexivity; try assumption.
      weaken_starts Hf.
    + split; project_state.
      * rewrite scan_starts_snoc. cbn [isScanning].
        apply spaced_snoc; [exact Hsp|]. weaken_starts Hf.
      * rewrite map_app, <- Hlog, <- !app_assoc. reflexivity.
      * rewrite scan_starts_snoc. cbn [isScanning].
        apply Scanning with (t := t)
                            (d := Nat.max nw d + late + SCANNING_DURATION);
          try reflexivity.
        apply Forall_app. split; [weaken_starts Hf|].
        constructor; [cbn beta; lia | constructor].
Qed.

Lemma queue_inv_play sch : forall arrived s,
  Inv arrived s -> Inv (arrived ++ arrivals sch) (play sch s).
Proof.
  induction sch as [|turn sch IH]; intros arrived s H.
  - simpl. now rewrite app_nil_r.
  - destruct turn as [dt t | late]; simpl.
    + replace (arrived ++ t :: arrivals sch)
        with ((arrived ++ [t]) ++ arrivals sch) by now rewrite <- app_assoc.
      apply IH. now apply queue_inv_arrive.
    + apply IH. now apply queue_inv_fire.
Qed.

Lemma work_fire arrived s late :
  Inv arrived s -> timers s <> [] ->
  S (work (step s (TimerFires late))) = work s.
Proof.
  intros [_ _ Hph] Hne.
  destruct s as [tl vt ic tu ds pq pr tms nw lg].
  destruct Hph as [Hp Ht Hq Hd Hf | u d Hp Ht Hd Hf | d Hp Ht Hd Hf];
    project_state; subst; [congruence | |]; step_state.
  - project_state. lia.
  - destruct pq as [|t rest]; step_state; project_state; cbn [length]; lia.
Qed.

Lemma drain_spec fuel : forall arrived s,
  Inv arrived s -> work s <= fuel ->
  Inv arrived (drain fuel s) /\ timers (drain fuel s) = [].
Proof.
  induction fuel as [|fuel IH]; intros arrived s H Hw.
  - simpl. split; [exact H|].
    destruct H as [_ _ Hph].
    destruct Hph as [Hp Ht Hq Hd Hf | u d Hp Ht Hd Hf | d Hp Ht Hd Hf];
      [exact Ht | |]; unfold work in Hw; rewrite Ht in Hw; simpl in Hw; lia.
  - cbn [Queue.drain]. destruct (timers s) as [|tm tms] eqn:E; [now split|].
    apply IH; [now apply queue_inv_fire|].
    assert (Hne : timers s <> []) by (rewrite E; discriminate).
    pose proof (work_fire 0 H Hne). lia.
Qed.

Lemma work_bound s : work s <= 2 * S (length (pendingTiles s)).
Proof.
  unfold work. destruct (timers s) as [|tm [|? ?]]; try lia.
  destruct (callback tm); lia.
Qed.

(** A tile that arrives while another is being processed only joins the
    queue. *)
Lemma arrive_while_processing s dt t :
  processing s = true ->
  let s1 := step s (Received dt (change t)) in
  droneState s1 = droneState s
  /\ droneLog s1 = droneLog s
  /\ timers s1 = timers s
  /\ pendingTiles s1 = pendingTiles s ++ [t]
  /\ processing s1 = true.
Proof.
  intros Hp. destruct s as [tl vt ic tu ds pq pr tms nw lg].
  project_state. subst pr. step_state. project_state. now repeat split.
Qed.

(** C6. Tiles that arrive in the order [A, B, C, ...], however their
    arrival is interleaved with the timers, drive the drone through
    Scanning(A), Idle, Scanning(B), Idle, Scanning(C), Idle, ... and
    nothing else, in arrival order; the queue then is empty and the drone
    idle. Two scans start at least the scan duration plus the 300 ms
    settle delay apart, at most one timer is ever pending, and a tile
    that arrives while another is being processed changes neither the
    drone state nor the running timer: it only joins the end of the
    queue. *)
Theorem fifo_animation :
  forall (sch : list Turn),
    let s := settle_all (play sch init) in
    map snd (droneLog s) = flat_map cycle (arrivals sch)
    /\ spaced full_cycle (scan_starts (droneLog s))
    /\ timers s = []
    /\ pendingTiles s = []
    /\ processing s = false
    /\ isScanning (droneState s) = false
    /\ length (timers (play sch init)) <= 1
    /\ (forall dt t,
          let s0 := play sch init in
          let s1 := step s0 (Received dt (change t)) in
          if processing s0 then
            droneState s1 = droneState s0
            /\ droneLog s1 = droneLog s0
            /\ timers s1 = timers s0
            /\ pendingTiles s1 = pendingTiles s0 ++ [t]
          else
            isScanning (droneState s1) = true
            /\ targetTile (droneState s1) = Some t
            /\ pendingTiles s1 = []).
Proof.
  intros sch s.
  pose proof (queue_inv_play sch queue_inv_init) as H0. simpl in H0.
  destruct (drain_spec H0 (work_bound (play sch init))) as [H Ht].
  fold (settle_all (play sch init)) in H, Ht. fold s in H, Ht.
  destruct H as [Hsp Hlog Hph].
  assert (Hidle : pendingTiles s = [] /\ processing s = false
                  /\ isScanning (droneState s) = false).
  { destruct Hph as [Hp _ Hq Hd _ | u d _ Ht' _ _ | d _ Ht' _ _];
      [auto | congruence | congruence]. }
  destruct Hidle as (Hq & Hp & Hd).
  split.
  { unfold future in Hlog. rewrite Ht, Hq in Hlog. simpl in Hlog.
    now rewrite app_nil_r in Hlog. }
  split; [exact Hsp|]. split; [exact Ht|]. split; [exact Hq|].
  split; [exact Hp|]. split; [exact Hd|]. split.
  { destruct H0 as [_ _ Hph0].
    destruct Hph0 as [_ E _ _ _ | u d _ E _ _ | d _ E _ _]; rewrite E; simpl; lia. }
  intros dt t s0 s1.
  destruct (processing s0) eqn:Ep.
  - destruct (arrive_while_processing s0 dt t Ep) as (A1 & A2 & A3 & A4 & _).
    now repeat split.
  - destruct H0 as [_ _ Hph0]. fold s0 in Hph0.
    destruct Hph0 as [_ E Eq _ _ | u d Ep' _ _ _ | d Ep' _ _ _];
      [|congruence|congruence].
    subst s1. destruct s0 as [tl vt ic tu ds pq pr tms nw lg].
    project_state. subst. step_state. project_state. now repeat split.
Qed.

End WithEnvironment.

Import Examples.

Lemma fifo_animation_witness :
  let s := settle_all 2000
             (play 2000 [Arrive 0 tile_A; Arrive 5 tile_B; Fire 0; Arrive 10 tile_C]
                (Client.init "http://localhost:8000")) in
  map snd (droneLog s)
  = [scanning tile_A; parked tile_A; scanning tile_B; parked tile_B;
     scanning tile_C; parked tile_C]
  /\ scan_starts (droneLog s) = [0; 2300; 4600]
  /\ processing s = false.
Proof.
  cbv zeta.
  destruct (@fifo_animation 2000 "http://localhost:8000"
              [Arrive 0 tile_A; Arrive 5 tile_B; Fire 0; Arrive 10 tile_C])
    as (H1 & _ & _ & _ & H5 & _).
  split; [exact H1|]. split; [reflexivity | exact H5].
Defined.

End QueueFacts.

(** ** The service: start-up scan, registry growth, delivery order *)

Module ServerApiFacts.

Import Json Server ServerApi ServerFacts.

Section WithEnvironment.

Variable cfg : Config.
Variable JSON_parse : string -> option value.

Local Abbreviation processNewTile := (processNewTile cfg JSON_parse).
Local Abbreviation step := (step cfg JSON_parse).
Local Abbreviation run := (run cfg JSON_parse).
Local Abbreviation accepts := (accepts JSON_parse).
Local Abbreviation recordOf := (recordOf cfg JSON_parse).
Local Abbreviation startupScan := (startupScan cfg JSON_parse).
Local Abbreviation registrations := (registrations cfg JSON_parse).
Local Abbreviation registration_of := (registration_of cfg JSON_parse).
Local Abbreviation enriched := (enriched cfg).
Local Abbreviation all_enriched := (all_enriched cfg).

(** *** The registry only grows *)

Lemma keys_set_extends (V : Type) k (v : V) (m : JsMap.t V) :
  exists added, JsMap.keys (JsMap.set k v m) = JsMap.keys m ++ added.
Proof.
  destruct (in_dec string_dec k (JsMap.keys m)) as [Hin | Hout].
  - exists []. rewrite app_nil_r. now apply JsMapFacts.keys_set_present.
  - exists [k]. rewrite JsMapFacts.set_absent by exact Hout.
    unfold JsMap.keys. now rewrite map_app.
Qed.

Lemma processNewTile_keys_extend fs now filePath s :
  exists added,
    JsMap.keys (tilesMetadata (processNewTile fs now filePath s))
    = JsMap.keys (tilesMetadata s) ++ added.
Proof.
  destruct (accepts fs filePath) eqn:A.
  - destruct (processNewTile_accepts cfg JSON_parse fs now filePath s A) as (_ & _ & C3 & _).
    rewrite C3. apply keys_set_extends.
  - rewrite processNewTile_rejects by exact A. exists []. now rewrite app_nil_r.
Qed.

Lemma step_keys_extend s e :
  exists added,
    JsMap.keys (tilesMetadata (step s e)) = JsMap.keys (tilesMetadata s) ++ added.
Proof.
  destruct e as [ws|ws|ws|ws r|ev fs now|id]; simpl;
    try (exists []; now rewrite app_nil_r).
  - destruct ev; simpl; try apply processNewTile_keys_extend.
    exists []. now rewrite app_nil_r.
  - rewrite get_tile_by_id_state. exists []. now rewrite app_nil_r.
Qed.

(** X1. No event removes, renames or reorders a registered id: after
    any sequence of events the registry's keys are the keys it had, in
    the same order, followed by the ids registered since; its size never
    decreases. *)
Theorem registry_is_append_only :
  forall (evs : list Event) (s : State),
    exists added,
      JsMap.keys (tilesMetadata (run evs s))
      = JsMap.keys (tilesMetadata s) ++ added
      /\ JsMap.size (tilesMetadata (run evs s))
         = JsMap.size (tilesMetadata s) + length added.
Proof.
  intros evs.
  assert (G : forall s, exists added,
             JsMap.keys (tilesMetadata (run evs s))
             = JsMap.keys (tilesMetadata s) ++ added).
  { induction evs as [|e evs IH]; intros s.
    - exists []. now rewrite app_nil_r.
    - destruct (IH (step s e)) as (a2 & E2).
      destruct (step_keys_extend s e) as (a1 & E1).
      exists (a1 ++ a2).
      change (run (e :: evs) s) with (run evs (step s e)).
      now rewrite E2, E1, app_assoc. }
  intros s. destruct (G s) as (added & E). exists added. split; [exact E|].
  apply (f_equal (@length string)) in E.
  unfold JsMap.keys in E. rewrite length_app, !length_map in E. exact E.
Qed.

(** *** Enrichment *)

(** X2. The record that [processNewTile] builds carries every field of
    the sidecar except the four it sets itself: [id], [tileUrl],
    [tilejsonUrl] and [timestamp] always hold the values derived from the
    file name, the public TiTiler URL and the clock, whatever the sidecar
    says under those names. *)
Theorem enrichment_keeps_sidecar_fields :
  forall (metadata : value) (tileId tifFilename : string) (now : float)
         (key : string),
    let tile := tileDataOf cfg metadata tileId tifFilename now in
    JsMap.get "id" tile = Some (JStr tileId)
    /\ JsMap.get "tileUrl" tile
       = Some (JStr (TITILER_PUBLIC_URL cfg ++
                     "/cog/tiles/WebMercatorQuad/{z}/{x}/{y}?url=/data/" ++
                     tifFilename))
    /\ JsMap.get "tilejsonUrl" tile
       = Some (JStr (TITILER_PUBLIC_URL cfg ++
                     "/cog/tilejson.json?url=/data/" ++ tifFilename))
    /\ JsMap.get "timestamp" tile = Some (JNum now)
    /\ (key <> "id" -> key <> "tileUrl" -> key <> "tilejsonUrl" ->
        key <> "timestamp" ->
        JsMap.get key tile = JsMap.get key (own_props metadata)).
Proof.
  intros metadata tileId tifFilename now key tile. subst tile.
  unfold tileDataOf. repeat split.
  - rewrite !JsMapFacts.get_set_ne by discriminate. apply JsMapFacts.get_set_eq.
  - rewrite !JsMapFacts.get_set_ne by discriminate. apply JsMapFacts.get_set_eq.
  - rewrite !JsMapFacts.get_set_ne by discriminate. apply JsMapFacts.get_set_eq.
  - apply JsMapFacts.get_set_eq.
  - intros H1 H2 H3 H4.
    rewrite !JsMapFacts.get_set_ne by congruence. reflexivity.
Qed.

(** *** The start-up scan *)

Lemma recordOf_enriched fs now filePath :
  enriched (tileIdOf filePath) (recordOf fs now filePath).
Proof.
  unfold ServerApi.enriched, Server.recordOf, tifFilenameOf, tileDataOf.
  repeat split.
  - rewrite !JsMapFacts.get_set_ne by discriminate. apply JsMapFacts.get_set_eq.
  - rewrite !JsMapFacts.get_set_ne by discriminate. apply JsMapFacts.get_set_eq.
  - rewrite !JsMapFacts.get_set_ne by discriminate. apply JsMapFacts.get_set_eq.
  - exists now. apply JsMapFacts.get_set_eq.
Qed.

Lemma processNewTile_enriched fs now filePath s :
  all_enriched (tilesMetadata s) ->
  all_enriched (tilesMetadata (processNewTile fs now filePath s)).
Proof.
  intros H. destruct (accepts fs filePath) eqn:A.
  - destruct (processNewTile_accepts cfg JSON_parse fs now filePath s A)
      as (_ & _ & C3 & _).
    rewrite C3. unfold all_enriched in *. rewrite Forall_forall in *.
    intros e He. apply JsMapFacts.In_set_inv in He. destruct He as [-> | He].
    + apply recordOf_enriched.
    + now apply H.
  - now rewrite processNewTile_rejects.
Qed.

Lemma step_enriched s e :
  all_enriched (tilesMetadata s) -> all_enriched (tilesMetadata (step s e)).
Proof.
  intros H. destruct e as [ws|ws|ws|ws r|ev fs now|id]; simpl; try exact H.
  - destruct ev; simpl; try exact H; now apply processNewTile_enriched.
  - now rewrite get_tile_by_id_state.
Qed.

Lemma run_enriched evs : forall s,
  all_enriched (tilesMetadata s) -> all_enriched (tilesMetadata (run evs s)).
Proof.
  induction evs as [|e evs IH]; intros s H; [exact H|].
  change (run (e :: evs) s) with (run evs (step s e)).
  apply IH. now apply step_enriched.
Qed.

(** What a run of [processNewTile] over a list of files does. *)
Lemma scan_fold fs dir (now_at : string -> float) (files : list string) :
  forall s,
    let s' := fold_left
                (fun st file =>
                   processNewTile fs (now_at file) (Path.join dir file) st)
                files s in
    clients s' = clients s
    /\ (clients s = [] -> sent s' = sent s)
    /\ (Inv s -> Inv s')
    /\ (all_enriched (tilesMetadata s) -> all_enriched (tilesMetadata s'))
    /\ (forall k,
          In k (JsMap.keys (tilesMetadata s')) <->
          In k (JsMap.keys (tilesMetadata s))
          \/ exists f, In f files
                       /\ accepts fs (Path.join dir f) = true
                       /\ k = tileIdOf (Path.join dir f)).
Proof.
  induction files as [|f files IH]; intros s; cbn [fold_left].
  - split; [reflexivity|]. do 3 (split; [tauto|]).
    intros k. split; [tauto | intros [H | (f & [] & _)]; exact H].
  - destruct (IH (processNewTile fs (now_at f) (Path.join dir f) s))
      as (H1 & H2 & H3 & H4 & H5).
    cbv zeta. cbv zeta in H1, H2, H3, H4, H5.
    set (s1 := processNewTile fs (now_at f) (Path.join dir f) s) in *.
    assert (Hc : clients s1 = clients s /\ (clients s = [] -> sent s1 = sent s)
                 /\ (forall k, In k (JsMap.keys (tilesMetadata s1)) <->
                               In k (JsMap.keys (tilesMetadata s))
                               \/ (accepts fs (Path.join dir f) = true
                                   /\ k = tileIdOf (Path.join dir f)))).
    { subst s1. destruct (accepts fs (Path.join dir f)) eqn:A.
      - destruct (processNewTile_accepts cfg JSON_parse fs (now_at f)
                    (Path.join dir f) s A) as (C1 & _ & C3 & C4).
        split; [exact C1|]. split.
        + intros E. rewrite C4. unfold receivers. rewrite E. apply app_nil_r.
        + intros k. rewrite C3, JsMapFacts.In_keys_set. intuition.
      - rewrite processNewTile_rejects by exact A.
        split; [reflexivity|]. split; [reflexivity|].
        intros k. intuition congruence. }
    destruct Hc as (Hc1 & Hc2 & Hc3).
    split; [congruence|]. split.
    { intros E. rewrite H2 by congruence. now apply Hc2. }
    split.
    { intros Hi. apply H3. subst s1. now apply registry_inv_processNewTile. }
    split.
    { intros He. apply H4. subst s1. now apply processNewTile_enriched. }
    intros k. rewrite H5, Hc3. split.
    + intros [[H | (A & E)] | (g & Hg & A & E)].
      * now left.
      * right. exists f. simpl. auto.
      * right. exists g. simpl. auto.
    + intros [H | (g & [<- | Hg] & A & E)].
      * left. now left.
      * left. right. now split.
      * right. exists g. auto.
Qed.

(** X3. The scan that [initializeWatcher] makes before it starts
    watching, run on the fresh service: it writes to no socket and adds no
    client, and the ids it registers are exactly the tile ids of the
    listed files whose name ends in [.json] and that [processNewTile]
    accepts (raster on disk, sidecar readable); nothing is registered when
    the tiles directory does not exist. *)
Theorem startup_scan_registers_paired_sidecars :
  forall (fs : FileSystem) (files : list string) (now_at : string -> float),
    let s := startupScan fs files now_at init in
    sent s = []
    /\ clients s = []
    /\ Inv s
    /\ (forall k,
          In k (JsMap.keys (tilesMetadata s)) <->
          existsSync fs (TILES_DIR cfg) = true
          /\ exists f, In f files
                       /\ Path.endsWith f ".json" = true
                       /\ accepts fs (Path.join (TILES_DIR cfg) f) = true
                       /\ k = tileIdOf (Path.join (TILES_DIR cfg) f)).
Proof.
  intros fs files now_at s. subst s. unfold ServerApi.startupScan.
  destruct (existsSync fs (TILES_DIR cfg)) eqn:D.
  - destruct (scan_fold fs (TILES_DIR cfg) now_at
                (filter (fun f => Path.endsWith f ".json") files) init)
      as (H1 & H2 & H3 & _ & H5).
    cbv zeta in H1, H2, H3, H5.
    split; [now apply H2|]. split; [exact H1|].
    split; [apply H3, registry_inv_init|].
    intros k. rewrite H5. simpl. split.
    + intros [[] | (f & Hf & A & E)]. apply filter_In in Hf.
      split; [reflexivity|]. exists f. tauto.
    + intros (_ & f & Hf & Hj & A & E). right. exists f.
      rewrite filter_In. tauto.
  - split; [reflexivity|]. split; [reflexivity|].
    split; [apply registry_inv_init|].
    intros k. simpl. split; [tauto | intros [H _]; discriminate].
Qed.

(** X4. In every state the service reaches after the start-up scan,
    each record of the registry carries, under [id], the key it is stored
    under, under [tileUrl] and [tilejsonUrl] the public TiTiler URLs of
    the raster named after that key, and a numeric [timestamp]. *)
Theorem stored_records_are_enriched :
  forall (fs : FileSystem) (files : list string) (now_at : string -> float)
         (evs : list Event) (k : string) (tile : object),
    JsMap.get k (tilesMetadata (run evs (startupScan fs files now_at init)))
    = Some tile ->
    enriched k tile.
Proof.
  intros fs files now_at evs k tile H.
  assert (E : all_enriched
                (tilesMetadata (run evs (startupScan fs files now_at init)))).
  { apply run_enriched. unfold ServerApi.startupScan.
    destruct (existsSync fs (TILES_DIR cfg)); [|constructor].
    apply (scan_fold fs (TILES_DIR cfg) now_at
             (filter (fun f => Path.endsWith f ".json") files) init).
    constructor. }
  apply JsMapFacts.get_Some_In in H.
  unfold all_enriched in E. rewrite Forall_forall in E.
  exact (E (k, tile) H).
Qed.

(** *** Sockets that leave, sockets that stay *)

Lemma not_In_set_delete ws l : ~ In ws (set_delete ws l).
Proof.
  unfold set_delete. rewrite filter_In, Nat.eqb_refl. intros [_ H]. discriminate.
Qed.

Lemma In_set_delete_other ws w l :
  w <> ws -> (In w (set_delete ws l) <-> In w l).
Proof.
  intros Hne. unfold set_delete. rewrite filter_In. split; [tauto|].
  intros H. split; [exact H|].
  apply negb_true_iff, Nat.eqb_neq. congruence.
Qed.

(** X5. Once the ['close'] or the ['error'] handler of a socket has
    run, nothing more is written to that socket, whatever happens next;
    the registry and the membership of every other socket are as
    before. *)
Theorem closed_socket_receives_nothing_more :
  forall (s : State) (ws : WebSocket) (evs : list Event),
    existsb (is_connection_of ws) evs = false ->
    outbox ws (run evs (step s (Close ws))) = outbox ws s
    /\ outbox ws (run evs (step s (SocketError ws))) = outbox ws s
    /\ tilesMetadata (step s (Close ws)) = tilesMetadata s
    /\ tilesMetadata (step s (SocketError ws)) = tilesMetadata s
    /\ (forall w, w <> ws ->
                  (In w (clients (step s (Close ws))) <-> In w (clients s))
                  /\ (In w (clients (step s (SocketError ws))) <-> In w (clients s))).
Proof.
  intros s ws evs H. split; [|split].
  - rewrite (run_silent cfg JSON_parse ws evs _ H); [reflexivity|].
    apply not_In_set_delete.
  - rewrite (run_silent cfg JSON_parse ws evs _ H); [reflexivity|].
    apply not_In_set_delete.
  - split; [reflexivity|]. split; [reflexivity|].
    intros w Hw. split; now apply In_set_delete_other.
Qed.

Lemma step_open_socket ws s e :
  Inv s -> In ws (clients s) -> readyState s ws = OPEN ->
  keeps_open ws e = true ->
  outbox ws (step s e) = outbox ws s ++ map MNewTile (registration_of e)
  /\ In ws (clients (step s e))
  /\ readyState (step s e) ws = OPEN.
Proof.
  intros Hinv Hin Hopen Hk.
  assert (Same : forall s', sent s' = sent s -> outbox ws s' = outbox ws s ++ []).
  { intros s' E. unfold outbox. now rewrite E, app_nil_r. }
  assert (Proc : forall fs now p,
            outbox ws (processNewTile fs now p s)
            = outbox ws s ++
              map MNewTile (if accepts fs p then [recordOf fs now p] else [])
            /\ In ws (clients (processNewTile fs now p s))
            /\ readyState (processNewTile fs now p s) ws = OPEN).
  { intros fs now p. destruct (accepts fs p) eqn:A.
    - destruct (processNewTile_accepts cfg JSON_parse fs now p s A)
        as (C1 & C2 & _ & C4).
      rewrite C1, C2. split; [|now split].
      unfold outbox at 1. rewrite C4, outbox_app. f_equal.
      rewrite delivered_once by (apply NoDup_filter, Hinv).
      rewrite set_has_receivers, Hopen.
      apply set_has_In in Hin. now rewrite Hin.
    - rewrite processNewTile_rejects by exact A.
      split; [now apply Same | now split]. }
  destruct e as [w|w|w|w r|ev fs now|id]; simpl in Hk |- *.
  - apply negb_true_iff in Hk. split; [|split].
    + unfold outbox. simpl. rewrite filter_app. simpl. rewrite Hk.
      now rewrite app_nil_r, app_nil_r.
    + apply In_set_add. now right.
    + destruct (Nat.eqb ws w); [reflexivity | exact Hopen].
  - apply negb_true_iff, Nat.eqb_neq in Hk. split; [now apply Same|].
    split; [|exact Hopen]. apply In_set_delete_other; congruence.
  - apply negb_true_iff, Nat.eqb_neq in Hk. split; [now apply Same|].
    split; [|exact Hopen]. apply In_set_delete_other; congruence.
  - split; [now apply Same|]. split; [exact Hin|].
    destruct (Nat.eqb ws w) eqn:E; [|exact Hopen].
    apply Nat.eqb_eq in E. subst w. rewrite Nat.eqb_refl in Hk. simpl in Hk.
    now destruct r.
  - destruct ev; simpl; try apply Proc. now split; [apply Same|].
  - rewrite get_tile_by_id_state. now split; [apply Same|].
Qed.

Lemma run_open_socket ws evs : forall s,
  Inv s -> In ws (clients s) -> readyState s ws = OPEN ->
  forallb (keeps_open ws) evs = true ->
  outbox ws (run evs s) = outbox ws s ++ map MNewTile (registrations evs).
Proof.
  induction evs as [|e evs IH]; intros s Hinv Hin Hopen Hk.
  - simpl. now rewrite app_nil_r.
  - simpl in Hk. apply andb_prop in Hk. destruct Hk as [Hk1 Hk2].
    destruct (@step_open_socket ws s e Hinv Hin Hopen Hk1) as (E & Hin' & Hopen').
    change (run (e :: evs) s) with (run evs (step s e)).
    rewrite IH; try assumption; [|now apply registry_inv_step].
    rewrite E. unfold ServerApi.registrations. cbn [flat_map].
    now rewrite map_app, app_assoc.
Qed.

(** X6. A socket that connects and from then on stays in the client set
    with [readyState] [OPEN] is written, after its snapshot, one
    ['new_tile'] message for every registration that follows, in the
    order of the registrations, and nothing else. *)
Theorem open_socket_receives_registrations_in_order :
  forall (before after : list Event) (ws : WebSocket),
    existsb (is_connection_of ws) before = false ->
    forallb (keeps_open ws) after = true ->
    outbox ws (run (before ++ Connection ws :: after) init)
    = MInitial (JsMap.values (tilesMetadata (run before init)))
               (TITILER_PUBLIC_URL cfg)
      :: map MNewTile (registrations after).
Proof.
  intros before after ws Hb Ha.
  unfold Server.run at 1. rewrite fold_left_app. cbn [fold_left].
  fold (run before init).
  set (s0 := run before init).
  fold (run after (step s0 (Connection ws))).
  assert (Hinv : Inv (step s0 (Connection ws))).
  { apply registry_inv_step. apply registry_inv_run, registry_inv_init. }
  rewrite run_open_socket; try assumption.
  - cbn [Server.step]. rewrite outbox_on_connection.
    unfold s0. rewrite run_silent; [reflexivity | exact Hb | simpl; tauto].
  - cbn [Server.step]. unfold on_connection, send. cbn [clients set_ready].
    apply In_set_add. now left.
  - cbn [Server.step]. unfold on_connection, send. cbn [readyState set_ready].
    now rewrite Nat.eqb_refl.
Qed.

(** *** Listing and fetching *)

(** X7. [GET /api/tiles] changes nothing and lists as many tiles as the
    registry holds, the number [GET /health] reports; every tile it lists
    carries its id and is what [GET /api/tiles/:id] answers, with status
    200, for that id. *)
Theorem listed_tiles_can_be_fetched_by_id :
  forall (evs : list Event) (up : float),
    let s := run evs init in
    let listing := snd (get_tiles cfg s) in
    fst (get_tiles cfg s) = s
    /\ fst (get_health up s) = s
    /\ count listing = JsMap.size (tilesMetadata s)
    /\ count listing = tilesCount (snd (get_health up s))
    /\ count listing = length (tiles listing)
    /\ Forall (fun tile =>
                 exists k, JsMap.get "id" tile = Some (JStr k)
                           /\ get_tile_by_id k s
                              = (s, {| status := 200; body := tile |}))
              (tiles listing).
Proof.
  intros evs up s listing. subst listing. unfold get_tiles, get_health.
  cbn [fst snd count tiles tilesCount].
  unfold JsMap.values, JsMap.size. rewrite length_map.
  repeat split.
  destruct (registry_inv_run cfg JSON_parse evs registry_inv_init)
    as (_ & Hk & Hid). fold s in Hk, Hid.
  apply Forall_forall. intros tile Hin.
  apply in_map_iff in Hin. destruct Hin as ([k v] & E & Hin). simpl in E. subst v.
  exists k. split.
  - unfold keyed_by_id in Hid. rewrite Forall_forall in Hid.
    exact (Hid (k, tile) Hin).
  - unfold get_tile_by_id.
    assert (G : JsMap.get k (tilesMetadata s) = Some tile).
    { clear Hid. revert Hk Hin. generalize (tilesMetadata s) as m.
      induction m as [|[k0 v0] m IH]; simpl; [tauto|].
      intros Hnd [H | H].
      - inversion H; subst. now rewrite String.eqb_refl.
      - inversion Hnd as [|? ? Hn Hd]; subst.
        destruct (String.eqb k k0) eqn:E.
        + apply String.eqb_eq in E. subst k0. exfalso. apply Hn.
          change k with (fst (k, tile)). now apply in_map.
        + now apply IH. }
    now rewrite G.
Qed.

End WithEnvironment.

Import Examples ScanExamples.

Lemma enrichment_keeps_sidecar_fields_witness :
  JsMap.get "width"
    (tileDataOf default_config sidecar_value "tile_0_0" "tile_0_0.tif" 1000)
  = Some (JNum 1097).
Proof.
  destruct (@enrichment_keeps_sidecar_fields default_config sidecar_value
              "tile_0_0" "tile_0_0.tif" 1000 "width") as (_ & _ & _ & _ & H).
  rewrite H by discriminate. reflexivity.
Defined.

Lemma stored_records_are_enriched_witness :
  enriched default_config "tile_0_0"
    (recordOf default_config parse_known tiles_disk 1000 sidecar_path).
Proof.
  apply (@stored_records_are_enriched default_config parse_known
           tiles_disk listing (fun _ => 1000%float) [Connection 1]
           "tile_0_0" _ eq_refl).
Defined.

Lemma closed_socket_receives_nothing_more_witness :
  let s := run default_config parse_known [Connection 1; Connection 2] init in
  outbox 1
    (run default_config parse_known
       [Watch (WAdd sidecar_path) (disk true sidecar_text) 1000]
       (step default_config parse_known s (Close 1)))
  = outbox 1 s.
Proof.
  cbv zeta.
  apply (@closed_socket_receives_nothing_more default_config parse_known
           (run default_config parse_known [Connection 1; Connection 2] init)
           1 [Watch (WAdd sidecar_path) (disk true sidecar_text) 1000] eq_refl).
Defined.

Lemma open_socket_receives_registrations_in_order_witness :
  outbox 7
    (run default_config parse_known
       ([Watch (WAdd sidecar_path) (disk true sidecar_text) 1000]
        ++ Connection 7
        :: [Connection 8;
            Watch (WChange sidecar_path) (disk true sidecar_text) 2000;
            Close 8;
            Watch (WChange sidecar_path) (disk true sidecar_text) 3000])
       init)
  = [MInitial
       [recordOf default_config parse_known (disk true sidecar_text) 1000
          sidecar_path]
       "http://localhost:8000";
     MNewTile (recordOf default_config parse_known (disk true sidecar_text)
                 2000 sidecar_path);
     MNewTile (recordOf default_config parse_known (disk true sidecar_text)
                 3000 sidecar_path)].
Proof.
  apply (@open_socket_receives_registrations_in_order default_config parse_known
           [Watch (WAdd sidecar_path) (disk true sidecar_text) 1000]
           [Connection 8;
            Watch (WChange sidecar_path) (disk true sidecar_text) 2000;
            Close 8;
            Watch (WChange sidecar_path) (disk true sidecar_text) 3000]
           7 eq_refl eq_refl).
Defined.

End ServerApiFacts.

(** ** The hook on arbitrary states: what is known, what is revealed *)

Module HookFacts.

Import Client HookView Queue.

Ltac hook_fields :=
  cbv beta iota zeta delta
    [awaiting setPending setTiles setNow setProcessing setDroneState
     setTimeout setTimers setVisibleTiles setIsConnected setTitilerUrl
     tiles visibleTiles isConnected titilerUrl droneState pendingTiles
     processing timers now droneLog] in *.

Ltac hook_eval :=
  cbv beta iota zeta delta
    [onmessage processNextTile scanComplete settle run_callback onopen onclose
     change snapshot setPending setTiles setNow setProcessing setDroneState
     setTimeout setTimers setVisibleTiles setIsConnected setTitilerUrl
     tiles visibleTiles isConnected titilerUrl droneState pendingTiles
     processing timers now droneLog
     msg_type msg_tile msg_tiles msg_titilerUrl orb negb];
  cbn [app length Nat.eqb Nat.ltb Nat.leb orb negb].

Section WithEnvironment.

Variable SCANNING_DURATION : nat.

Local Abbreviation step := (step SCANNING_DURATION).
Local Abbreviation run := (run SCANNING_DURATION).
Local Abbreviation processNextTile := (processNextTile SCANNING_DURATION).
Local Abbreviation onmessage := (onmessage SCANNING_DURATION).
Local Abbreviation run_callback := (run_callback SCANNING_DURATION).

Lemma scans_under_way_app l1 l2 :
  scans_under_way (l1 ++ l2) = scans_under_way l1 ++ scans_under_way l2.
Proof. unfold scans_under_way. apply flat_map_app. Qed.

(** [processNextTile] moves at most the head of the queue into a scan;
    it changes neither map. *)
Lemma processNextTile_frame s :
  tiles (processNextTile s) = tiles s
  /\ visibleTiles (processNextTile s) = visibleTiles s
  /\ awaiting (processNextTile s) = awaiting s
  /\ isConnected (processNextTile s) = isConnected s.
Proof.
  destruct s as [tl vt ic tu ds pq pr tms nw lg].
  destruct pr; [hook_eval; hook_fields; now repeat split|].
  destruct pq as [|t rest]; hook_eval; hook_fields; [now repeat split|].
  repeat split. rewrite scans_under_way_app. cbn. now rewrite <- app_assoc.
Qed.

(** The timer that fires is one of the pending ones, and the others
    stay, in their order. *)
Lemma next_timer_split ts tm rest :
  next_timer ts = Some (tm, rest) ->
  exists l1 l2, ts = l1 ++ tm :: l2 /\ rest = l1 ++ l2.
Proof.
  revert tm rest. induction ts as [|t ts IH]; intros tm rest H; [discriminate|].
  simpl in H. destruct (next_timer ts) as [[m rest']|] eqn:E.
  - destruct (Nat.leb (due t) (due m)).
    + inversion H; subst. now exists [], rest.
    + inversion H; subst. destruct (IH _ _ eq_refl) as (l1 & l2 & -> & ->).
      now exists (t :: l1), l2.
  - inversion H; subst. destruct ts; [|simpl in E; destruct (next_timer ts) as [[? ?]|];
      [destruct (Nat.leb _ _)|]; discriminate].
    now exists [], [].
Qed.

(** One turn without snapshot: the known tiles gain the arrival, the
    revealed tiles gain at most a tile that was awaiting its reveal, and
    what awaits is what awaited, plus the arrival, minus the reveal. *)
Lemma step_effect s e :
  no_snapshot e = true ->
  (match arrival_of e with
   | [t] => tiles (step s e) = JsMap.set (id t) t (tiles s)
   | _ => tiles (step s e) = tiles s
   end)
  /\ (visibleTiles (step s e) = visibleTiles s
      /\ incl (awaiting s ++ arrival_of e) (awaiting (step s e))
      /\ incl (awaiting (step s e)) (awaiting s ++ arrival_of e)
      \/ exists t,
           In t (awaiting s)
           /\ arrival_of e = []
           /\ visibleTiles (step s e) = JsMap.set (id t) t (visibleTiles s)
           /\ incl (awaiting s) (t :: awaiting (step s e))
           /\ incl (awaiting (step s e)) (awaiting s)).
Proof.
  intros Hns. destruct e as [|dt message|dt|late].
  - (* Opened *)
    simpl. split; [reflexivity|]. left. split; [reflexivity|].
    unfold awaiting. simpl. rewrite app_nil_r. split; apply incl_refl.
  - (* Received *)
    destruct message as [ty mts mt mu]. simpl in Hns. cbn [arrival_of msg_type msg_tile].
    destruct ty.
    + (* initial, no tiles *)
      assert (E : tiles (step s (Received dt {| msg_type := initial; msg_tiles := mts;
                                                msg_tile := mt; msg_titilerUrl := mu |})) = tiles s
                  /\ visibleTiles (step s (Received dt {| msg_type := initial; msg_tiles := mts;
                                                msg_tile := mt; msg_titilerUrl := mu |})) = visibleTiles s
                  /\ awaiting (step s (Received dt {| msg_type := initial; msg_tiles := mts;
                                                msg_tile := mt; msg_titilerUrl := mu |})) = awaiting s).
      { destruct s as [tl vt ic tu ds pq pr tms nw lg].
        destruct mts as [[|x xs]|]; [|discriminate|];
          cbv beta iota zeta delta [Client.step]; hook_eval;
          (destruct mu as [v|]; [destruct (String.eqb v "")|]); hook_eval;
          hook_fields; now repeat split. }
      destruct E as (E1 & E2 & E3). split; [exact E1|]. left.
      split; [exact E2|]. rewrite E3, app_nil_r. split; apply incl_refl.
    + destruct mt as [t|].
      * (* new_tile *)
        cbv beta iota zeta delta [Client.step]. unfold Client.onmessage.
        cbn [msg_type msg_tile].
        match goal with |- context [Client.processNextTile _ ?x] =>
          destruct (processNextTile_frame x) as (P1 & P2 & P3 & _) end.
        rewrite P1, P2, P3.
        destruct s as [tl vt ic tu ds pq pr tms nw lg]. hook_fields.
        split; [reflexivity|]. left. split; [reflexivity|].
        rewrite app_assoc. split; apply incl_refl.
      * simpl. split; [reflexivity|]. left. split; [reflexivity|].
        rewrite app_nil_r. split; apply incl_refl.
  - (* Closed *)
    simpl. split; [reflexivity|]. left.
    destruct s as [tl vt ic tu ds pq pr tms nw lg].
    cbv beta iota zeta delta [Client.step]. hook_eval. hook_fields.
    split; [reflexivity|].
    rewrite scans_under_way_app. cbn. rewrite !app_nil_r.
    split; apply incl_refl.
  - (* TimerFires *)
    cbn [arrival_of]. cbv beta iota zeta delta [Client.step].
    destruct (next_timer (timers s)) as [[tm rest]|] eqn:E.
    + destruct (next_timer_split _ E) as (l1 & l2 & Ets & Erest).
      destruct s as [tl vt ic tu ds pq pr tms nw lg].
      cbn [timers now] in *. subst tms rest.
      destruct tm as [d cb]. cbn [callback due].
      destruct cb as [t| |].
      * (* ScanComplete *)
        hook_eval. hook_fields. split; [reflexivity|]. right. exists t.
        rewrite !scans_under_way_app. cbn. rewrite !app_nil_r.
        split; [|split; [reflexivity|split; [reflexivity|split]]].
        -- apply in_or_app. left. apply in_or_app. right. now left.
        -- intros x Hx. rewrite !in_app_iff in Hx. simpl in Hx.
           simpl. rewrite !in_app_iff. intuition.
        -- intros x Hx. rewrite !in_app_iff in Hx.
           rewrite !in_app_iff. simpl. intuition.
      * (* Settle *)
        cbn [Client.run_callback]. unfold Client.settle.
        match goal with |- context [Client.processNextTile _ ?x] =>
          destruct (processNextTile_frame x) as (P1 & P2 & P3 & _) end.
        rewrite P1, P2, P3. hook_fields.
        split; [reflexivity|]. left. split; [reflexivity|].
        rewrite !scans_under_way_app. cbn. rewrite !app_nil_r.
        split; intros x Hx; rewrite !in_app_iff in *; tauto.
      * (* Reconnect *)
        cbn [Client.run_callback]. hook_fields.
        split; [reflexivity|]. left. split; [reflexivity|].
        rewrite !scans_under_way_app. cbn. rewrite !app_nil_r.
        split; intros x Hx; rewrite !in_app_iff in *; tauto.
    + split; [reflexivity|]. left. split; [reflexivity|].
      rewrite app_nil_r. split; apply incl_refl.
Qed.

Lemma keys_set_incl (V : Type) k (v : V) (m : JsMap.t V) :
  incl (JsMap.keys m) (JsMap.keys (JsMap.set k v m)).
Proof. intros x Hx. apply JsMapFacts.In_keys_set. now right. Qed.

Lemma arrival_of_cases e :
  arrival_of e = [] \/ exists t, arrival_of e = [t].
Proof.
  destruct e as [|dt m|dt|late]; simpl; auto.
  destruct (msg_type m); auto. destruct (msg_tile m) as [t|]; eauto.
Qed.

Lemma Known_step s e :
  no_snapshot e = true -> Known s -> Known (step s e).
Proof.
  intros Hns [K1 K2 K3 K4].
  destruct (step_effect s e Hns) as (Ht & Hv).
  assert (Tk : NoDup (JsMap.keys (tiles (step s e)))
               /\ incl (JsMap.keys (tiles s)) (JsMap.keys (tiles (step s e)))
               /\ incl (map id (arrival_of e)) (JsMap.keys (tiles (step s e)))).
  { destruct (arrival_of_cases e) as [E | (t & E)]; rewrite E in *; rewrite Ht.
    - split; [exact K1|]. split; [apply incl_refl | intros x []].
    - split; [now apply JsMapFacts.NoDup_keys_set|].
      split; [apply keys_set_incl|].
      intros x [<- | []]. apply JsMapFacts.In_keys_set. now left. }
  destruct Tk as (T1 & T2 & T3).
  assert (Aw : incl (map id (awaiting s ++ arrival_of e))
                    (JsMap.keys (tiles (step s e)))).
  { rewrite map_app. apply incl_app; [|exact T3].
    eapply incl_tran; [exact K4 | exact T2]. }
  destruct Hv as [(V1 & _ & V3) | (t & Hin & Ea & V1 & _ & V3)].
  - split; try assumption.
    + now rewrite V1.
    + rewrite V1. eapply incl_tran; [exact K3 | exact T2].
    + eapply incl_tran; [|exact Aw]. now apply incl_map.
  - split; try assumption.
    + rewrite V1. now apply JsMapFacts.NoDup_keys_set.
    + rewrite V1. intros x Hx. apply JsMapFacts.In_keys_set in Hx.
      destruct Hx as [-> | Hx].
      * apply T2, K4. now apply in_map.
      * apply T2, K3, Hx.
    + eapply incl_tran; [apply incl_map, V3|].
      eapply incl_tran; [exact K4 | exact T2].
Qed.

Lemma accounted_step arrived s e :
  no_snapshot e = true ->
  accounted arrived s -> accounted (arrived ++ arrival_of e) (step s e).
Proof.
  intros Hns [R T].
  destruct (step_effect s e Hns) as (Ht & Hv). split.
  - rewrite map_app. apply incl_app.
    + destruct Hv as [(V1 & V2 & _) | (t & Hin & Ea & V1 & V2 & _)].
      * rewrite V1. intros x Hx. apply R in Hx. rewrite in_app_iff in *.
        destruct Hx as [Hx | Hx]; [now left | right].
        eapply incl_map; [exact V2|]. rewrite map_app, in_app_iff. now left.
      * rewrite V1. intros x Hx. apply R in Hx. rewrite in_app_iff in *.
        destruct Hx as [Hx | Hx].
        -- left. now apply keys_set_incl.
        -- apply (incl_map id V2) in Hx. destruct Hx as [<- | Hx].
           ++ left. apply JsMapFacts.In_keys_set. now left.
           ++ now right.
    + destruct Hv as [(_ & V2 & _) | (t & _ & Ea & _)].
      * intros x Hx. rewrite in_app_iff. right.
        eapply incl_map; [exact V2|]. rewrite map_app, in_app_iff. now right.
      * rewrite Ea. intros x [].
  - rewrite map_app.
    destruct (arrival_of_cases e) as [E | (t & E)]; rewrite E in *; rewrite Ht.
    + rewrite app_nil_r. exact T.
    + intros x Hx. apply JsMapFacts.In_keys_set in Hx. rewrite in_app_iff.
      destruct Hx as [-> | Hx]; [right; now left | left; now apply T].
Qed.

Lemma run_no_snapshot evs : forall arrived s,
  forallb no_snapshot evs = true ->
  Known s -> accounted arrived s ->
  Known (run evs s)
  /\ accounted (arrived ++ flat_map arrival_of evs) (run evs s).
Proof.
  induction evs as [|e evs IH]; intros arrived s Hns K A.
  - simpl. rewrite app_nil_r. now split.
  - simpl in Hns. apply andb_prop in Hns. destruct Hns as [H1 H2].
    change (run (e :: evs) s) with (run evs (step s e)).
    cbn [flat_map]. rewrite app_assoc.
    apply IH; [exact H2 | now apply Known_step | now apply accounted_step].
Qed.

(** X8. A ['new_tile'] message makes its tile known at once, in every
    state of the hook: the tile is stored under its id in the known
    tiles and joins, last, what awaits its reveal; the revealed tiles are
    exactly what they were. *)
Theorem new_tile_is_known_at_once :
  forall (s : State) (dt : nat) (t : TileMetadata),
    let s' := step s (Received dt (change t)) in
    tiles s' = JsMap.set (id t) t (tiles s)
    /\ JsMap.get (id t) (tiles s') = Some t
    /\ visibleTiles s' = visibleTiles s
    /\ awaiting s' = awaiting s ++ [t]
    /\ isConnected s' = isConnected s.
Proof.
  intros s dt t s'. subst s'.
  cbv beta iota zeta delta [Client.step]. unfold Client.onmessage, change.
  cbn [msg_type msg_tile].
  match goal with |- context [Client.processNextTile _ ?x] =>
    destruct (processNextTile_frame x) as (P1 & P2 & P3 & P4) end.
  rewrite P1, P2, P3, P4.
  destruct s as [tl vt ic tu ds pq pr tms nw lg]. hook_fields.
  repeat split.
  - apply JsMapFacts.get_set_eq.
  - now rewrite app_assoc.
Qed.

Lemma size_le_of_incl (V W : Type) (m : JsMap.t V) (m' : JsMap.t W) :
  NoDup (JsMap.keys m) -> incl (JsMap.keys m) (JsMap.keys m') ->
  JsMap.size m <= JsMap.size m'.
Proof.
  intros Hnd Hin. unfold JsMap.size.
  rewrite <- (length_map fst m), <- (length_map fst m').
  now apply NoDup_incl_length.
Qed.

Lemma Known_after_snapshot url dt ts u :
  Known (step (init url) (Received dt (snapshot ts u))).
Proof.
  destruct ts as [[|x xs]|].
  - cbv beta iota zeta delta [Client.step init]. hook_eval.
    destruct u as [v|]; [destruct (String.eqb v "")|]; hook_eval;
      (split; hook_fields; cbn; try constructor; intros ? []).
  - cbv beta iota zeta delta [Client.step].
    assert (Hne : x :: xs <> []) by discriminate.
    destruct (SnapshotFacts.onmessage_snapshot_nonempty SCANNING_DURATION
                (setNow (now (init url) + dt) (init url)) u Hne)
      as (Ht & Hv & _ & Hp & _ & Htm).
    split.
    + rewrite Ht. apply JsMapFacts.NoDup_keys_of_entries.
    + rewrite Hv. apply JsMapFacts.NoDup_keys_of_entries.
    + rewrite Ht, Hv. apply incl_refl.
    + unfold awaiting. rewrite Hp, Htm. intros ? [].
  - cbv beta iota zeta delta [Client.step init]. hook_eval.
    destruct u as [v|]; [destruct (String.eqb v "")|]; hook_eval;
      (split; hook_fields; cbn; try constructor; intros ? []).
Qed.

Lemma Known_run evs : forall s,
  forallb no_snapshot evs = true -> Known s -> Known (run evs s).
Proof.
  induction evs as [|e evs IH]; intros s Hns K; [exact K|].
  simpl in Hns. apply andb_prop in Hns. destruct Hns as [H1 H2].
  change (run (e :: evs) s) with (run evs (step s e)).
  apply IH; [exact H2 | now apply Known_step].
Qed.

(** X9. After the snapshot that opens a session, and as long as no
    further snapshot with tiles arrives, whatever else happens (tiles
    arriving, timers firing, the socket closing and opening): every
    revealed tile is a known tile, so the revealed count the hook returns
    never exceeds its tile count, neither map holds an id twice, and
    every tile that still awaits its reveal is known. *)
Theorem revealed_tiles_are_known :
  forall (url : string) (dt : nat) (ts : option (list TileMetadata))
         (u : option string) (evs : list Event),
    forallb no_snapshot evs = true ->
    let s := run (Received dt (snapshot ts u) :: evs) (init url) in
    incl (JsMap.keys (visibleTiles s)) (JsMap.keys (tiles s))
    /\ visibleTileCount (result s) <= tileCount (result s)
    /\ NoDup (JsMap.keys (tiles s))
    /\ NoDup (JsMap.keys (visibleTiles s))
    /\ incl (map id (awaiting s)) (JsMap.keys (tiles s)).
Proof.
  intros url dt ts u evs Hns s.
  assert (K : Known s).
  { subst s.
    change (run (Received dt (snapshot ts u) :: evs) (init url))
      with (run evs (step (init url) (Received dt (snapshot ts u)))).
    apply Known_run; [exact Hns | apply Known_after_snapshot]. }
  destruct K as [K1 K2 K3 K4].
  split; [exact K3|]. split; [|now repeat split].
  unfold result. cbn [visibleTileCount tileCount].
  now apply size_le_of_incl.
Qed.

Lemma drain_keeps fuel : forall arrived s,
  Known s -> accounted arrived s ->
  Known (drain SCANNING_DURATION fuel s)
  /\ accounted arrived (drain SCANNING_DURATION fuel s).
Proof.
  induction fuel as [|fuel IH]; intros arrived s K A; [now split|].
  cbn [drain]. destruct (timers s); [now split|].
  apply IH.
  - now apply Known_step.
  - rewrite <- (app_nil_r arrived).
    now apply (@accounted_step arrived s (TimerFires 0)).
Qed.

Lemma play_events sch :
  forallb no_snapshot (map event_of sch) = true
  /\ flat_map arrival_of (map event_of sch) = arrivals sch.
Proof.
  induction sch as [|[dt t | late] sch [IH1 IH2]]; [now split| |].
  - split; [exact IH1|]. simpl. now rewrite IH2.
  - split; [exact IH1|]. simpl. exact IH2.
Qed.

(** X10. Once the queue has run dry, every tile that arrived has been
    revealed: the revealed ids and the known ids are both exactly the ids
    that arrived, nothing awaits its reveal, and the two counts the hook
    returns are equal. *)
Theorem every_arrival_is_revealed :
  forall (url : string) (sch : list Turn),
    let s := settle_all SCANNING_DURATION
               (play SCANNING_DURATION sch (init url)) in
    (forall k, In k (JsMap.keys (visibleTiles s)) <->
               In k (map id (arrivals sch)))
    /\ (forall k, In k (JsMap.keys (tiles s)) <->
                  In k (map id (arrivals sch)))
    /\ awaiting s = []
    /\ visibleTileCount (result s) = tileCount (result s).
Proof.
  intros url sch s.
  destruct (play_events sch) as [Hns Harr].
  assert (K0 : Known (init url)).
  { split; cbn; try constructor; intros ? []. }
  assert (A0 : accounted [] (init url)).
  { split; cbn; intros ? []. }
  destruct (@run_no_snapshot (map event_of sch) [] (init url) Hns K0 A0)
    as [K1 A1].
  rewrite Harr in A1. cbn [app] in A1.
  fold (play SCANNING_DURATION sch (init url)) in K1, A1.
  destruct (@drain_keeps
              (2 * S (length (pendingTiles (play SCANNING_DURATION sch (init url)))))
              _ _ K1 A1) as [K A].
  fold (settle_all SCANNING_DURATION (play SCANNING_DURATION sch (init url))) in K, A.
  fold s in K, A.
  pose proof (QueueFacts.queue_inv_play sch
                (QueueFacts.queue_inv_init SCANNING_DURATION url)) as I1.
  cbn [app] in I1.
  destruct (QueueFacts.drain_spec I1
              (QueueFacts.work_bound (play SCANNING_DURATION sch (init url))))
    as [I Ht].
  fold (settle_all SCANNING_DURATION (play SCANNING_DURATION sch (init url))) in I, Ht.
  fold s in I, Ht.
  assert (Hq : pendingTiles s = []).
  { destruct I as [_ _ Hph].
    destruct Hph as [_ _ Hq _ _ | ? ? _ E _ _ | ? _ E _ _];
      [exact Hq | congruence | congruence]. }
  assert (Haw : awaiting s = []).
  { unfold awaiting. now rewrite Ht, Hq. }
  destruct K as [K1' K2' K3' K4']. destruct A as [R T].
  rewrite Haw in R. cbn [map] in R. rewrite app_nil_r in R.
  assert (Hv : forall k, In k (JsMap.keys (visibleTiles s)) <->
                         In k (map id (arrivals sch))).
  { intros k. split; [intros H; apply T, K3', H | apply R]. }
  assert (Hk : forall k, In k (JsMap.keys (tiles s)) <->
                         In k (map id (arrivals sch))).
  { intros k. split; [apply T | intros H; apply K3', R, H]. }
  split; [exact Hv|]. split; [exact Hk|]. split; [exact Haw|].
  unfold result. cbn [visibleTileCount tileCount].
  apply Nat.le_antisymm; apply size_le_of_incl; try assumption.
  intros k H. apply Hv, Hk, H.
Qed.

End WithEnvironment.

Import Examples.

Lemma revealed_tiles_are_known_witness :
  let s := Client.run 2000
             [Received 0 (snapshot (Some [tile_A; tile_B]) None);
              Received 0 (change tile_C); Closed 5; TimerFires 0]
             (init url0) in
  visibleTileCount (result s) <= tileCount (result s).
Proof.
  cbv zeta.
  apply (@revealed_tiles_are_known 2000 url0 0 (Some [tile_A; tile_B]) None
           [Received 0 (change tile_C); Closed 5; TimerFires 0] eq_refl).
Defined.

End HookFacts.

(** ** The snapshot sort *)

Module SortFacts.

Import Client HookView.

Lemma compareTiles_le a b :
  (compareTiles a b <=? 0)%Z = true <-> grid_le a b.
Proof.
  unfold compareTiles, grid_le. rewrite Z.leb_le.
  destruct (Z.eqb (row a) (row b)) eqn:E; simpl.
  - apply Z.eqb_eq in E. lia.
  - apply Z.eqb_neq in E. lia.
Qed.

Lemma grid_le_total a b : grid_le a b \/ grid_le b a.
Proof. unfold grid_le. lia. Qed.

Lemma grid_le_refl a : grid_le a a.
Proof. unfold grid_le. lia. Qed.

Lemma grid_le_trans a b c : grid_le a b -> grid_le b c -> grid_le a c.
Proof. unfold grid_le. lia. Qed.

Lemma insert_tile_sorted x l :
  StronglySorted grid_le l -> StronglySorted grid_le (insert_tile x l).
Proof.
  induction 1 as [|y l Hs IH Hy]; simpl.
  - constructor; constructor.
  - destruct (compareTiles x y <=? 0)%Z eqn:E.
    + apply compareTiles_le in E. constructor; [now constructor|].
      constructor; [exact E|].
      eapply Forall_impl; [|exact Hy]. intros z Hz.
      eapply grid_le_trans; eassumption.
    + assert (Hyx : grid_le y x).
      { destruct (grid_le_total x y) as [H | H]; [|exact H].
        apply compareTiles_le in H. congruence. }
      constructor; [exact IH|].
      rewrite Forall_forall in *. intros z Hz.
      apply (Permutation_in _ (SnapshotFacts.insert_tile_perm x l)) in Hz.
      destruct Hz as [<- | Hz]; [exact Hyx | now apply Hy].
Qed.

Lemma sort_tiles_sorted l : StronglySorted grid_le (sort_tiles l).
Proof.
  induction l as [|x l IH]; simpl; [constructor|].
  now apply insert_tile_sorted.
Qed.

Lemma sorted_last_is_greatest (l : list TileMetadata) lastTile :
  StronglySorted grid_le l ->
  last (map Some l) None = Some lastTile ->
  In lastTile l /\ forall t, In t l -> grid_le t lastTile.
Proof.
  induction 1 as [|x l Hs IH Hx]; [discriminate|].
  destruct l as [|y l].
  - simpl. intros [= ->]. split; [now left|].
    intros t [<- | []]. apply grid_le_refl.
  - intros H. change (last (map Some (y :: l)) None = Some lastTile) in H.
    destruct (IH H) as [Hin Hmax]. split; [now right|].
    intros t [<- | Ht]; [|now apply Hmax].
    rewrite Forall_forall in Hx. now apply Hx.
Qed.

(** X11. A snapshot with tiles leaves the drone parked, not scanning,
    on a tile of the snapshot whose grid position (row first, then
    column) is the greatest; the tiles are stored in grid order, and when
    their ids are distinct that is the order in which the hook returns
    them, as known and as revealed tiles alike. *)
Theorem snapshot_parks_on_greatest_tile :
  forall (scan : nat) (s : State) (ts : list TileMetadata) (u : option string),
    ts <> [] ->
    let s' := onmessage scan (snapshot (Some ts) u) s in
    exists lastTile,
      droneState s' = {| position := Some (center lastTile);
                         isScanning := false;
                         targetTile := Some lastTile |}
      /\ In lastTile ts
      /\ (forall t, In t ts -> grid_le t lastTile)
      /\ StronglySorted grid_le (sort_tiles ts)
      /\ (NoDup (map id ts) ->
          r_tiles (result s') = sort_tiles ts
          /\ r_visibleTiles (result s') = sort_tiles ts).
Proof.
  intros scan s ts u Hne s'.
  destruct (SnapshotFacts.onmessage_snapshot_nonempty scan s u Hne)
    as (Ht & Hv & (lastTile & Hl & Hd) & _).
  fold s' in Ht, Hv, Hd.
  destruct (sorted_last_is_greatest (sort_tiles_sorted ts) Hl) as [Hin Hmax].
  exists lastTile. split; [exact Hd|]. split.
  { eapply Permutation_in; [apply SnapshotFacts.sort_tiles_perm | exact Hin]. }
  split.
  { intros t H. apply Hmax.
    eapply Permutation_in; [symmetry; apply SnapshotFacts.sort_tiles_perm | exact H]. }
  split; [apply sort_tiles_sorted|].
  intros Hnd. unfold result. cbn [r_tiles r_visibleTiles]. rewrite Ht, Hv.
  assert (E : JsMap.values (map_of_tiles (sort_tiles ts)) = sort_tiles ts).
  { apply SnapshotFacts.map_of_tiles_NoDup.
    eapply Permutation_NoDup; [|exact Hnd].
    apply Permutation_map. symmetry. apply SnapshotFacts.sort_tiles_perm. }
  now rewrite E.
Qed.

Import Examples.

Lemma snapshot_parks_on_greatest_tile_witness :
  exists lastTile,
    droneState (onmessage 2000 (snapshot (Some [tile_B; tile_A]) None)
                  (init url0))
    = {| position := Some (center lastTile);
         isScanning := false;
         targetTile := Some lastTile |}
    /\ In lastTile [tile_B; tile_A]
    /\ forall t, In t [tile_B; tile_A] -> grid_le t lastTile.
Proof.
  assert (Hne : [tile_B; tile_A] <> []) by discriminate.
  destruct (@snapshot_parks_on_greatest_tile 2000 (init url0)
              [tile_B; tile_A] None Hne) as (lastTile & H1 & H2 & H3 & _).
  exists lastTile. now repeat split.
Defined.

End SortFacts.

(** ** The layer component *)

Module DroneLayerFacts.

Import Client HookView DroneLayer.

Lemma has_In_keys (V : Type) k (m : JsMap.t V) :
  JsMap.has k m = true <-> In k (JsMap.keys m).
Proof.
  unfold JsMap.has. pose proof (JsMapFacts.get_None_keys k m) as H.
  destruct (JsMap.get k m) as [v|].
  - split; [intros _ | reflexivity].
    destruct (in_dec string_dec k (JsMap.keys m)) as [Hin | Hout]; [exact Hin|].
    apply H in Hout. discriminate.
  - split; [discriminate|]. intros Hin. exfalso. now apply (proj1 H).
Qed.

Lemma NoDup_app_disjoint (A : Type) (l1 l2 : list A) :
  NoDup (l1 ++ l2) -> forall x, In x l1 -> In x l2 -> False.
Proof.
  induction l1 as [|a l1 IH]; intros H x H1 H2; [destruct H1|].
  inversion H as [|? ? Hn Hd]; subst. destruct H1 as [<- | H1].
  - apply Hn. apply in_or_app. now right.
  - now apply (IH Hd x).
Qed.

Section WithEnvironment.

Variable transformExtent : BBox -> BBox.

Local Abbreviation addTile := (addTile transformExtent).
Local Abbreviation effect := (effect transformExtent).
Local Abbreviation layerOf := (layerOf transformExtent).

(** What [newTiles.forEach] does to the layers. *)
Lemma addTile_fold url (l : list TileMetadata) : forall st,
  let st' := fold_left (addTile url) l st in
  processedCount st' = processedCount st
  /\ (NoDup (JsMap.keys (layers st)) -> NoDup (JsMap.keys (layers st')))
  /\ (forall k, In k (JsMap.keys (layers st')) <->
                In k (JsMap.keys (layers st)) \/ In k (map id l))
  /\ (forall k, In k (JsMap.keys (layers st)) ->
                JsMap.get k (layers st') = JsMap.get k (layers st))
  /\ (exists fresh,
        JsMap.keys (layers st') = JsMap.keys (layers st) ++ fresh
        /\ length (added st') = length (added st) + length fresh)
  /\ (NoDup (map id l) ->
      (forall t, In t l -> ~ In (id t) (JsMap.keys (layers st))) ->
      JsMap.keys (layers st') = JsMap.keys (layers st) ++ map id l
      /\ added st' = added st ++ map (layerOf url) l).
Proof.
  induction l as [|t l IH]; intros st; cbn [fold_left].
  - cbv zeta. split; [reflexivity|]. split; [tauto|]. split; [simpl; tauto|].
    split; [reflexivity|]. split.
    + exists []. now rewrite app_nil_r, Nat.add_0_r.
    + intros _ _. simpl. now rewrite !app_nil_r.
  - destruct (IH (addTile url st t)) as (H1 & H2 & H3 & H4 & (fr & H5 & H6) & H7).
    cbv zeta in *.
    set (st1 := addTile url st t) in *.
    assert (S1 : processedCount st1 = processedCount st
                 /\ (NoDup (JsMap.keys (layers st)) -> NoDup (JsMap.keys (layers st1)))
                 /\ (forall k, In k (JsMap.keys (layers st1)) <->
                               In k (JsMap.keys (layers st)) \/ k = id t)
                 /\ (forall k, In k (JsMap.keys (layers st)) ->
                               JsMap.get k (layers st1) = JsMap.get k (layers st))
                 /\ (exists fresh,
                       JsMap.keys (layers st1) = JsMap.keys (layers st) ++ fresh
                       /\ length (added st1) = length (added st) + length fresh)
                 /\ (~ In (id t) (JsMap.keys (layers st)) ->
                     JsMap.keys (layers st1) = JsMap.keys (layers st) ++ [id t]
                     /\ added st1 = added st ++ [layerOf url t])).
    { subst st1. unfold DroneLayer.addTile.
      destruct (JsMap.has (id t) (layers st)) eqn:E.
      - apply has_In_keys in E.
        split; [reflexivity|]. split; [tauto|].
        split; [intros k; split; [tauto | intros [H | ->]; assumption]|].
        split; [reflexivity|]. split.
        + exists []. now rewrite app_nil_r, Nat.add_0_r.
        + intros Hn. contradiction.
      - assert (Hout : ~ In (id t) (JsMap.keys (layers st))).
        { intros Hin. apply has_In_keys in Hin. congruence. }
        cbn [layers processedCount added].
        split; [reflexivity|].
        split; [apply JsMapFacts.NoDup_keys_set|].
        split; [intros k; rewrite JsMapFacts.In_keys_set; tauto|].
        split.
        { intros k Hk. apply JsMapFacts.get_set_ne. congruence. }
        assert (Ek : JsMap.keys (JsMap.set (id t) (layerOf url t) (layers st))
                     = JsMap.keys (layers st) ++ [id t]).
        { rewrite JsMapFacts.set_absent by exact Hout.
          unfold JsMap.keys. now rewrite map_app. }
        split.
        + exists [id t]. split; [exact Ek|]. now rewrite length_app.
        + intros _. now split. }
    destruct S1 as (A1 & A2 & A3 & A4 & (fr1 & A5 & A6) & A7).
    split; [congruence|]. split; [tauto|]. split.
    { intros k. rewrite H3, A3. simpl. intuition. }
    split.
    { intros k Hk. rewrite H4; [now apply A4|]. apply A3. now left. }
    split.
    { exists (fr1 ++ fr). rewrite H5, A5, H6, A6, length_app, app_assoc.
      split; [reflexivity | lia]. }
    intros Hnd Hfresh. inversion Hnd as [|? ? Hn Hd]; subst.
    destruct (A7 (Hfresh t (or_introl eq_refl))) as [A8 A9].
    destruct (H7 Hd) as [H8 H9].
    { intros x Hx Hin. apply A3 in Hin. destruct Hin as [Hin | Hin].
      - apply (Hfresh x); [now right | exact Hin].
      - apply Hn. rewrite <- Hin. now apply in_map. }
    rewrite H8, H9, A8, A9. cbn [map]. now rewrite <- !app_assoc.
Qed.

(** X12. The effect that adds tiles to the map, given tiles of which the
    first [processedCount] already have a layer: afterwards every tile of
    the array has a layer under its id and the count is the array's
    length; no id gets a second layer, the layers that existed are
    untouched, and exactly as many layers are handed to the map as ids
    are new. Without a map the effect does nothing. *)
Theorem effect_gives_every_tile_one_layer :
  forall (url : string) (tiles : list TileMetadata) (st : DroneLayer.State),
    NoDup (JsMap.keys (layers st)) ->
    Forall (fun t => JsMap.has (id t) (layers st) = true)
           (firstn (processedCount st) tiles) ->
    let st' := effect true url tiles st in
    processedCount st' = length tiles
    /\ Forall (fun t => JsMap.has (id t) (layers st') = true) tiles
    /\ NoDup (JsMap.keys (layers st'))
    /\ (forall k, JsMap.has k (layers st) = true ->
                  JsMap.get k (layers st') = JsMap.get k (layers st))
    /\ (exists fresh,
          JsMap.keys (layers st') = JsMap.keys (layers st) ++ fresh
          /\ incl fresh (map id tiles)
          /\ length (added st') = length (added st) + length fresh)
    /\ effect false url tiles st = st.
Proof.
  intros url tiles st Hnd Hfirst st'. subst st'. unfold DroneLayer.effect.
  cbn [negb layers processedCount added].
  destruct (addTile_fold url (skipn (processedCount st) tiles) st)
    as (_ & H2 & H3 & H4 & (fresh & H5 & H6) & _).
  cbv zeta in *.
  split; [reflexivity|]. split.
  { match goal with |- Forall ?P tiles =>
      cut (Forall P (firstn (processedCount st) tiles ++
                     skipn (processedCount st) tiles));
        [now rewrite firstn_skipn|] end.
    apply Forall_app. split.
    - eapply Forall_impl; [|exact Hfirst]. intros t Ht.
      apply has_In_keys. apply H3. left. now apply has_In_keys.
    - apply Forall_forall. intros t Ht. apply has_In_keys. apply H3. right.
      now apply in_map. }
  split; [now apply H2|]. split.
  { intros k Hk. apply H4. now apply has_In_keys. }
  split; [|reflexivity].
  exists fresh. split; [exact H5|]. split; [|exact H6].
  intros k Hk.
  assert (Hin : In k (JsMap.keys (layers st) ++ fresh)).
  { apply in_or_app. now right. }
  rewrite <- H5 in Hin. apply H3 in Hin. destruct Hin as [Hin | Hin].
  - exfalso. apply H2 in Hnd. rewrite H5 in Hnd.
    exact (NoDup_app_disjoint _ _ Hnd k Hin Hk).
  - apply in_map_iff in Hin. destruct Hin as (t & <- & Ht).
    apply in_map. rewrite <- (firstn_skipn (processedCount st) tiles).
    apply in_or_app. now right.
Qed.

Lemma values_length (V : Type) (m : JsMap.t V) :
  length (JsMap.values m) = JsMap.size m.
Proof. unfold JsMap.values, JsMap.size. apply length_map. Qed.

Lemma keys_length (V : Type) (m : JsMap.t V) :
  length (JsMap.keys m) = JsMap.size m.
Proof. unfold JsMap.keys, JsMap.size. apply length_map. Qed.

(** The effect after a render in which nothing was revealed, or a tile
    was revealed under an id that already has a layer. *)
Lemma effect_same_length url (m : JsMap.t TileMetadata) st :
  processedCount st = JsMap.size m ->
  effect true url (JsMap.values m) st = st.
Proof.
  intros H. unfold DroneLayer.effect. cbn [negb].
  rewrite H, <- values_length, skipn_all. cbn [fold_left].
  rewrite values_length, <- H. now destruct st.
Qed.

(** The effect after a render in which a tile was revealed under a new
    id. *)
Lemma effect_append url (m : JsMap.t TileMetadata) t st :
  processedCount st = JsMap.size m ->
  JsMap.has (id t) (layers st) = false ->
  effect true url (JsMap.values (m ++ [(id t, t)])) st
  = {| layers := JsMap.set (id t) (layerOf url t) (layers st);
       processedCount := S (JsMap.size m);
       added := added st ++ [layerOf url t] |}.
Proof.
  intros Hc Hh. unfold DroneLayer.effect. cbn [negb].
  assert (Ev : JsMap.values (m ++ [(id t, t)]) = JsMap.values m ++ [t]).
  { unfold JsMap.values. now rewrite map_app. }
  rewrite Ev, Hc, <- values_length, skipn_app, skipn_all, Nat.sub_diag.
  cbn [skipn app fold_left]. unfold DroneLayer.addTile. rewrite Hh.
  cbn [layers added]. f_equal. rewrite length_app. cbn [length]. lia.
Qed.

Lemma mirrors_reveal url s s' st t :
  mirrors s st ->
  visibleTiles s' = JsMap.set (id t) t (visibleTiles s) ->
  mirrors s' (effect true url (JsMap.values (visibleTiles s')) st).
Proof.
  intros [Mk Mc Ma Mi Mn] E.
  assert (Hkeyed : Forall (fun e => fst e = id (snd e)) (visibleTiles s')).
  { rewrite E, Forall_forall in *. intros e He.
    apply JsMapFacts.In_set_inv in He. destruct He as [-> | He]; [reflexivity|].
    now apply Mi. }
  assert (Hnd : NoDup (JsMap.keys (visibleTiles s'))).
  { rewrite E. now apply JsMapFacts.NoDup_keys_set. }
  destruct (in_dec string_dec (id t) (JsMap.keys (visibleTiles s))) as [Hin | Hout].
  - assert (Es : JsMap.size (visibleTiles s') = JsMap.size (visibleTiles s)).
    { rewrite E. now apply JsMapFacts.size_set_present. }
    assert (Ek : JsMap.keys (visibleTiles s') = JsMap.keys (visibleTiles s)).
    { rewrite E. now apply JsMapFacts.keys_set_present. }
    rewrite effect_same_length by congruence.
    split; try assumption; congruence.
  - assert (Ev : visibleTiles s' = visibleTiles s ++ [(id t, t)]).
    { rewrite E. now apply JsMapFacts.set_absent. }
    assert (Es : JsMap.size (visibleTiles s') = S (JsMap.size (visibleTiles s))).
    { rewrite E. now apply JsMapFacts.size_set_absent. }
    assert (Hhas : JsMap.has (id t) (layers st) = false).
    { destruct (JsMap.has (id t) (layers st)) eqn:H; [|reflexivity].
      apply has_In_keys in H. rewrite Mk in H. contradiction. }
    assert (Hout' : ~ In (id t) (JsMap.keys (layers st))) by now rewrite Mk.
    rewrite Ev, effect_append by assumption.
    split; cbn [layers processedCount added]; try assumption.
    + rewrite JsMapFacts.set_absent by exact Hout'.
      rewrite Ev. unfold JsMap.keys. rewrite !map_app. cbn [map fst].
      f_equal. exact Mk.
    + now rewrite Es.
    + rewrite length_app, Ma, Es. cbn [length]. lia.
Qed.

Lemma mirrors_step scan s st e :
  no_snapshot e = true ->
  mirrors s st ->
  mirrors (fst (render transformExtent scan (s, st) e))
          (snd (render transformExtent scan (s, st) e)).
Proof.
  intros Hns M. unfold render. cbn [fst snd].
  destruct (HookFacts.step_effect scan s e Hns) as (_ & Hv).
  destruct Hv as [(V1 & _) | (t & _ & _ & V1 & _)].
  - destruct M as [Mk Mc Ma Mi Mn].
    rewrite effect_same_length by (rewrite V1; exact Mc).
    split; rewrite ?V1; assumption.
  - now apply mirrors_reveal with (s := s) (t := t).
Qed.

Lemma mirrors_fresh url (s : Client.State) :
  NoDup (JsMap.keys (visibleTiles s)) ->
  Forall (fun e => fst e = id (snd e)) (visibleTiles s) ->
  mirrors s (effect true url (JsMap.values (visibleTiles s)) DroneLayer.init).
Proof.
  intros Hnd Hk.
  assert (Eid : map id (JsMap.values (visibleTiles s))
                = JsMap.keys (visibleTiles s)).
  { unfold JsMap.values, JsMap.keys. rewrite map_map.
    apply map_ext_in. intros e He. rewrite Forall_forall in Hk.
    symmetry. now apply Hk. }
  unfold DroneLayer.effect. cbn [negb processedCount DroneLayer.init skipn].
  destruct (addTile_fold url (JsMap.values (visibleTiles s)) DroneLayer.init)
    as (_ & _ & _ & _ & _ & H).
  cbv zeta in H. destruct H as [H1 H2].
  { now rewrite Eid. }
  { intros t _ []. }
  cbn [layers added DroneLayer.init app] in H1, H2.
  split; cbn [layers processedCount added]; try assumption.
  - now rewrite H1.
  - apply values_length.
  - rewrite H2, length_map. apply values_length.
Qed.

Lemma snapshot_is_keyed scan url dt ts u :
  let s := Client.step scan (Client.init url) (Received dt (snapshot ts u)) in
  NoDup (JsMap.keys (visibleTiles s))
  /\ Forall (fun e => fst e = id (snd e)) (visibleTiles s).
Proof.
  destruct ts as [[|x xs]|].
  - cbv beta iota zeta delta [Client.step Client.init]. HookFacts.hook_eval.
    destruct u as [v|]; [destruct (String.eqb v "")|]; HookFacts.hook_eval;
      HookFacts.hook_fields; split; constructor.
  - cbv beta iota zeta delta [Client.step].
    assert (Hne : x :: xs <> []) by discriminate.
    destruct (SnapshotFacts.onmessage_snapshot_nonempty scan
                (setNow (now (Client.init url) + dt) (Client.init url)) u Hne)
      as (_ & Hv & _).
    rewrite Hv. split; [apply JsMapFacts.NoDup_keys_of_entries|].
    apply Forall_forall. intros e He. unfold map_of_tiles in He.
    apply JsMapFacts.In_of_entries_inv in He. apply in_map_iff in He.
    destruct He as (t & <- & _). reflexivity.
  - cbv beta iota zeta delta [Client.step Client.init]. HookFacts.hook_eval.
    destruct u as [v|]; [destruct (String.eqb v "")|]; HookFacts.hook_eval;
      HookFacts.hook_fields; split; constructor.
Qed.

(** X13. The hook and the layer component together, from the mount on:
    after the opening snapshot and any sequence of turns without a
    further snapshot of tiles, the layers on the map are exactly the
    revealed tiles, id for id and in the order of their reveal, and one
    layer was handed to the map for each revealed tile. *)
Theorem layers_mirror_revealed_tiles :
  forall (scan : nat) (url : string) (dt : nat)
         (ts : option (list TileMetadata)) (u : option string)
         (evs : list Event),
    forallb no_snapshot evs = true ->
    let p := render_all transformExtent scan
               (Received dt (snapshot ts u) :: evs)
               (Client.init url, DroneLayer.init) in
    fst p = Client.run scan (Received dt (snapshot ts u) :: evs) (Client.init url)
    /\ JsMap.keys (layers (snd p)) = JsMap.keys (visibleTiles (fst p))
    /\ length (added (snd p)) = visibleTileCount (result (fst p))
    /\ processedCount (snd p) = visibleTileCount (result (fst p)).
Proof.
  intros scan url dt ts u evs Hns p. subst p.
  unfold render_all. cbn [fold_left].
  set (p1 := render transformExtent scan (Client.init url, DroneLayer.init)
               (Received dt (snapshot ts u))).
  change (Client.run scan (Received dt (snapshot ts u) :: evs) (Client.init url))
    with (Client.run scan evs (fst p1)).
  assert (M1 : mirrors (fst p1) (snd p1)).
  { subst p1. unfold render. cbn [fst snd].
    destruct (snapshot_is_keyed scan url dt ts u) as [Hnd Hk].
    now apply mirrors_fresh. }
  clearbody p1. revert p1 M1.
  induction evs as [|e evs IH]; intros p1 M1.
  - cbn [fold_left Client.run]. destruct M1 as [Mk Mc Ma _ _].
    repeat split; assumption.
  - simpl in Hns. apply andb_prop in Hns. destruct Hns as [H1 H2].
    cbn [fold_left].
    change (Client.run scan (e :: evs) (fst p1))
      with (Client.run scan evs (Client.step scan (fst p1) e)).
    change (Client.step scan (fst p1) e)
      with (fst (render transformExtent scan p1 e)).
    apply (IH H2). destruct p1 as [s st]. now apply mirrors_step.
Qed.

End WithEnvironment.

Import Examples.

Lemma effect_gives_every_tile_one_layer_witness :
  let st' := effect (fun b => b) true url0 [tile_A; tile_B] DroneLayer.init in
  processedCount st' = 2
  /\ Forall (fun t => JsMap.has (id t) (layers st') = true) [tile_A; tile_B].
Proof.
  cbv zeta.
  assert (H1 : NoDup (JsMap.keys (layers DroneLayer.init))) by constructor.
  assert (H2 : Forall (fun t => JsMap.has (id t) (layers DroneLayer.init) = true)
                 (firstn (processedCount DroneLayer.init) [tile_A; tile_B]))
    by constructor.
  destruct (@effect_gives_every_tile_one_layer (fun b => b) url0
              [tile_A; tile_B] DroneLayer.init H1 H2) as (A & B & _).
  split; [exact A | exact B].
Defined.

Lemma layers_mirror_revealed_tiles_witness :
  let p := render_all (fun b => b) 2000
             [Received 0 (snapshot (Some [tile_B; tile_A]) None);
              Received 0 (change tile_C); TimerFires 0]
             (Client.init url0, DroneLayer.init) in
  JsMap.keys (layers (snd p)) = JsMap.keys (visibleTiles (fst p)).
Proof.
  cbv zeta.
  apply (@layers_mirror_revealed_tiles (fun b => b) 2000 url0 0
           (Some [tile_B; tile_A]) None
           [Received 0 (change tile_C); TimerFires 0] eq_refl).
Defined.

End DroneLayerFacts.

(** ** Drawing order and the scan circle *)

Module DrawingFacts.

Import Client HookView DroneLayer DroneIcon.

(** X14. For tiles of the 10 x 10 grid the [zIndex] of a tile's layer
    lies between 10 and 109, below the drone's layer; two tiles get the
    same [zIndex] only at the same grid position, and a tile later in
    grid order is drawn above an earlier one. *)
Theorem tile_layers_stack_in_grid_order :
  forall (a b : TileMetadata),
    in_grid a -> in_grid b ->
    (10 <= zIndexOf a <= 109)%Z
    /\ (zIndexOf a < droneZIndex)%Z
    /\ (zIndexOf a = zIndexOf b <-> row a = row b /\ col a = col b)
    /\ (grid_le a b <-> (zIndexOf a <= zIndexOf b)%Z).
Proof.
  intros a b [Ha1 Ha2] [Hb1 Hb2].
  unfold zIndexOf, droneZIndex, grid_le. repeat split; lia.
Qed.

Lemma succ_mod_25 n :
  S n mod 25 = if Nat.eqb (n mod 25) 24 then 0 else S (n mod 25).
Proof.
  pose proof (Nat.div_mod_eq n 25) as E.
  pose proof (Nat.mod_upper_bound n 25 ltac:(discriminate)) as B.
  destruct (Nat.eqb (n mod 25) 24) eqn:C.
  - apply Nat.eqb_eq in C. symmetry.
    apply (Nat.mod_unique (S n) 25 (S (n / 25)) 0); lia.
  - apply Nat.eqb_neq in C. symmetry.
    apply (Nat.mod_unique (S n) 25 (n / 25) (S (n mod 25))); lia.
Qed.

(** X15. The radius of the scan circle after [n] ticks of its interval
    is [10 + 3 * (n mod 25)]: it climbs from 10 in steps of 3, reaches 82
    on the 24th tick, and falls back to 10 on the next; so it always lies
    between 10 and 82. *)
Theorem scan_radius_cycles :
  forall (n : nat),
    radiusAfter n = (10 + 3 * Z.of_nat (n mod 25))%Z
    /\ (10 <= radiusAfter n <= 82)%Z
    /\ radiusAfter (n + 25) = radiusAfter n.
Proof.
  assert (Closed : forall n, radiusAfter n = (10 + 3 * Z.of_nat (n mod 25))%Z).
  { induction n as [|n IH]; [reflexivity|].
    cbn [radiusAfter]. rewrite IH, succ_mod_25. unfold nextRadius.
    pose proof (Nat.mod_upper_bound n 25 ltac:(discriminate)) as B.
    destruct (Nat.eqb (n mod 25) 24) eqn:C.
    - apply Nat.eqb_eq in C. rewrite C. reflexivity.
    - apply Nat.eqb_neq in C.
      destruct (10 + 3 * Z.of_nat (n mod 25) >=? 80)%Z eqn:G; [|lia].
      apply Z.geb_le in G. lia. }
  intros n. split; [apply Closed|]. split.
  - rewrite Closed.
    pose proof (Nat.mod_upper_bound n 25 ltac:(discriminate)). lia.
  - rewrite !Closed. do 2 f_equal. f_equal.
    replace (n + 25) with (n + 1 * 25) by lia. apply Nat.Div0.mod_add.
Qed.

Import Examples.

Lemma tile_layers_stack_in_grid_order_witness :
  (zIndexOf tile_A < droneZIndex)%Z
  /\ (grid_le tile_A tile_B <-> (zIndexOf tile_A <= zIndexOf tile_B)%Z).
Proof.
  assert (HA : in_grid tile_A) by (unfold in_grid; simpl; lia).
  assert (HB : in_grid tile_B) by (unfold in_grid; simpl; lia).
  destruct (@tile_layers_stack_in_grid_order tile_A tile_B HA HB)
    as (_ & H2 & _ & H4).
  split; [exact H2 | exact H4].
Defined.

End DrawingFacts.

(** ** Sidecar and raster names *)

Module NamingFacts.

Import Json Server.

Lemma substring_prefix_of_append (a b : string) :
  String.substring 0 (String.length a) (a ++ b) = a.
Proof.
  induction a as [|c a IH]; simpl.
  - now destruct b.
  - now rewrite IH.
Qed.

Lemma substring_nothing (n : nat) (s : string) :
  String.substring n 0 s = EmptyString.
Proof.
  revert n. induction s as [|c s IH]; intros [|n]; simpl; auto.
Qed.

Lemma length_of_append (a b : string) :
  String.length (a ++ b) = String.length a + String.length b.
Proof. induction a as [|c a IH]; simpl; [reflexivity | now rewrite IH]. Qed.

Lemma endsWith_append (a suffix : string) :
  Path.endsWith (a ++ suffix) suffix = true.
Proof.
  induction a as [|c a IH].
  - destruct suffix; simpl; now rewrite ?String.eqb_refl, ?Ascii.eqb_refl.
  - change (Path.endsWith (String c (a ++ suffix)) suffix = true).
    cbn [Path.endsWith]. rewrite IH. apply orb_true_r.
Qed.

(** [".json"] cannot begin inside a name and end inside the extension
    that follows it. *)
Lemma no_straddle (name : string) :
  name <> EmptyString ->
  String.prefix ".json" name = false ->
  String.prefix ".json" (name ++ ".json") = false.
Proof.
  intros Hne H.
  destruct name as [|c1 name]; [congruence|].
  cbn [String.prefix append] in *.
  destruct (ascii_dec "." c1); [|reflexivity].
  destruct name as [|c2 name]; [reflexivity|].
  cbn [String.prefix append] in *.
  destruct (ascii_dec "j" c2); [|reflexivity].
  destruct name as [|c3 name]; [reflexivity|].
  cbn [String.prefix append] in *.
  destruct (ascii_dec "s" c3); [|reflexivity].
  destruct name as [|c4 name]; [reflexivity|].
  cbn [String.prefix append] in *.
  destruct (ascii_dec "o" c4); [|reflexivity].
  destruct name as [|c5 name]; [reflexivity|].
  cbn [String.prefix append] in *.
  destruct (ascii_dec "n" c5); [now destruct name | reflexivity].
Qed.

Lemma index_of_extension (name : string) :
  String.index 0 ".json" name = None ->
  String.index 0 ".json" (name ++ ".json") = Some (String.length name).
Proof.
  induction name as [|c name IH]; intros H; [reflexivity|].
  change (String.index 0 ".json" (String c (name ++ ".json"))
          = Some (S (String.length name))).
  cbn [String.index] in H |- *.
  destruct (String.prefix ".json" (String c name)) eqn:P; [discriminate|].
  change (String c (name ++ ".json")) with ((String c name ++ ".json")%string).
  rewrite no_straddle by (discriminate || exact P).
  destruct (String.index 0 ".json" name) eqn:I; [discriminate|].
  now rewrite IH.
Qed.

(** X16. A path whose file name is [<id>.json], where [.json] does not
    occur inside [id], is taken for a sidecar, its tile id is [id] and
    the raster it is paired with is named [<id>.tif], a name that is
    never itself taken for a sidecar. *)
Theorem sidecar_name_gives_tile_id :
  forall (filePath id : string),
    Path.basename filePath = (id ++ ".json")%string ->
    String.index 0 ".json" id = None ->
    Path.endsWith (Path.basename filePath) ".json" = true
    /\ tileIdOf filePath = id
    /\ tifFilenameOf filePath = (id ++ ".tif")%string
    /\ tifPathOf filePath = Path.join (Path.dirname filePath) (id ++ ".tif")
    /\ Path.endsWith (tifFilenameOf filePath) ".json" = false.
Proof.
  intros filePath id Hb Hi.
  assert (Hid : tileIdOf filePath = id).
  { unfold tileIdOf, Path.replace. rewrite Hb, index_of_extension by exact Hi.
    rewrite substring_prefix_of_append, length_of_append.
    cbn [String.length]. rewrite Nat.sub_diag, substring_nothing.
    cbn [append]. clear. induction id as [|c id IH]; [reflexivity|].
    simpl. now rewrite IH. }
  split; [rewrite Hb; apply endsWith_append|].
  split; [exact Hid|].
  unfold tifPathOf, tifFilenameOf. rewrite Hid.
  repeat split. apply PathFacts.tif_not_json.
Qed.

Import Examples.

Lemma sidecar_name_gives_tile_id_witness :
  tileIdOf sidecar_path = "tile_0_0"
  /\ tifPathOf sidecar_path = raster_path.
Proof.
  destruct (@sidecar_name_gives_tile_id sidecar_path "tile_0_0" eq_refl eq_refl)
    as (_ & H2 & _ & H4 & _).
  split; [exact H2 | rewrite H4; reflexivity].
Defined.

End NamingFacts.

(* ===================================================================== *)
(** ** The animation across connection loss *)

Module SessionFacts.

Import Client Queue Session.

Ltac session_fields :=
  cbv beta iota zeta delta
    [animation setPending setTiles setNow setProcessing setDroneState
     setTimeout setTimers setVisibleTiles setIsConnected setTitilerUrl
     tiles visibleTiles isConnected titilerUrl droneState pendingTiles
     processing timers now droneLog] in *.

Ltac session_eval :=
  cbv beta iota zeta delta
    [Client.step onmessage processNextTile scanComplete settle run_callback
     onopen onclose change snapshot
     setPending setTiles setNow setProcessing setDroneState
     setTimeout setTimers setVisibleTiles setIsConnected setTitilerUrl
     tiles visibleTiles isConnected titilerUrl droneState pendingTiles
     processing timers now droneLog callback due
     msg_type msg_tile msg_tiles msg_titilerUrl orb negb];
  cbn [app length Nat.eqb Nat.ltb Nat.leb orb negb].

Section WithEnvironment.

Variable SCANNING_DURATION : nat.
Variable DEFAULT_TITILER_URL : string.

Local Abbreviation step := (Client.step SCANNING_DURATION).
Local Abbreviation init := (Client.init DEFAULT_TITILER_URL).
Local Abbreviation run_callback := (Client.run_callback SCANNING_DURATION).
Local Abbreviation drain := (Queue.drain SCANNING_DURATION).
Local Abbreviation full_cycle := (Queue.full_cycle SCANNING_DURATION).
Local Abbreviation Inv := (Queue.Inv SCANNING_DURATION).
Local Abbreviation play_session := (Session.play_session SCANNING_DURATION).
Local Abbreviation quiesce := (Session.quiesce SCANNING_DURATION).

(** *** The timer that fires next *)

Lemma next_timer_none ts : next_timer ts = None -> ts = [].
Proof.
  destruct ts as [|t ts]; [reflexivity|]. simpl.
  destruct (next_timer ts) as [[m rest]|]; [|discriminate].
  destruct (Nat.leb (due t) (due m)); discriminate.
Qed.

Lemma next_timer_least ts : forall t rest,
  next_timer ts = Some (t, rest) ->
  In t ts /\ forall x, In x ts -> due t <= due x.
Proof.
  induction ts as [|a l IH]; intros t rest H; [discriminate|].
  simpl in H. destruct (next_timer l) as [[m r]|] eqn:E.
  - destruct (IH _ _ eq_refl) as [Hin Hm].
    destruct (Nat.leb (due a) (due m)) eqn:L; inversion H; subst; clear H.
    + apply Nat.leb_le in L. split; [now left|].
      intros x [->|Hx]; [lia|]. specialize (Hm x Hx). lia.
    + apply Nat.leb_gt in L. split; [now right|].
      intros x [->|Hx]; [lia | now apply Hm].
  - inversion H; subst. apply next_timer_none in E. subst l.
    split; [now left|]. intros x [->|[]]. lia.
Qed.

(** Leaving timers out does not change which of the others fires
    first. *)
Lemma next_timer_filter_keep (p : Timer -> bool) ts : forall t rest,
  next_timer ts = Some (t, rest) -> p t = true ->
  next_timer (filter p ts) = Some (t, filter p rest).
Proof.
  induction ts as [|a l IH]; intros t rest H Hp; [discriminate|].
  simpl in H. destruct (next_timer l) as [[m r]|] eqn:E.
  - destruct (Nat.leb (due a) (due m)) eqn:L; injection H as <- <-.
    + cbn [filter]. rewrite Hp. cbn [next_timer].
      destruct (next_timer (filter p l)) as [[m' r']|] eqn:E'.
      * assert (Hle : due a <= due m').
        { destruct (@next_timer_least _ _ _ E') as [Hin _].
          apply filter_In in Hin. destruct Hin as [Hin _].
          destruct (@next_timer_least _ _ _ E) as [_ Hm].
          specialize (Hm _ Hin). apply Nat.leb_le in L. lia. }
        apply Nat.leb_le in Hle. now rewrite Hle.
      * apply next_timer_none in E'. now rewrite E'.
    + specialize (IH _ _ eq_refl Hp). cbn [filter].
      destruct (p a) eqn:Pa; [|exact IH].
      cbn [next_timer]. now rewrite IH, L.
  - injection H as <- <-. apply next_timer_none in E. subst l.
    cbn [filter]. now rewrite Hp.
Qed.

Lemma next_timer_filter_drop (p : Timer -> bool) ts t rest :
  next_timer ts = Some (t, rest) -> p t = false ->
  filter p rest = filter p ts.
Proof.
  intros H Hp. destruct (@HookFacts.next_timer_split _ _ _ H) as (l1 & l2 & -> & ->).
  rewrite !filter_app. cbn [filter]. now rewrite Hp.
Qed.

Lemma next_timer_filter_count (p : Timer -> bool) ts t rest :
  next_timer ts = Some (t, rest) -> p t = true ->
  length (filter p ts) = S (length (filter p rest)).
Proof.
  intros H Hp. destruct (@HookFacts.next_timer_split _ _ _ H) as (l1 & l2 & -> & ->).
  rewrite !filter_app. cbn [filter]. rewrite Hp, !length_app. cbn [length]. lia.
Qed.

Lemma no_timer_left (p : Timer -> bool) ts :
  filter p ts = [] -> filter (fun tm => negb (p tm)) ts = [] -> ts = [].
Proof.
  destruct ts as [|a l]; [reflexivity|]. cbn [filter].
  destruct (p a); cbn [negb]; discriminate.
Qed.

Lemma step_fire s late t rest :
  next_timer (timers s) = Some (t, rest) ->
  step s (TimerFires late)
  = run_callback (callback t)
      (setNow (Nat.max (now s) (due t) + late) (setTimers rest s)).
Proof.
  intros H. cbv beta iota delta [Client.step]. now rewrite H.
Qed.

(** *** What the animation does not depend on *)

Lemma queue_inv_frame arrived s s' :
  Inv arrived s ->
  droneLog s' = droneLog s -> timers s' = timers s ->
  pendingTiles s' = pendingTiles s -> processing s' = processing s ->
  droneState s' = droneState s -> now s <= now s' ->
  Inv arrived s'.
Proof.
  intros [Hsp Hlog Hph] El Et Eq Ep Ed Hn. split.
  - now rewrite El.
  - unfold future in *. now rewrite El, Et, Eq.
  - rewrite El.
    destruct Hph as [Hp Ht Hq Hd Hf | u d Hp Ht Hd Hf | d Hp Ht Hd Hf].
    + apply Idle; rewrite ?Ep, ?Et, ?Eq, ?Ed; try assumption.
      eapply Forall_impl; [|exact Hf]. cbn beta. intros; lia.
    + apply Scanning with (t := u) (d := d);
        rewrite ?Ep, ?Et, ?Eq, ?Ed; assumption.
    + apply Settling with (d := d);
        rewrite ?Ep, ?Et, ?Eq, ?Ed; assumption.
Qed.

(** A tile's arrival neither reads nor removes a timer. *)
Lemma animation_arrive s dt t :
  animation (step s (Received dt (change t)))
  = step (animation s) (Received dt (change t)).
Proof.
  destruct s as [tl vt ic tu ds pq pr tms nw lg].
  destruct pr; [|destruct pq as [|t0 rest]];
    session_fields; session_eval; session_fields;
    rewrite ?filter_app; cbn [filter is_animation callback app];
    rewrite ?app_nil_r; reflexivity.
Qed.

(** The callbacks of the animation neither read nor remove a timer. *)
Lemma animation_callback s t n rest :
  is_animation t = true ->
  animation (run_callback (callback t) (setNow n (setTimers rest s)))
  = run_callback (callback t)
      (setNow n (setTimers (filter is_animation rest) (animation s))).
Proof.
  intros A. destruct s as [tl vt ic tu ds pq pr tms nw lg].
  destruct t as [d cb]. unfold is_animation in A. cbn [callback] in *.
  destruct cb as [tile| |]; [| |discriminate].
  - session_fields; session_eval; session_fields.
    rewrite ?filter_app; cbn [filter is_animation callback app]. reflexivity.
  - destruct pq as [|t0 rest0];
      session_fields; session_eval; session_fields;
      rewrite ?filter_app; cbn [filter is_animation callback app];
      reflexivity.
Qed.

Lemma animation_fire s late t rest :
  next_timer (timers s) = Some (t, rest) -> is_animation t = true ->
  animation (step s (TimerFires late))
  = step (animation s) (TimerFires late).
Proof.
  intros H A.
  rewrite (@step_fire s late t rest H), (@animation_callback s t _ rest A).
  assert (H' : next_timer (timers (animation s))
               = Some (t, filter is_animation rest)).
  { change (timers (animation s)) with (filter is_animation (timers s)).
    now apply (@next_timer_filter_keep is_animation _ _ _ H). }
  rewrite (@step_fire (animation s) late t _ H').
  destruct s as [tl vt ic tu ds pq pr tms nw lg]. reflexivity.
Qed.

Lemma reconnects_callback s t n rest :
  is_animation t = true ->
  reconnects (run_callback (callback t) (setNow n (setTimers rest s)))
  = length (filter is_reconnect rest).
Proof.
  intros A. destruct s as [tl vt ic tu ds pq pr tms nw lg].
  destruct t as [d cb]. unfold is_animation in A. cbn [callback] in *.
  unfold reconnects.
  destruct cb as [tile| |]; [| |discriminate].
  - session_fields; session_eval; session_fields.
    rewrite filter_app, length_app. cbn. lia.
  - destruct pq as [|t0 rest0];
      session_fields; session_eval; session_fields;
      rewrite ?filter_app, ?length_app; cbn; lia.
Qed.

(** *** The invariant of C6, on the animation's view of the state *)

Lemma session_inv_turn arrived s turn :
  Inv arrived (animation s) ->
  Inv (arrived ++ tiles_of [turn]) (animation (step s (session_event turn))).
Proof.
  intros H. destruct turn as [dt tile | late | dt | | dt u];
    cbn [tiles_of flat_map app session_event]; rewrite ?app_nil_r.
  - rewrite animation_arrive. now apply QueueFacts.queue_inv_arrive.
  - destruct (next_timer (timers s)) as [[t rest]|] eqn:E.
    + destruct (is_animation t) eqn:A.
      * rewrite (@animation_fire s late t rest E A). now apply QueueFacts.queue_inv_fire.
      * rewrite (@step_fire s late t rest E).
        assert (C : callback t = Reconnect).
        { unfold is_animation in A. now destruct (callback t). }
        rewrite C. pose proof (@next_timer_filter_drop is_animation _ _ _ E A) as F.
        apply queue_inv_frame with (s := animation s); [exact H|..];
          destruct s as [tl vt ic tu ds pq pr tms nw lg];
          session_fields; session_eval; session_fields;
          try reflexivity; [now rewrite F | lia].
    + replace (step s (TimerFires late)) with s; [exact H|].
      cbv beta iota delta [Client.step]. now rewrite E.
  - apply queue_inv_frame with (s := animation s); [exact H|..];
      destruct s as [tl vt ic tu ds pq pr tms nw lg];
      session_fields; session_eval; session_fields;
      try reflexivity; [|lia].
    rewrite filter_app. cbn. now rewrite app_nil_r.
  - apply queue_inv_frame with (s := animation s); [exact H|..];
      destruct s as [tl vt ic tu ds pq pr tms nw lg];
      session_fields; session_eval; session_fields;
      try reflexivity; lia.
  - apply queue_inv_frame with (s := animation s); [exact H|..];
      destruct s as [tl vt ic tu ds pq pr tms nw lg];
      destruct u as [x|]; session_fields; session_eval;
      try destruct (String.eqb x ""); session_fields;
      try reflexivity; lia.
Qed.

Lemma session_inv_play sch : forall arrived s,
  Inv arrived (animation s) ->
  Inv (arrived ++ tiles_of sch) (animation (play_session sch s)).
Proof.
  induction sch as [|turn sch IH]; intros arrived s H.
  - cbn. now rewrite app_nil_r.
  - replace (tiles_of (turn :: sch)) with (tiles_of [turn] ++ tiles_of sch)
      by (unfold tiles_of; cbn [flat_map]; now rewrite app_nil_r).
    rewrite app_assoc.
    change (play_session (turn :: sch) s)
      with (play_session sch (step s (session_event turn))).
    apply IH. now apply session_inv_turn.
Qed.

(** *** Running dry *)

Lemma effort_fire arrived s late :
  Inv arrived (animation s) -> timers s <> [] ->
  S (effort (step s (TimerFires late))) = effort s.
Proof.
  intros H Hne. unfold effort.
  destruct (next_timer (timers s)) as [[t rest]|] eqn:E;
    [|now apply next_timer_none in E].
  destruct (is_animation t) eqn:A.
  - rewrite (@animation_fire s late t rest E A).
    assert (Hne' : timers (animation s) <> []).
    { change (timers (animation s)) with (filter is_animation (timers s)).
      pose proof (@next_timer_filter_keep is_animation _ _ _ E A) as K.
      intros Z. rewrite Z in K. discriminate. }
    pose proof (@QueueFacts.work_fire SCANNING_DURATION _ _ late H Hne') as W.
    rewrite (@step_fire s late t rest E), (@reconnects_callback s t _ rest A).
    assert (R : is_reconnect t = false) by (unfold is_reconnect; now rewrite A).
    rewrite (@next_timer_filter_drop is_reconnect _ _ _ E R).
    unfold reconnects. lia.
  - rewrite (@step_fire s late t rest E).
    assert (C : callback t = Reconnect).
    { unfold is_animation in A. now destruct (callback t). }
    rewrite C.
    assert (R : is_reconnect t = true) by (unfold is_reconnect; now rewrite A).
    pose proof (@next_timer_filter_count is_reconnect _ _ _ E R) as N.
    pose proof (@next_timer_filter_drop is_animation _ _ _ E A) as F.
    destruct s as [tl vt ic tu ds pq pr tms nw lg].
    unfold reconnects, work in *.
    session_fields; session_eval; session_fields.
    rewrite F, N. lia.
Qed.

Lemma session_drain fuel : forall arrived s,
  Inv arrived (animation s) -> effort s <= fuel ->
  Inv arrived (animation (drain fuel s)) /\ timers (drain fuel s) = [].
Proof.
  induction fuel as [|fuel IH]; intros arrived s H Hw.
  - cbn [Queue.drain]. split; [exact H|].
    unfold effort, reconnects in Hw.
    apply no_timer_left with (p := is_animation).
    + destruct H as [_ _ Hph].
      destruct Hph as [Hp Ht Hq Hd Hf | u d Hp Ht Hd Hf | d Hp Ht Hd Hf];
        [exact Ht | |]; unfold work in Hw; rewrite Ht in Hw; simpl in Hw; lia.
    + apply length_zero_iff_nil.
      change (fun tm => negb (is_animation tm)) with is_reconnect. lia.
  - cbn [Queue.drain]. destruct (timers s) as [|tm tms] eqn:E; [now split|].
    assert (Hne : timers s <> []) by (rewrite E; discriminate).
    pose proof (@effort_fire arrived s 0 H Hne) as W.
    apply IH; [|lia].
    replace arrived with (arrived ++ tiles_of [TimerRuns 0])
      by (cbn; now rewrite app_nil_r).
    now apply (@session_inv_turn arrived s (TimerRuns 0)).
Qed.

Lemma effort_bound s :
  effort s <= length (timers s) + 2 * S (length (pendingTiles s)).
Proof.
  unfold effort, reconnects.
  pose proof (QueueFacts.work_bound (animation s)) as W.
  change (pendingTiles (animation s)) with (pendingTiles s) in W.
  pose proof (filter_length_le is_reconnect (timers s)). lia.
Qed.

(** X17. Losing the connection does not disturb the animation. However
    the arrival of tiles is interleaved with timers firing, the socket
    closing (which arms a reconnect timer), opening again and being sent
    a snapshot without tiles: the drone states so far are a prefix of
    Scanning(A), Idle, Scanning(B), Idle, ... in arrival order, at most
    one timer of the animation is pending, and once all timers have
    fired the history is complete, the scans began at least a full
    cycle apart, and the queue is empty with the drone idle. *)
Theorem connection_loss_leaves_animation_alone :
  forall (sch : list Turn),
    let s0 := play_session sch init in
    let s := quiesce s0 in
    (exists rest,
       map snd (droneLog s0) ++ rest = flat_map cycle (tiles_of sch))
    /\ length (filter is_animation (timers s0)) <= 1
    /\ map snd (droneLog s) = flat_map cycle (tiles_of sch)
    /\ spaced full_cycle (scan_starts (droneLog s))
    /\ timers s = []
    /\ pendingTiles s = []
    /\ processing s = false
    /\ isScanning (droneState s) = false.
Proof.
  intros sch s0 s.
  assert (H0 : Inv (tiles_of sch) (animation s0)).
  { apply (@session_inv_play sch [] init).
    apply QueueFacts.queue_inv_init. }
  destruct (@session_drain _ _ _ H0 (effort_bound s0)) as [H Ht].
  fold (quiesce s0) in H, Ht. fold s in H, Ht.
  split.
  { destruct H0 as [_ Hlog _]. eexists. exact Hlog. }
  split.
  { destruct H0 as [_ _ Hph].
    change (filter is_animation (timers s0)) with (timers (animation s0)).
    destruct Hph as [_ E _ _ _ | u d _ E _ _ | d _ E _ _]; rewrite E; simpl; lia. }
  destruct H as [Hsp Hlog Hph].
  change (droneLog (animation s)) with (droneLog s) in Hsp, Hlog, Hph.
  assert (Hidle : pendingTiles s = [] /\ processing s = false
                  /\ isScanning (droneState s) = false).
  { destruct Hph as [Hp _ Hq Hd _ | u d _ Ht' _ _ | d _ Ht' _ _].
    - auto.
    - change (timers (animation s)) with (filter is_animation (timers s)) in Ht'.
      rewrite Ht in Ht'. discriminate.
    - change (timers (animation s)) with (filter is_animation (timers s)) in Ht'.
      rewrite Ht in Ht'. discriminate. }
  destruct Hidle as (Hq & Hp & Hd).
  split.
  { unfold future in Hlog.
    change (timers (animation s)) with (filter is_animation (timers s)) in Hlog.
    change (pendingTiles (animation s)) with (pendingTiles s) in Hlog.
    rewrite Ht, Hq in Hlog. simpl in Hlog. now rewrite app_nil_r in Hlog. }
  now repeat split.
Qed.

(** *** Invariants of the hook under every event of the declared shape *)

Local Abbreviation run := (Client.run SCANNING_DURATION).

Ltac stage_cases H :=
  destruct H as [Hp Ht Hq Hd | t0 d0 Hp Ht Hd | d0 Hp Ht Hd];
  session_fields; subst.

Ltac stage_done :=
  session_fields; rewrite ?filter_app;
  cbn [filter is_animation callback app negb isScanning targetTile position];
  rewrite ?app_nil_r;
  try assumption; try reflexivity; try (intros; discriminate).

Lemma stage_step s e : stage s -> stage (step s e).
Proof.
  intros H. destruct e as [|dt message|dt|late].
  - destruct s as [tl vt ic tu ds pq pr tms nw lg].
    stage_cases H; session_eval;
      [apply Resting | apply Busy with (t := t0) (d := d0)
       | apply Pausing with (d := d0)]; stage_done.
  - destruct message as [ty mts mt mu].
    destruct s as [tl vt ic tu ds pq pr tms nw lg]. destruct ty.
    + destruct mu as [u|]; destruct mts as [[|t1 ts]|];
        stage_cases H; session_eval;
        try destruct (String.eqb u "");
        try destruct (last (map Some (sort_tiles (t1 :: ts))) None);
        session_fields;
        first [ apply Resting; stage_done; fail
              | apply Busy with (t := t0) (d := d0); stage_done; fail
              | apply Pausing with (d := d0); stage_done; fail ].
    + destruct mt as [t|].
      * stage_cases H; session_eval.
        -- apply Busy with (t := t) (d := nw + dt + SCANNING_DURATION);
             stage_done. now rewrite Ht.
        -- apply Busy with (t := t0) (d := d0); stage_done.
        -- apply Pausing with (d := d0); stage_done.
      * stage_cases H; session_eval;
          [apply Resting | apply Busy with (t := t0) (d := d0)
           | apply Pausing with (d := d0)]; stage_done.
  - destruct s as [tl vt ic tu ds pq pr tms nw lg].
    stage_cases H; session_eval;
      [apply Resting | apply Busy with (t := t0) (d := d0)
       | apply Pausing with (d := d0)]; stage_done.
  - destruct (next_timer (timers s)) as [[t rest]|] eqn:E.
    + rewrite (@step_fire s late t rest E). destruct (is_animation t) eqn:A.
      * pose proof (@next_timer_filter_keep is_animation _ _ _ E A) as K.
        destruct s as [tl vt ic tu ds pq pr tms nw lg]. destruct t as [d cb].
        stage_cases H; rewrite Ht in K; cbn [next_timer] in K;
          [discriminate | |]; injection K as K1 K2 K3; subst.
        -- session_eval.
           apply Pausing with (d := Nat.max nw d + late + 300); stage_done.
           now rewrite <- K3.
        -- destruct pq as [|t1 more]; session_eval.
           ++ apply Resting; stage_done. now rewrite <- K3.
           ++ apply Busy with (t := t1)
                              (d := Nat.max nw d + late + SCANNING_DURATION);
                stage_done. now rewrite <- K3.
      * assert (C : callback t = Reconnect).
        { unfold is_animation in A. now destruct (callback t). }
        rewrite C. pose proof (@next_timer_filter_drop is_animation _ _ _ E A) as F.
        destruct s as [tl vt ic tu ds pq pr tms nw lg].
        stage_cases H; session_eval;
          [apply Resting | apply Busy with (t := t0) (d := d0)
           | apply Pausing with (d := d0)]; stage_done;
          rewrite F; assumption.
    + replace (step s (TimerFires late)) with s; [exact H|].
      cbv beta iota delta [Client.step]. now rewrite E.
Qed.

Lemma stage_run evs : forall s, stage s -> stage (run evs s).
Proof.
  induction evs as [|e evs IH]; intros s H; [exact H|].
  change (run (e :: evs) s) with (run evs (step s e)).
  apply IH. now apply stage_step.
Qed.

(** X18. As long as the messages have the declared shape
    [WebSocketMessage], every tile a [TileMetadata] with its [bbox], the
    animation keeps its timer, whichever of the two message types
    arrives (snapshots with tiles included) and however the socket
    behaves: in every state at most one timer of the animation is
    pending; the [processing] flag is set exactly while one is; no tile
    waits in the queue unless the flag is set; and the drone is shown
    scanning only while the timer that will complete the scan of its
    target tile is pending. A tile without [bbox] is outside this
    statement: there [processNextTile] throws at [tile.bbox[1]] after it
    has set the flag, and [State] has no such tiles. *)
Theorem animation_keeps_its_timer :
  forall (evs : list Event),
    let s := run evs init in
    length (filter is_animation (timers s)) <= 1
    /\ (processing s = true <-> filter is_animation (timers s) <> [])
    /\ (processing s = false -> pendingTiles s = [])
    /\ (isScanning (droneState s) = true ->
        exists d t,
          In {| due := d; callback := ScanComplete t |} (timers s)
          /\ targetTile (droneState s) = Some t
          /\ processing s = true).
Proof.
  intros evs s.
  assert (H : stage s).
  { apply stage_run. now apply Resting. }
  destruct H as [Hp Ht Hq Hd | t d Hp Ht Hd | d Hp Ht Hd]; rewrite Ht, Hp.
  - split; [cbn; lia|]. split; [split; [discriminate | congruence]|].
    split; [auto|]. intros Hs. congruence.
  - split; [cbn; lia|]. split; [split; [discriminate | reflexivity]|].
    split; [discriminate|]. intros Hs. exists d, t.
    split; [|split; [now apply Hd | reflexivity]].
    assert (Hin : In {| due := d; callback := ScanComplete t |}
                     (filter is_animation (timers s)))
      by (rewrite Ht; now left).
    apply filter_In in Hin. tauto.
  - split; [cbn; lia|]. split; [split; [discriminate | reflexivity]|].
    split; [discriminate|]. intros Hs. congruence.
Qed.

Ltac pair_done :=
  unfold well_paired, paired in *; session_fields;
  cbn [snd targetTile position isScanning] in *;
  rewrite ?Forall_app;
  repeat match goal with
         | |- _ /\ _ => split
         | |- Forall _ [_] => constructor; [|constructor]
         end;
  cbn [snd targetTile position isScanning];
  try tauto; try reflexivity.

Lemma well_paired_step s e : well_paired s -> well_paired (step s e).
Proof.
  intros H. destruct e as [|dt message|dt|late].
  - destruct s as [tl vt ic tu ds pq pr tms nw lg].
    session_eval. pair_done.
  - destruct message as [ty mts mt mu].
    destruct s as [tl vt ic tu ds pq pr tms nw lg]. destruct ty.
    + destruct mu as [u|]; destruct mts as [[|t1 ts]|]; session_eval;
        try destruct (String.eqb u "");
        try destruct (last (map Some (sort_tiles (t1 :: ts))) None);
        pair_done.
    + destruct mt as [t|]; [destruct pr; [|destruct pq as [|t1 more]]|];
        session_eval; pair_done.
  - destruct s as [tl vt ic tu ds pq pr tms nw lg].
    session_eval. pair_done.
  - destruct (next_timer (timers s)) as [[t rest]|] eqn:E.
    + rewrite (@step_fire s late t rest E).
      destruct s as [tl vt ic tu ds pq pr tms nw lg]. destruct t as [d cb].
      destruct cb as [tile| |]; [|destruct pq as [|t1 more]|];
        session_eval; pair_done;
        destruct H as [Hd Hl]; destruct (targetTile ds); tauto.
    + replace (step s (TimerFires late)) with s; [exact H|].
      cbv beta iota delta [Client.step]. now rewrite E.
Qed.

Lemma well_paired_run evs : forall s, well_paired s -> well_paired (run evs s).
Proof.
  induction evs as [|e evs IH]; intros s H; [exact H|].
  change (run (e :: evs) s) with (run evs (step s e)).
  apply IH. now apply well_paired_step.
Qed.

(** X19. In every state of the hook, whatever it received, the drone's
    position is the center of its target tile, and a drone without a
    target has no position and is not scanning; the same holds of every
    drone state the hook ever set. *)
Theorem drone_position_is_center_of_target :
  forall (evs : list Event),
    let s := run evs init in
    (forall t, targetTile (droneState s) = Some t ->
               position (droneState s) = Some (center t))
    /\ (targetTile (droneState s) = None ->
        position (droneState s) = None
        /\ isScanning (droneState s) = false)
    /\ Forall (fun e => forall t, targetTile (snd e) = Some t ->
                                  position (snd e) = Some (center t))
              (droneLog s).
Proof.
  intros evs s.
  assert (H : well_paired s).
  { apply well_paired_run. split; [|constructor]. cbn. now split. }
  destruct H as [Hd Hl]. unfold paired in Hd.
  split; [|split].
  - intros t Ht. now rewrite Ht in Hd.
  - intros Ht. now rewrite Ht in Hd.
  - eapply Forall_impl; [|exact Hl]. cbn beta. intros e He t Ht.
    unfold paired in He. now rewrite Ht in He.
Qed.

End WithEnvironment.

Import Examples.

Lemma connection_loss_leaves_animation_alone_witness :
  let s := quiesce 2000
             (play_session 2000
                [TileArrives 0 tile_A; SocketCloses 10; TileArrives 5 tile_B;
                 TimerRuns 0; SocketOpens; EmptySnapshot 3 None;
                 SocketCloses 1; TimerRuns 0; TileArrives 10 tile_C]
                (Client.init url0)) in
  map snd (droneLog s)
  = [scanning tile_A; parked tile_A; scanning tile_B; parked tile_B;
     scanning tile_C; parked tile_C]
  /\ scan_starts (droneLog s) = [0; 2300; 4600]
  /\ timers s = [].
Proof.
  cbv zeta.
  destruct (@connection_loss_leaves_animation_alone 2000 url0
              [TileArrives 0 tile_A; SocketCloses 10; TileArrives 5 tile_B;
               TimerRuns 0; SocketOpens; EmptySnapshot 3 None;
               SocketCloses 1; TimerRuns 0; TileArrives 10 tile_C])
    as (_ & _ & H3 & _ & H5 & _).
  split; [exact H3|]. split; [reflexivity | exact H5].
Defined.

End SessionFacts.

(* ===================================================================== *)
(** ** The fade-in of a tile layer *)

Module FadeFacts.

Import FadeIn.

Lemma after_S n : after (S n) = tick (after n).
Proof. reflexivity. Qed.

(** A cleared interval changes nothing any more. *)
Lemma after_done k : after (11 + k) = after 11.
Proof.
  induction k as [|k IH].
  - now rewrite Nat.add_0_r.
  - rewrite Nat.add_succ_r, after_S, IH. vm_compute. reflexivity.
Qed.

(** X20. The fade-in that follows the creation of a layer adds 0.1 to
    the opacity on every tick, in floating point: ten additions give
    0.9999999999999999, so the opacity stays below 1 for ten ticks and is
    set to exactly 1 on the eleventh, when the interval is cleared. The
    opacity never decreases, and [setOpacity] is called once per tick
    until then and never after. *)
Theorem fade_in_ends_on_eleventh_tick :
  forall (n : nat),
    running (after n) = Nat.ltb n 11
    /\ (opacity (after n) <? 1)%float = Nat.ltb n 11
    /\ (opacity (after n) =? 1)%float = Nat.leb 11 n
    /\ (opacity (after n) <=? opacity (after (S n)))%float = true
    /\ length (shown (after n)) = Nat.min n 11
    /\ last (shown (after n)) 0%float = opacity (after n).
Proof.
  intros n. destruct (Nat.lt_ge_cases n 11) as [Hlt|Hge].
  - do 11 (destruct n as [|n]; [vm_compute; repeat split; reflexivity|]). lia.
  - replace n with (11 + (n - 11)) by lia.
    replace (S (11 + (n - 11))) with (11 + S (n - 11)) by lia.
    rewrite !after_done.
    replace (Nat.ltb (11 + (n - 11)) 11) with false
      by (symmetry; apply Nat.ltb_ge; lia).
    replace (Nat.leb 11 (11 + (n - 11))) with true
      by (symmetry; apply Nat.leb_le; lia).
    replace (Nat.min (11 + (n - 11)) 11) with 11 by lia.
    vm_compute. repeat split; reflexivity.
Qed.

End FadeFacts.
